(** * MineRL environment: session protocol, marshalling and recovery

    A shallow embedding of [minerl/env/core.py] (class [MineRLEnv]) and of
    [minerl/env/observations.py].

    - Python objects are explicit data: the environment object is the record
      [Env], its attributes are the fields, and a method is a function in the
      state-and-exception monad [M] (the state survives a raised exception,
      as attribute assignments do in Python).
    - Everything outside the process (the remote Minecraft client behind the
      socket, the instance launcher, the clock, the log file, the random
      generator behind [observation_space.sample()]) is the record [World]:
      a script of what each successive call will observe, and the [trace] of
      what the environment did to the outside.
    - [str] and [bytes] are both byte strings ([string]); a [str] stands for
      its UTF-8 encoding, so [.encode()] is the identity.
    - Logging ([log_error], [logger.debug], [print]) has no effect on the
      protocol and is left out. *)

From stdpp Require Import gmap strings list fin_maps pretty.
From Stdlib Require Import ZArith Lia Ascii.

Local Open Scope Z_scope.

(** ** Exceptions and results *)

Inductive exn : Type :=
| socket_timeout                      (* socket.timeout *)
| socket_error                        (* socket.error, i.e. OSError *)
| RuntimeError (msg : string)
| MissionInitException (msg : string)
| EnvException (msg : string)
| NotImplementedError (msg : string)
| AssertionError (msg : string)
| KeyError (key : string)
| IndexError
| ValueError
| TypeError
| AttributeError
| struct_error                        (* struct.error *)
| UnicodeDecodeError.

Inductive res (A : Type) : Type :=
| Ok (a : A)
| Raise (e : exn).
Arguments Ok {A} a.
Arguments Raise {A} e.

(** [except (socket.timeout, socket.error)] *)
Definition is_socket_exn (e : exn) : bool :=
  match e with
  | socket_timeout | socket_error => true
  | _ => false
  end.

(** [except RuntimeError] also catches its subclass NotImplementedError. *)
Definition is_RuntimeError (e : exn) : bool :=
  match e with
  | RuntimeError _ | NotImplementedError _ => true
  | _ => false
  end.

(** ** Python values that reach the marshalling layer *)

(** A float is kept as the text [str()] prints for it: printing is the only
    thing the marshaller does with one. An array is a one-dimensional
    [ndarray] (what [flatten()] returns); its elements are numbers. *)
Inductive scalar : Type :=
| SInt (z : Z)
| SFloat (repr : string).

Inductive pyval : Type :=
| PyInt (z : Z)
| PyStr (s : string)
| PyFloat (repr : string)
| PyArr (elems : list scalar).

(** [gym] spaces: [minerl.env.spaces.Enum] with its ordered [values],
    [gym.spaces.Box], [gym.spaces.Dict] with the ordered keys of its
    [spaces], and the other kinds (Discrete, ...), which the code treats
    alike. *)
Inductive Space : Type :=
| Enum (values : list string)
| Box
| Dict (spaces : list string)
| OtherSpace.

(** Python dictionaries whose iteration order matters are association lists
    in insertion order. *)
Fixpoint assoc {A : Type} (k : string) (d : list (string * A)) : option A :=
  match d with
  | [] => None
  | (k', v) :: d' => if String.eqb k k' then Some v else assoc k d'
  end.

Definition newline : string := String (Ascii.ascii_of_nat 10) EmptyString.

(** ** Observations *)

(** An image as [_process_observation] builds it: [height] rows of [width]
    pixels of [depth] bytes. *)
Definition Frame : Type := list (list (list ascii)).

(** One stack of the inventory list of the info payload: its ['type'] and
    ['quantity'] entries, [None] when the key is absent. The other keys of a
    stack are never read. *)
Record Stack : Type := {
  stack_type : option string;
  stack_quantity : option Z
}.

(** The info dictionary that the handlers read: the parsed JSON payload,
    of which only the ['inventory'] entry is read by the built-in handlers,
    and the ['pov'] entry that [_process_observation] adds. *)
Record Info : Type := {
  info_inventory : option (list Stack);
  info_pov : option Frame
}.

Inductive obs_value : Type :=
| ObsPov (f : Frame)
| ObsInventory (d : gmap string Z)
| ObsOther (v : pyval).

Definition ObsSpace : Type := list (string * Space).
Definition ObsDict : Type := list (string * obs_value).
Definition Handler : Type := Info -> ObsSpace -> res obs_value.

(** What the library underneath provides: values the source imports or calls
    and that are not part of the environment module. *)
Class Platform : Type := {
  (* minerl.env.malmo.malmo_version *)
  malmo_version : string;
  (* numpy's printer for a one-dimensional array, [str(ndarray)] *)
  str_ndarray : list scalar -> string;
  (* whether a byte string is well-formed UTF-8, for [bytes.decode('utf-8')] *)
  utf8_ok : string -> bool;
  (* [json.loads] on the info payload; a JSONDecodeError is a ValueError *)
  json_loads : string -> res Info;
  (* the handler registered for 'compassAngle', imported by core.py *)
  compass_observation : Handler;
  (* Modelled from the spec: the attempt budget of [comms.retry], the
     "outer bounded-retry wrapper" around [_start_up] *)
  retry_attempts : nat
}.

Section Marshalling.
Context `{Platform}.

(** [str(x)] for an array element, and [str(v)] *)
Definition str_scalar (x : scalar) : string :=
  match x with
  | SInt z => pretty z
  | SFloat r => r
  end.

Definition py_str (v : pyval) : string :=
  match v with
  | PyInt z => pretty z
  | PyStr s => s
  | PyFloat r => r
  | PyArr xs => str_ndarray xs
  end.

(** [values[i]] on a Python sequence: negative indices count from the end. *)
Definition py_index {A : Type} (l : list A) (i : Z) : res A :=
  let n := Z.of_nat (length l) in
  let j := if i <? 0 then i + n else i in
  if (0 <=? j) && (j <? n)
  then match l !! Z.to_nat j with
       | Some x => Ok x
       | None => Raise IndexError
       end
  else Raise IndexError.

(** [s in values] *)
Definition str_in (s : string) (values : list string) : bool :=
  existsb (String.eqb s) values.

(** [" ".join(str(x) for x in subact)] and ["\n".join(action_str)] *)
Definition py_join (sep : string) (parts : list string) : string :=
  String.concat sep parts.

(** One iteration of the loop of [_process_action]: the value finally
    stored in [action_in[act]]. *)
Definition process_component (action_space : list (string * Space))
    (act : string) (v : pyval) : res pyval :=
  match assoc act action_space with
  | None => Raise (KeyError act)
  | Some (Enum values) =>
      match v with
      | PyInt i =>
          match py_index values i with
          | Ok s => Ok (PyStr s)
          | Raise e => Raise e
          end
      | PyStr s =>
          if str_in s values then Ok (PyStr s)
          else Raise (AssertionError
                 ("Invalid string value for enum action " +:+ act +:+ ", " +:+ s))
      | _ =>
          Raise (AssertionError
            ("Enum action " +:+ act +:+ " must be str or int. Value observed: "
             +:+ py_str v +:+ " "))
      end
  | Some Box =>
      match v with
      | PyStr s =>
          Raise (AssertionError
            ("Box action " +:+ act +:+ " is a string! It should be a ndarray: " +:+ s))
      | PyArr xs => Ok (PyStr (py_join " " (map str_scalar xs)))
      | _ => Ok v
      end
  | Some _ => Ok v
  end.

(** The loop of [_process_action], with its accumulator [action_str]. *)
Fixpoint process_action_loop (action_space : list (string * Space))
    (action_in : list (string * pyval)) (action_str : list string)
    : res (list string) :=
  match action_in with
  | [] => Ok action_str
  | (act, v) :: rest =>
      match process_component action_space act v with
      | Raise e => Raise e
      | Ok v' =>
          process_action_loop action_space rest
            (action_str ++ [act +:+ " " +:+ py_str v'])
      end
  end.

Definition _process_action (action_space : list (string * Space))
    (action_in : list (string * pyval)) : res string :=
  match process_action_loop action_space action_in [] with
  | Ok action_str => Ok (py_join newline action_str)
  | Raise e => Raise e
  end.

End Marshalling.

(** ** observations.py *)

Definition pov_observation : Handler := fun info obs_space =>
  match info_pov info with
  | Some pov => Ok (ObsPov pov)
  | None => Raise (KeyError "pov")
  end.

(** [{k: 0 for k in inventory_spaces}] *)
Definition zero_inventory (inventory_spaces : list string) : gmap string Z :=
  list_to_map (map (fun k => (k, 0)) inventory_spaces).

(** The body of the loop over [info['inventory']]: a stack that lacks a key
    is skipped, and so is one whose (aliased) type is not a key of the
    dictionary (the [KeyError] is caught). *)
Definition add_stack (inventory_dict : gmap string Z) (stack : Stack)
    : gmap string Z :=
  match stack_type stack, stack_quantity stack with
  | Some type_name, Some quantity =>
      let type_name := if String.eqb type_name "log2" then "log" else type_name in
      match inventory_dict !! type_name with
      | Some n => <[type_name := n + quantity]> inventory_dict
      | None => inventory_dict
      end
  | _, _ => inventory_dict
  end.

Definition inventory_observation_dict (info : Info) (obs_space : ObsSpace)
    : res (gmap string Z) :=
  match assoc "inventory" obs_space with
  | None => Raise (KeyError "inventory")
  | Some (Dict inventory_spaces) =>
      let inventory_dict := zero_inventory inventory_spaces in
      match info_inventory info with
      | Some stacks => Ok (foldl add_stack inventory_dict stacks)
      | None => Ok inventory_dict
      end
  | Some _ => Raise AttributeError
  end.

Definition inventory_observation : Handler := fun info obs_space =>
  match inventory_observation_dict info obs_space with
  | Ok d => Ok (ObsInventory d)
  | Raise e => Raise e
  end.

(** ** The outside world *)

Definition Sock : Type := nat.       (* a socket object *)
Definition Instance : Type := nat.   (* an InstanceManager handle *)

Inductive fault : Type := Timeout | SockError.

Definition exn_of_fault (f : fault) : exn :=
  match f with
  | Timeout => socket_timeout
  | SockError => socket_error
  end.

(** What one [comms.recv_message] observes. *)
Inductive incoming : Type :=
| Msg (data : string)
| Broken (f : fault).

(** What the environment does to the outside, oldest first. Sleeps are in
    tenths of a second. *)
Inductive event : Type :=
| EvConnect (s : Sock) (i : Instance)
| EvSend (s : Sock) (data : string)
| EvShutdown (s : Sock)
| EvClose (s : Sock)
| EvLaunch (i : Instance) (ok : bool)
| EvKill (i : Instance)
| EvSleep (tenths : Z).

Record World : Type := {
  (* what the successive recv_message calls observe; once the remote has
     nothing more to say, a read blocks until the socket timeout *)
  inbox : list incoming;
  (* per send_message call, the transport failure it meets, if any *)
  send_faults : list (option fault);
  (* per sock.connect call, the failure it meets, if any *)
  connect_faults : list (option fault);
  (* per instance.launch() call, whether the build and launch succeed
     ([false] is malmo.IntermittentBuildError) *)
  launches : list bool;
  (* per log_shows_bind_exception call, whether the log shows the signature *)
  bind_log : list bool;
  (* the successive readings of time.time(), in seconds, and the last one *)
  clock : list Z;
  now : Z;
  (* what the next observation_space.sample() draws *)
  next_sample : ObsDict;
  (* the handles not yet given out *)
  fresh_sock : Sock;
  fresh_instance : Instance;
  trace : list event
}.

(** ** The environment object *)

(** What [init] reads from the mission file: the finalized descriptor
    ([etree.tostring(self.xml)]), the fresh [uuid4], and the geometry of the
    video producer. *)
Record Mission : Type := {
  mission_xml : string;
  mission_uid : string;
  mission_width : nat;
  mission_height : nat;
  mission_depth : nat
}.

Record Env : Type := {
  action_space : list (string * Space);
  observation_space : ObsSpace;
  obs_handlers : list (string * Handler);
  (* the outcome of reading and parsing self.xml_file *)
  xml_file : res Mission;
  xml : string;
  has_init : bool;
  exp_uid : string;
  role : Z;
  agent_count : Z;
  resets : Z;
  synchronous : bool;
  width : nat;
  height : nat;
  depth : nat;
  client_socket : option Sock;
  done : bool;
  _seed : option Z;
  had_to_clean : bool;
  instance : Instance;
  _last_pov : option Frame;
  world : World
}.

Definition set_world (w : World) (e : Env) : Env :=
  {| action_space := action_space e; observation_space := observation_space e;
     obs_handlers := obs_handlers e; xml_file := xml_file e; xml := xml e;
     has_init := has_init e; exp_uid := exp_uid e; role := role e;
     agent_count := agent_count e; resets := resets e;
     synchronous := synchronous e; width := width e; height := height e;
     depth := depth e; client_socket := client_socket e; done := done e;
     _seed := _seed e; had_to_clean := had_to_clean e; instance := instance e;
     _last_pov := _last_pov e; world := w |}.

Definition set_client_socket (s : option Sock) (e : Env) : Env :=
  {| action_space := action_space e; observation_space := observation_space e;
     obs_handlers := obs_handlers e; xml_file := xml_file e; xml := xml e;
     has_init := has_init e; exp_uid := exp_uid e; role := role e;
     agent_count := agent_count e; resets := resets e;
     synchronous := synchronous e; width := width e; height := height e;
     depth := depth e; client_socket := s; done := done e;
     _seed := _seed e; had_to_clean := had_to_clean e; instance := instance e;
     _last_pov := _last_pov e; world := world e |}.

Definition set_done (b : bool) (e : Env) : Env :=
  {| action_space := action_space e; observation_space := observation_space e;
     obs_handlers := obs_handlers e; xml_file := xml_file e; xml := xml e;
     has_init := has_init e; exp_uid := exp_uid e; role := role e;
     agent_count := agent_count e; resets := resets e;
     synchronous := synchronous e; width := width e; height := height e;
     depth := depth e; client_socket := client_socket e; done := b;
     _seed := _seed e; had_to_clean := had_to_clean e; instance := instance e;
     _last_pov := _last_pov e; world := world e |}.

Definition set_seed (v : option Z) (e : Env) : Env :=
  {| action_space := action_space e; observation_space := observation_space e;
     obs_handlers := obs_handlers e; xml_file := xml_file e; xml := xml e;
     has_init := has_init e; exp_uid := exp_uid e; role := role e;
     agent_count := agent_count e; resets := resets e;
     synchronous := synchronous e; width := width e; height := height e;
     depth := depth e; client_socket := client_socket e; done := done e;
     _seed := v; had_to_clean := had_to_clean e; instance := instance e;
     _last_pov := _last_pov e; world := world e |}.

Definition set_had_to_clean (b : bool) (e : Env) : Env :=
  {| action_space := action_space e; observation_space := observation_space e;
     obs_handlers := obs_handlers e; xml_file := xml_file e; xml := xml e;
     has_init := has_init e; exp_uid := exp_uid e; role := role e;
     agent_count := agent_count e; resets := resets e;
     synchronous := synchronous e; width := width e; height := height e;
     depth := depth e; client_socket := client_socket e; done := done e;
     _seed := _seed e; had_to_clean := b; instance := instance e;
     _last_pov := _last_pov e; world := world e |}.

Definition set_instance (i : Instance) (e : Env) : Env :=
  {| action_space := action_space e; observation_space := observation_space e;
     obs_handlers := obs_handlers e; xml_file := xml_file e; xml := xml e;
     has_init := has_init e; exp_uid := exp_uid e; role := role e;
     agent_count := agent_count e; resets := resets e;
     synchronous := synchronous e; width := width e; height := height e;
     depth := depth e; client_socket := client_socket e; done := done e;
     _seed := _seed e; had_to_clean := had_to_clean e; instance := i;
     _last_pov := _last_pov e; world := world e |}.

Definition set_resets (n : Z) (e : Env) : Env :=
  {| action_space := action_space e; observation_space := observation_space e;
     obs_handlers := obs_handlers e; xml_file := xml_file e; xml := xml e;
     has_init := has_init e; exp_uid := exp_uid e; role := role e;
     agent_count := agent_count e; resets := n;
     synchronous := synchronous e; width := width e; height := height e;
     depth := depth e; client_socket := client_socket e; done := done e;
     _seed := _seed e; had_to_clean := had_to_clean e; instance := instance e;
     _last_pov := _last_pov e; world := world e |}.

Definition set_last_pov (f : Frame) (e : Env) : Env :=
  {| action_space := action_space e; observation_space := observation_space e;
     obs_handlers := obs_handlers e; xml_file := xml_file e; xml := xml e;
     has_init := has_init e; exp_uid := exp_uid e; role := role e;
     agent_count := agent_count e; resets := resets e;
     synchronous := synchronous e; width := width e; height := height e;
     depth := depth e; client_socket := client_socket e; done := done e;
     _seed := _seed e; had_to_clean := had_to_clean e; instance := instance e;
     _last_pov := Some f; world := world e |}.

(** What a successful [init] assigns. *)
Definition set_mission (m : Mission) (e : Env) : Env :=
  {| action_space := action_space e; observation_space := observation_space e;
     obs_handlers := obs_handlers e; xml_file := xml_file e;
     xml := mission_xml m;
     has_init := true; exp_uid := mission_uid m; role := 0;
     agent_count := 1; resets := resets e;
     synchronous := synchronous e; width := mission_width m;
     height := mission_height m; depth := mission_depth m;
     client_socket := client_socket e; done := done e;
     _seed := _seed e; had_to_clean := had_to_clean e; instance := instance e;
     _last_pov := _last_pov e; world := world e |}.

(** ** The monad of methods: state that survives exceptions *)

Definition M (A : Type) : Type := Env -> res A * Env.

#[global] Instance M_ret : MRet M := fun A a e => (Ok a, e).

#[global] Instance M_bind : MBind M := fun A B f m e =>
  match m e with
  | (Ok a, e') => f a e'
  | (Raise x, e') => (Raise x, e')
  end.

Definition raise {A : Type} (x : exn) : M A := fun e => (Raise x, e).
Definition lift {A : Type} (r : res A) : M A := fun e => (r, e).
Definition gets {A : Type} (f : Env -> A) : M A := fun e => (Ok (f e), e).
Definition modify (f : Env -> Env) : M unit := fun e => (Ok tt, f e).

(** [try: body except ...: handler]; the handler is chosen by the raised
    exception, [None] when no [except] clause matches. *)
Definition try_except {A : Type} (body : M A) (handler : exn -> option (M A))
    : M A := fun e =>
  match body e with
  | (Ok a, e') => (Ok a, e')
  | (Raise x, e') =>
      match handler x with
      | Some h => h e'
      | None => (Raise x, e')
      end
  end.

(** *** Primitives on the world *)

Definition emit (ev : event) : M unit := fun e =>
  let w := world e in
  (Ok tt,
   set_world {| inbox := inbox w; send_faults := send_faults w;
                connect_faults := connect_faults w; launches := launches w;
                bind_log := bind_log w; clock := clock w; now := now w;
                next_sample := next_sample w; fresh_sock := fresh_sock w;
                fresh_instance := fresh_instance w;
                trace := trace w ++ [ev] |} e).

(** [time.sleep], in tenths of a second *)
Definition sleep (tenths : Z) : M unit := emit (EvSleep tenths).

(** Modelled from the spec: [comms.send_message], "send one opaque message"
    as one framed message, or a transport failure. Calling it on [None]
    fails on the attribute access. *)
Definition send_message (sock : option Sock) (data : string) : M unit :=
  fun e =>
  match sock with
  | None => (Raise AttributeError, e)
  | Some s =>
      let w := world e in
      let w' failed :=
        {| inbox := inbox w; send_faults := tail (send_faults w);
           connect_faults := connect_faults w; launches := launches w;
           bind_log := bind_log w; clock := clock w; now := now w;
           next_sample := next_sample w; fresh_sock := fresh_sock w;
           fresh_instance := fresh_instance w;
           trace := if failed : bool then trace w
                    else trace w ++ [EvSend s data] |} in
      match send_faults w with
      | Some f :: _ => (Raise (exn_of_fault f), set_world (w' true) e)
      | _ => (Ok tt, set_world (w' false) e)
      end
  end.

(** Modelled from the spec: [comms.recv_message], "receive one opaque
    message, blocking with a bounded timeout". *)
Definition recv_message (sock : option Sock) : M string := fun e =>
  match sock with
  | None => (Raise AttributeError, e)
  | Some s =>
      let w := world e in
      let w' :=
        {| inbox := tail (inbox w); send_faults := send_faults w;
           connect_faults := connect_faults w; launches := launches w;
           bind_log := bind_log w; clock := clock w; now := now w;
           next_sample := next_sample w; fresh_sock := fresh_sock w;
           fresh_instance := fresh_instance w; trace := trace w |} in
      match inbox w with
      | [] => (Raise socket_timeout, e)
      | Msg data :: _ => (Ok data, set_world w' e)
      | Broken f :: _ => (Raise (exn_of_fault f), set_world w' e)
      end
  end.

(** [socket.socket(...)], the two options, and [sock.connect(...)] to the
    current instance. *)
Definition connect : M Sock := fun e =>
  let w := world e in
  let s := fresh_sock w in
  let w' failed :=
    {| inbox := inbox w; send_faults := send_faults w;
       connect_faults := tail (connect_faults w); launches := launches w;
       bind_log := bind_log w; clock := clock w; now := now w;
       next_sample := next_sample w; fresh_sock := S s;
       fresh_instance := fresh_instance w;
       trace := if failed : bool then trace w
                else trace w ++ [EvConnect s (instance e)] |} in
  match connect_faults w with
  | Some f :: _ => (Raise (exn_of_fault f), set_world (w' true) e)
  | _ => (Ok s, set_world (w' false) e)
  end.

(** [time.time()] *)
Definition time_time : M Z := fun e =>
  let w := world e in
  match clock w with
  | [] => (Ok (now w), e)
  | t :: rest =>
      (Ok t,
       set_world {| inbox := inbox w; send_faults := send_faults w;
                    connect_faults := connect_faults w; launches := launches w;
                    bind_log := bind_log w; clock := rest; now := t;
                    next_sample := next_sample w; fresh_sock := fresh_sock w;
                    fresh_instance := fresh_instance w; trace := trace w |} e)
  end.

(** [log_shows_bind_exception]: whether the tail of the instance's log
    contains 'java.net.BindException'. *)
Definition log_shows_bind_exception : M bool := fun e =>
  let w := world e in
  match bind_log w with
  | [] => (Ok false, e)
  | b :: rest =>
      (Ok b,
       set_world {| inbox := inbox w; send_faults := send_faults w;
                    connect_faults := connect_faults w; launches := launches w;
                    bind_log := rest; clock := clock w; now := now w;
                    next_sample := next_sample w; fresh_sock := fresh_sock w;
                    fresh_instance := fresh_instance w; trace := trace w |} e)
  end.

(** [self.observation_space.sample()] *)
Definition sample : M ObsDict := gets (fun e => next_sample (world e)).

(** [InstanceManager.get_instance(os.getpid())] followed by
    [instance.launch()]: the new handle and whether the launch succeeded. *)
Definition get_and_launch : M (Instance * bool) := fun e =>
  let w := world e in
  let i := fresh_instance w in
  let ok := match launches w with
            | b :: _ => b
            | [] => true
            end in
  (Ok (i, ok),
   set_world {| inbox := inbox w; send_faults := send_faults w;
                connect_faults := connect_faults w;
                launches := tail (launches w);
                bind_log := bind_log w; clock := clock w; now := now w;
                next_sample := next_sample w; fresh_sock := fresh_sock w;
                fresh_instance := S i;
                trace := trace w ++ [EvLaunch i ok] |} e).

(** [instance.kill()] *)
Definition kill (i : Instance) : M unit := emit (EvKill i).

(** ** Wire formats ([struct.unpack], big-endian) *)

Definition byte_val (c : ascii) : Z := Z.of_nat (nat_of_ascii c).

(** ['!b']: one signed byte *)
Definition unpack_b (reply : string) : res Z :=
  match reply with
  | String c EmptyString =>
      let v := byte_val c in Ok (if v <? 128 then v else v - 256)
  | _ => Raise struct_error
  end.

(** ['!I']: one unsigned 32-bit integer *)
Definition unpack_I (reply : string) : res Z :=
  match reply with
  | String a (String b (String c (String d EmptyString))) =>
      Ok (Z.lor (Z.shiftl (byte_val a) 24)
           (Z.lor (Z.shiftl (byte_val b) 16)
             (Z.lor (Z.shiftl (byte_val c) 8) (byte_val d))))
  | _ => Raise struct_error
  end.

(** The reward of a step: the eight bytes of the IEEE double of the reply,
    left uninterpreted, or the integer literal of the degraded result. *)
Inductive reward : Type :=
| RewardDouble (bits : string)
| RewardInt (z : Z).

(** ['!dbb']: a double and two signed bytes *)
Definition unpack_dbb (reply : string) : res (string * Z * Z) :=
  if (String.length reply =? 10)%nat then
    match unpack_b (String.substring 8 1 reply), unpack_b (String.substring 9 1 reply) with
    | Ok d, Ok s => Ok (String.substring 0 8 reply, d, s)
    | _, _ => Raise struct_error
    end
  else Raise struct_error.

(** The replies of the remote as byte strings: a completion flag, and a
    32-bit acknowledgment with the given low byte. *)
Definition byte (n : nat) : string := String (ascii_of_nat n) EmptyString.
Definition flag_unset : string := byte 0.
Definition ack (n : nat) : string := byte 0 +:+ byte 0 +:+ byte 0 +:+ byte n.

(** ** Frames ([numpy]) *)

Fixpoint chunks {A : Type} (count size : nat) (l : list A) : list (list A) :=
  match count with
  | O => []
  | S c => take size l :: chunks c size (drop size l)
  end.

(** [np.zeros((height, width, depth), dtype=np.uint8)] *)
Definition zeros (h w d : nat) : Frame :=
  replicate h (replicate w (replicate d zero)).

(** [pov.reshape((height, width, depth))[::-1, :, :]] *)
Definition reshape_flip (h w d : nat) (buf : list ascii) : res Frame :=
  if decide (length buf = h * w * d)%nat
  then Ok (reverse (map (chunks w d) (chunks h (w * d) buf)))
  else Raise ValueError.

Definition MAX_WAIT : Z := 80.
Definition STEP_OPTIONS : Z := 0.

Definition StepResult : Type := ObsDict * reward * bool * gmap string string.

Section Environment.
Context `{Platform}.

(** [bytes.decode('utf-8')] *)
Definition decode (b : string) : M string :=
  if utf8_ok b then mret b else raise UnicodeDecodeError.

Definition DEFAULT_OBS_HANDLERS : list (string * Handler) :=
  [("pov", pov_observation);
   ("inventory", inventory_observation);
   ("compassAngle", compass_observation)].

(** The loop of [_process_observation] over the keys of the observation
    space, inside its [try]: a [KeyError], from the registry or from a
    handler, abandons the whole dictionary. *)
Fixpoint build_obs (handlers : list (string * Handler)) (info : Info)
    (obs_space : ObsSpace) (keys : list string) (obs_dict : ObsDict)
    : res ObsDict :=
  match keys with
  | [] => Ok obs_dict
  | key :: rest =>
      match assoc key handlers with
      | None => Ok []
      | Some handler_fn =>
          match handler_fn info obs_space with
          | Ok v => build_obs handlers info obs_space rest (obs_dict ++ [(key, v)])
          | Raise (KeyError _) => Ok []
          | Raise x => Raise x
          end
      end
  end.

(** The arguments are [None] only when [_peek_obs] is entered with
    [done] set, where [np.frombuffer(None)] fails. *)
Definition _process_observation (pov : option string) (info : option string)
    : M ObsDict :=
  match pov with
  | None => raise TypeError
  | Some buf =>
      h ← gets height; w ← gets width; d ← gets depth;
      pov ← (if (String.length buf =? 0)%nat then mret (zeros h w d)
             else lift (reshape_flip h w d (String.list_ascii_of_string buf)));
      info ← match info with
             | Some s =>
                 if (String.length s =? 0)%nat
                 then mret {| info_inventory := None; info_pov := None |}
                 else lift (json_loads s)
             | None => mret {| info_inventory := None; info_pov := None |}
             end;
      let info := {| info_inventory := info_inventory info;
                     info_pov := Some pov |} in
      modify (set_last_pov pov);;
      obs_space ← gets observation_space;
      handlers ← gets obs_handlers;
      lift (build_obs handlers info obs_space (map fst obs_space) [])
  end.

Definition _hello (sock : option Sock) : M unit :=
  send_message sock ("<MalmoEnv" +:+ malmo_version +:+ "/>").

Definition _get_token (e : Env) : string :=
  exp_uid e +:+ ":" +:+ pretty (role e) +:+ ":" +:+ pretty (resets e).

(** [str(b).lower()] *)
Definition str_bool_lower (b : bool) : string :=
  if b then "true" else "false".

(** The token of [_init_mission], as its loop body builds it. *)
Definition mission_token (e : Env) : string :=
  let token := _get_token e +:+ ":" +:+ pretty (agent_count e) +:+ ":"
               +:+ str_bool_lower (synchronous e) in
  match _seed e with
  | Some s => token +:+ ":" +:+ pretty s
  | None => token
  end.

(** The loop of [_init_mission]. The counter [num_retries] is kept as what
    is left of [MAX_WAIT]: [remaining = MAX_WAIT - num_retries], so that
    [num_retries + 1 > MAX_WAIT] is [remaining = 0]. *)
Fixpoint init_mission_loop (remaining : nat) : M unit :=
  x ← gets xml;
  token ← gets mission_token;
  sock ← gets client_socket;
  send_message sock x;;
  send_message sock token;;
  reply ← recv_message sock;
  ok ← lift (unpack_I reply);
  if ok =? 1 then mret tt
  else
    match remaining with
    | O => raise socket_timeout
    | S remaining' =>
        bind_exception ← log_shows_bind_exception;
        if bind_exception : bool then
          modify (set_had_to_clean true);;
          raise (RuntimeError "Port is unusable")
        else
          sleep 10;;
          init_mission_loop remaining'
    end.

Definition _init_mission : M unit := init_mission_loop (Z.to_nat MAX_WAIT).

Definition _attempt_launch_new_instance : M (option Instance) :=
  '(i, ok) ← get_and_launch;
  if ok : bool then mret (Some i)
  else kill i;; mret None.

(** The loop of [_robust_launch_new_instance] over [range(max_tries)]. *)
Fixpoint robust_launch_loop (tries : nat) : M Instance :=
  match tries with
  | O => raise (RuntimeError
           "Failed to build and launch Minecraft instance 3 times. Giving up.")
  | S tries' =>
      r ← _attempt_launch_new_instance;
      match r with
      | Some i => mret i
      | None => sleep 30;; robust_launch_loop tries'
      end
  end.

Definition _robust_launch_new_instance : M Instance := robust_launch_loop 3.

(** [self.instance] is only ever assigned from
    [_robust_launch_new_instance], which returns an instance or raises, so
    the guard [if self.instance] always passes. An error of [shutdown] or
    [close] is swallowed by the [except] clause. *)
Definition _clean_connection : M unit :=
  sock ← gets client_socket;
  match sock with
  | Some s => emit (EvShutdown s);; emit (EvClose s)
  | None => mret tt
  end;;
  modify (set_client_socket None);;
  cleaned ← gets had_to_clean;
  if cleaned : bool then
    i ← gets instance;
    kill i;;
    i' ← _robust_launch_new_instance;
    modify (set_instance i');;
    modify (set_had_to_clean false)
  else
    modify (set_had_to_clean true).

Definition _peek_obs : M ObsDict :=
  start_time ← time_time;
  d ← gets done;
  if negb d then
    sock ← gets client_socket;
    send_message sock "<Peek/>";;
    obs ← recv_message sock;
    info_bytes ← recv_message sock;
    info ← decode info_bytes;
    reply ← recv_message sock;
    done' ← lift (unpack_b reply);
    modify (set_done (done' =? 1));;
    (if (String.length obs =? 0)%nat then
       t ← time_time;
       if t - start_time >? MAX_WAIT then
         sock ← gets client_socket;
         match sock with
         | Some s => emit (EvClose s)
         | None => raise AttributeError
         end;;
         modify (set_client_socket None);;
         raise (MissionInitException "too long waiting for first observation")
       else sleep 1
     else mret tt);;
    d' ← gets done;
    if d' : bool then
      raise (RuntimeError
        "Something went wrong resetting the environment! `done` was true on first frame.")
    else _process_observation (Some obs) (Some info)
  else _process_observation None None.

Definition _quit_episode : M bool :=
  sock ← gets client_socket;
  send_message sock "<Quit/>";;
  reply ← recv_message sock;
  ok ← lift (unpack_I reply);
  mret (negb (ok =? 0)).

(** The body of [_start_up], before the [@retry] decorator. Of the two
    [except] clauses, the first catches [socket.timeout] and [socket.error],
    the second [RuntimeError]; an exception raised by a handler replaces the
    one being handled. *)
Definition start_up_once : M ObsDict :=
  modify (fun e => set_resets (resets e + 1) e);;
  try_except
    (sock ← gets client_socket;
     match sock with
     | None =>
         s ← connect;
         _hello (Some s);;
         modify (set_client_socket (Some s))
     | Some _ => mret tt
     end;;
     _init_mission;;
     modify (set_done false);;
     _peek_obs)
    (fun x =>
       if is_socket_exn x then Some (_clean_connection;; raise x)
       else if is_RuntimeError x then
         Some (modify (set_had_to_clean true);; _clean_connection;; raise x)
       else None).

(** Modelled from the spec: [comms.retry], the bounded-retry wrapper. The
    wrapped method is called again after a failure, up to the attempt
    budget; exceeding the budget surfaces the final exception. *)
Fixpoint retry_loop {A : Type} (more : nat) (f : M A) : M A := fun e =>
  match f e with
  | (Ok a, e') => (Ok a, e')
  | (Raise x, e') =>
      match more with
      | O => (Raise x, e')
      | S more' => retry_loop more' f e'
      end
  end.

Definition retry {A : Type} (f : M A) : M A :=
  retry_loop (pred retry_attempts) f.

Definition _start_up : M ObsDict := retry start_up_once.

(** [init]: the mission file is read and the attributes of the session are
    assigned; a failure is the exception the parsing raises. *)
Definition init : M unit := fun e =>
  match xml_file e with
  | Ok m => (Ok tt, set_mission m e)
  | Raise x => (Raise x, e)
  end.

(** The [while not self.done] loop of [reset]. Nothing bounds it in the
    source: [None] is a run that is still looping when the fuel is spent. *)
Fixpoint quit_loop (fuel : nat) (e : Env) : option (res unit * Env) :=
  if done e then Some (Ok tt, e)
  else
    match fuel with
    | O => None
    | S fuel' =>
        match _quit_episode e with
        | (Raise x, e') => Some (Raise x, e')
        | (Ok ok, e') =>
            let e' := set_done ok e' in
            if done e' then quit_loop fuel' e'
            else quit_loop fuel' (snd (sleep 1 e'))
        end
    end.

(** The [try] block of [reset]. *)
Definition reset_body (fuel : nat) (e : Env) : option (res ObsDict * Env) :=
  let '(r, e) := if has_init e then (Ok tt, e) else init e in
  match r with
  | Raise x => Some (Raise x, e)
  | Ok _ =>
      match quit_loop fuel e with
      | None => None
      | Some (Raise x, e) => Some (Raise x, e)
      | Some (Ok _, e) => Some (_start_up e)
      end
  end.

(** [reset]: the [finally] clause runs on every way out of the [try]
    block. *)
Definition reset (fuel : nat) (e : Env) : option (res ObsDict * Env) :=
  match reset_body fuel e with
  | None => None
  | Some (r, e') => Some (r, set_seed None e')
  end.

(** [seed(seed=None)]; the argument is any Python value, [None] included. *)
Definition seed (v : option pyval) : M unit :=
  match v with
  | Some (PyInt z) => modify (set_seed (Some z))
  | _ => raise (AssertionError "Seed must be an int!")
  end.

Definition withinfo : bool := (STEP_OPTIONS =? 0) || (STEP_OPTIONS =? 2).

Definition error_info : gmap string string :=
  {[ "error" := "Connection timed out!" ]}.

(** The [try] block of [step]. *)
Definition step_exchange (malmo_command : string) : M StepResult :=
  d ← gets done;
  if negb d then
    let step_message :=
      "<Step" +:+ pretty STEP_OPTIONS +:+ ">" +:+ malmo_command
      +:+ "</Step" +:+ pretty STEP_OPTIONS +:+ " >" in
    sock ← gets client_socket;
    send_message sock step_message;;
    sock ← gets client_socket;
    obs ← recv_message sock;
    sock ← gets client_socket;
    reply ← recv_message sock;
    '(rew, done', sent) ← lift (unpack_dbb reply);
    info ← (if withinfo then
              sock ← gets client_socket;
              info_bytes ← recv_message sock;
              decode info_bytes
            else mret "");   (* [info = {}], as empty as [""] for [if info:] *)
    out_obs ← _process_observation (Some obs) (Some info);
    modify (set_done (done' =? 1));;
    d' ← gets done;
    mret (out_obs, RewardDouble rew, d', ∅)
  else
    raise (RuntimeError "Attempted to step an environment with done=True").

(** The [except (socket.timeout, socket.error)] clause of [step]. *)
Definition step_recover : M StepResult :=
  _clean_connection;;
  modify (set_done true);;
  obs ← sample;
  d ← gets done;
  mret (obs, RewardInt 0, d, error_info).

Definition step (action : list (string * pyval)) : M StepResult :=
  spaces ← gets action_space;
  malmo_command ← lift (_process_action spaces action);
  try_except (step_exchange malmo_command)
    (fun x => if is_socket_exn x then Some step_recover else None).

End Environment.

(** ** What the claims are stated against *)

(** The alias that [inventory_observation] applies to the type of a stack. *)
Definition alias (type_name : string) : string :=
  if String.eqb type_name "log2" then "log" else type_name.

(** The quantity that a stack contributes to item [k]: its ['quantity'] if
    it has both keys and its aliased type is [k], nothing otherwise. *)
Definition stack_quantity_for (k : string) (stack : Stack) : Z :=
  match stack_type stack, stack_quantity stack with
  | Some t, Some q => if decide (alias t = k) then q else 0
  | _, _ => 0
  end.

(** The sum of the quantities of the stacks of item [k]. *)
Definition inventory_sum (k : string) (stacks : list Stack) : Z :=
  foldr (fun stack acc => stack_quantity_for k stack + acc) 0 stacks.

(** The stacks of an info payload, none when it has no inventory. *)
Definition info_stacks (info : Info) : list Stack :=
  default [] (info_inventory info).

(** The line of one action component. *)
Definition component_line `{Platform} (act : string) (v' : pyval) : string :=
  act +:+ " " +:+ py_str v'.

(** What the launcher will do: whether one of the next [tries] launches
    succeeds (a launcher with nothing scripted succeeds), the handle that
    then comes back, and the events of the attempts. *)
Fixpoint launch_succeeds (tries : nat) (l : list bool) : bool :=
  match tries with
  | O => false
  | S tries' =>
      match l with
      | false :: l' => launch_succeeds tries' l'
      | _ => true
      end
  end.

Fixpoint relaunch_handle (tries : nat) (i : Instance) (l : list bool) : Instance :=
  match tries with
  | O => i
  | S tries' =>
      match l with
      | false :: l' => relaunch_handle tries' (S i) l'
      | _ => i
      end
  end.

Fixpoint relaunch_events (tries : nat) (i : Instance) (l : list bool)
    : list event :=
  match tries with
  | O => []
  | S tries' =>
      match l with
      | false :: l' =>
          EvLaunch i false :: EvKill i :: EvSleep 30
            :: relaunch_events tries' (S i) l'
      | _ => [EvLaunch i true]
      end
  end.

(** The events of closing the socket, if there is one. *)
Definition close_events (sock : option Sock) : list event :=
  match sock with
  | Some s => [EvShutdown s; EvClose s]
  | None => []
  end.



(** The handles of the launches that succeeded in a run of events. *)
Fixpoint launched (evs : list event) : list Instance :=
  match evs with
  | [] => []
  | EvLaunch i true :: evs' => i :: launched evs'
  | _ :: evs' => launched evs'
  end.


(** What the recovery procedure depends on, and the next sample. *)
Definition recovery_view (e : Env)
    : bool * Instance * list bool * Instance * ObsDict :=
  (had_to_clean e, instance e, launches (world e),
   fresh_instance (world e), next_sample (world e)).

Definition launch_failure : exn :=
  RuntimeError "Failed to build and launch Minecraft instance 3 times. Giving up.".

Definition finished_episode : exn :=
  RuntimeError "Attempted to step an environment with done=True".


(** The time that [_peek_obs] measures between its two readings of the
    clock. *)
Definition peek_elapsed (w : World) : Z :=
  match clock w with
  | t0 :: t1 :: _ => t1 - t0
  | _ => 0
  end.

(** Whether the next [send_message] goes through. *)
Definition next_send_ok (w : World) : bool :=
  match send_faults w with
  | Some _ :: _ => false
  | _ => true
  end.

(** The token of the mission-init handshake, written out. *)
Definition init_token (e : Env) : string :=
  exp_uid e +:+ ":" +:+ pretty (role e) +:+ ":" +:+ pretty (resets e)
  +:+ ":" +:+ pretty (agent_count e) +:+ ":"
  +:+ (if synchronous e then "true" else "false")
  +:+ match _seed e with
      | Some z => ":" +:+ pretty z
      | None => ""
      end.

(** The token the claim describes. *)
Definition claimed_token (e : Env) : string :=
  exp_uid e +:+ ":" +:+ pretty (role e) +:+ ":" +:+ pretty (resets e)
  +:+ match _seed e with
      | Some z => ":" +:+ pretty z
      | None => ""
      end.

(** What [_init_mission] may do to the outside on socket [s]. *)
Definition init_event (s : Sock) (x token : string) (ev : event) : Prop :=
  ev = EvSend s x \/ ev = EvSend s token \/ ev = EvSleep 10.

(** Whether the next [n] calls of [send_message] go through. *)
Definition sends_ok (n : nat) (w : World) : bool :=
  forallb (fun o => match o with
                    | Some _ => false
                    | None => true
                    end) (take n (send_faults w)).

(** ** Statements about methods *)

(** [frame R m]: the state after [m], whether it returns or raises, is
    related by [R] to the state before. *)
Definition frame {A : Type} (R : relation Env) (m : M A) : Prop :=
  forall e, R e (m e).2.


(** The exchanges with the remote leave alone what the recovery procedure
    depends on ([same_recovery]) and, until the reply is taken into
    account, the [done] flag as well ([same_session]). *)
Definition same_recovery : relation Env :=
  fun e e' => recovery_view e' = recovery_view e.

Definition same_session : relation Env :=
  fun e e' => recovery_view e' = recovery_view e /\ done e' = done e.

(** [returns Q m]: whatever [m] returns satisfies [Q]. *)
Definition returns {A : Type} (Q : A -> Prop) (m : M A) : Prop :=
  forall e a e', m e = (Ok a, e') -> Q a.


(** The outside world is left alone. *)
Definition same_world : relation Env := fun e e' => world e' = world e.

(** ** Sample inputs *)

Definition sample_platform : Platform := {|
  malmo_version := "0.37.0";
  str_ndarray := fun xs => "[" +:+ String.concat " " (map str_scalar xs) +:+ "]";
  utf8_ok := fun _ => true;
  json_loads := fun _ => Ok {| info_inventory := None; info_pov := None |};
  compass_observation := fun _ _ => Ok (ObsOther (PyInt 0));
  retry_attempts := 1
|}.

Definition turn_space : list (string * Space) :=
  [("turn", Enum ["none"; "left"; "right"])].

Definition sample_action_space : list (string * Space) :=
  [("turn", Enum ["none"; "left"; "right"]); ("camera", Box)].

Definition sample_obs_space : ObsSpace :=
  [("pov", Box); ("inventory", Dict ["log"; "dirt"])].

Definition sample_info : Info :=
  {| info_inventory :=
       Some [ {| stack_type := Some "log2"; stack_quantity := Some 3 |};
              {| stack_type := Some "dirt"; stack_quantity := Some 5 |} ];
     info_pov := None |}.

Definition sample_mission : Mission :=
  {| mission_xml := "<MissionInit/>"; mission_uid := "uid";
     mission_width := 1%nat; mission_height := 2%nat;
     mission_depth := 3%nat |}.

(** A world with the given incoming messages, launch outcomes and clock
    readings, and no other failure scripted. *)
Definition sample_world (msgs : list incoming) (ls : list bool)
    (ticks : list Z) : World :=
  {| inbox := msgs; send_faults := []; connect_faults := []; launches := ls;
     bind_log := []; clock := ticks; now := 0;
     next_sample := [("pov", ObsPov (zeros 2 1 3))];
     fresh_sock := 1%nat; fresh_instance := 1%nat; trace := [] |}.

(** An initialized environment, connected through socket 0 to instance 0,
    in its first episode. *)
Definition sample_env (is_done cleaned : bool) (sd : option Z) (w : World)
    : Env :=
  {| action_space := sample_action_space;
     observation_space := sample_obs_space;
     obs_handlers := DEFAULT_OBS_HANDLERS (H := sample_platform);
     xml_file := Ok sample_mission; xml := "<MissionInit/>";
     has_init := true; exp_uid := "uid"; role := 0; agent_count := 1;
     resets := 1; synchronous := true;
     width := 1%nat; height := 2%nat; depth := 3%nat;
     client_socket := Some 0%nat; done := is_done; _seed := sd;
     had_to_clean := cleaned; instance := 0%nat; _last_pov := None;
     world := w |}.

Definition sample_action : list (string * pyval) :=
  [("camera", PyArr [SInt 0; SInt 5]); ("turn", PyInt 1)].

(** The reply to a step: reward 1.0, done unset, info sent. *)
Definition step_reply : string :=
  byte 63 +:+ byte 240 +:+ byte 0 +:+ byte 0 +:+ byte 0 +:+ byte 0 +:+ byte 0
  +:+ byte 0 +:+ byte 0 +:+ byte 1.

(** ** Further notions *)

(** The bytes of a frame, row after row. *)
Definition flatten (f : Frame) : list ascii := concat (concat f).

(** A frame of [h] rows of [w] pixels of [d] bytes. *)
Definition shaped (h w d : nat) (f : Frame) : Prop :=
  length f = h /\
  Forall (fun row => length row = w /\ Forall (fun px => length px = d) row) f.

(** A component that marshals, and the line it gives. *)
Definition marshals `{Platform} (spaces : list (string * Space))
    (av : string * pyval) (line : string) : Prop :=
  exists v', process_component spaces av.1 av.2 = Ok v' /\
             line = av.1 +:+ " " +:+ py_str v'.

(** An info payload with other stacks in its inventory. *)
Definition with_stacks (info : Info) (stacks : list Stack) : Info :=
  {| info_inventory := Some stacks; info_pov := info_pov info |}.

(** The handles of the launches that failed, the handles that were killed,
    and the number of launches, in a run of events. *)
Fixpoint failed_launches (evs : list event) : list Instance :=
  match evs with
  | [] => []
  | EvLaunch i false :: evs' => i :: failed_launches evs'
  | _ :: evs' => failed_launches evs'
  end.

Fixpoint killed (evs : list event) : list Instance :=
  match evs with
  | [] => []
  | EvKill i :: evs' => i :: killed evs'
  | _ :: evs' => killed evs'
  end.

Fixpoint launch_attempts (evs : list event) : nat :=
  match evs with
  | [] => 0
  | EvLaunch _ _ :: evs' => S (launch_attempts evs')
  | _ :: evs' => launch_attempts evs'
  end.

(** The events of [k] rounds of the mission-init handshake that were not
    acknowledged, and of the round that ends the loop. *)
Fixpoint nack_rounds (k : nat) (s : Sock) (x token : string) : list event :=
  match k with
  | O => []
  | S k' =>
      EvSend s x :: EvSend s token :: EvSleep 10 :: nack_rounds k' s x token
  end.

Definition last_round (s : Sock) (x token : string) : list event :=
  [EvSend s x; EvSend s token].


(** The [try] block of [_start_up]. *)
Definition start_up_try `{Platform} : M ObsDict :=
  sock ← gets client_socket;
  match sock with
  | None =>
      s ← connect;
      _hello (Some s);;
      modify (set_client_socket (Some s))
  | Some _ => mret tt
  end;;
  _init_mission;;
  modify (set_done false);;
  _peek_obs.

(** The requests and the greeting banner. *)
Definition peek_request : string := "<Peek/>".
Definition quit_request : string := "<Quit/>".
Definition banner `{Platform} : string := "<MalmoEnv" +:+ malmo_version +:+ "/>".

(** What [init] builds, once and for all. *)
Definition static_view (e : Env) :=
  (action_space e, observation_space e, obs_handlers e, xml_file e, xml e,
   has_init e, exp_uid e, role e, agent_count e, synchronous e,
   width e, height e, depth e).

(** The attributes of the connection and of the episode count. *)
Definition link_view (e : Env) :=
  (resets e, client_socket e, _seed e, had_to_clean e, instance e).

(** Nothing but the world, [done] and [_last_pov] changes. *)
Definition same_attrs : relation Env :=
  fun e e' => static_view e' = static_view e /\ link_view e' = link_view e.

(** The session stays what it is; the seed and the reset count too. *)
Definition same_episode : relation Env :=
  fun e e' => static_view e' = static_view e /\
              resets e' = resets e /\ _seed e' = _seed e.

(** The session stays what it is and the reset count does not go down. *)
Definition session_kept : relation Env :=
  fun e e' => static_view e' = static_view e /\ resets e <= resets e'.

(** The socket of the environment is the one it was. *)
Definition same_socket : relation Env :=
  fun e e' => client_socket e' = client_socket e.

(** The request of [step], with [STEP_OPTIONS = 0], and the events of [k]
    quit requests answered with 0. *)
Definition step_request (cmd : string) : string :=
  "<Step0>" +:+ cmd +:+ "</Step0 >".

Fixpoint quit_rounds (k : nat) (s : Sock) : list event :=
  match k with
  | O => []
  | S k' => EvSend s quit_request :: EvSleep 1 :: quit_rounds k' s
  end.


(** ** The constructor and [close] *)

(** [dict.update] on a dictionary kept as an association list: the value
    of a key that is present is replaced where it stands, a new key goes
    to the end. *)
Fixpoint dict_set {A : Type} (k : string) (v : A) (d : list (string * A))
    : list (string * A) :=
  match d with
  | [] => [(k, v)]
  | (k', v') :: d' =>
      if String.eqb k k' then (k', v) :: d' else (k', v') :: dict_set k v d'
  end.

Definition dict_update {A : Type} (d upd : list (string * A))
    : list (string * A) :=
  foldl (fun d kv => dict_set kv.1 kv.2 d) d upd.

(** The environment object: the attributes of the episode protocol, and
    the two that only the constructor, the renderer and [close] use.
    [viewer] is whether [self.viewer] is not [None]. *)
Record MineRLEnv : Type := {
  env : Env;
  viewer : bool;
  _already_closed : bool
}.

(** [__init__(xml, observation_space, action_space, obs_handlers=None)], in
    the world [w]. The mission file is given by what reading it will
    yield. [self.xml] is [None] and [self.instance] is not assigned while
    the launcher runs: the launcher reads neither. An exception leaves no
    object behind, only the world. *)
Definition __init__ `{Platform} (xml : res Mission)
    (observation_space : ObsSpace) (action_space : list (string * Space))
    (obs_handlers : option (list (string * Handler))) (w : World)
    : res MineRLEnv * World :=
  let self :=
    {| action_space := action_space;
       observation_space := observation_space;
       obs_handlers :=
         match obs_handlers with
         | Some given => dict_update DEFAULT_OBS_HANDLERS given
         | None => DEFAULT_OBS_HANDLERS
         end;
       xml_file := xml; xml := ""; has_init := false; exp_uid := "";
       role := 0; agent_count := 0; resets := 0; synchronous := true;
       width := 0%nat; height := 0%nat; depth := 0%nat;
       client_socket := None; done := true; _seed := None;
       had_to_clean := false; instance := 0%nat; _last_pov := None;
       world := w |} in
  match _robust_launch_new_instance self with
  | (Raise x, self) => (Raise x, world self)
  | (Ok i, self) =>
      let self := set_done true (set_resets 0 (set_instance i self)) in
      (Ok {| env := self; viewer := false; _already_closed := false |},
       world self)
  end.

Definition is_closed (self : MineRLEnv) : bool := _already_closed self.

(** [close()]; [running] is what [self.instance.running] reads. *)
Definition close (running : bool) (self : MineRLEnv) : MineRLEnv :=
  let self :=
    if viewer self
    then {| env := env self; viewer := false;
            _already_closed := _already_closed self |}
    else self in
  if _already_closed self then self
  else
    let e := env self in
    let e :=
      match client_socket e with
      | Some s => set_client_socket None (snd (emit (EvClose s) e))
      | None => e
      end in
    let e := if running then snd (kill (instance e) e) else e in
    {| env := e; viewer := viewer self; _already_closed := true |}.

(** The same environment with another observation space. *)
Definition with_observation_space (spaces : ObsSpace) (e : Env) : Env :=
  {| action_space := action_space e; observation_space := spaces;
     obs_handlers := obs_handlers e; xml_file := xml_file e; xml := xml e;
     has_init := has_init e; exp_uid := exp_uid e; role := role e;
     agent_count := agent_count e; resets := resets e;
     synchronous := synchronous e; width := width e; height := height e;
     depth := depth e; client_socket := client_socket e; done := done e;
     _seed := _seed e; had_to_clean := had_to_clean e;
     instance := instance e; _last_pov := _last_pov e; world := world e |}.

(** ** Sequences of calls *)

(** What a user does with an environment. An exception that a call raises
    is caught by the caller, who goes on with the same object. *)
Inductive api_call : Type :=
| CallSeed (v : option pyval)
| CallReset (fuel : nat)
| CallStep (action : list (string * pyval))
| CallClose (running : bool).

Definition with_env (e : Env) (self : MineRLEnv) : MineRLEnv :=
  {| env := e; viewer := viewer self;
     _already_closed := _already_closed self |}.

(** One call; [None] is a [reset] that is still looping when its fuel is
    spent. *)
Definition call `{Platform} (c : api_call) (self : MineRLEnv)
    : option MineRLEnv :=
  match c with
  | CallSeed v => Some (with_env (snd (seed v (env self))) self)
  | CallReset fuel =>
      match reset fuel (env self) with
      | Some (_, e) => Some (with_env e self)
      | None => None
      end
  | CallStep action => Some (with_env (snd (step action (env self))) self)
  | CallClose running => Some (close running self)
  end.

Fixpoint calls `{Platform} (cs : list api_call) (self : MineRLEnv)
    : option MineRLEnv :=
  match cs with
  | [] => Some self
  | c :: cs' =>
      match call c self with
      | Some self' => calls cs' self'
      | None => None
      end
  end.

(** The sockets that a run of events closes. *)
Fixpoint closed_in (evs : list event) : list Sock :=
  match evs with
  | [] => []
  | EvClose s :: evs' => s :: closed_in evs'
  | _ :: evs' => closed_in evs'
  end.

(** Whether every message of a run of events goes out on a socket that is
    not among [gone] and that the run has not closed before. *)
Fixpoint sends_open (gone : list Sock) (evs : list event) : bool :=
  match evs with
  | [] => true
  | EvClose s :: evs' => sends_open (s :: gone) evs'
  | EvSend s _ :: evs' =>
      negb (bool_decide (s ∈ gone)) && sends_open gone evs'
  | _ :: evs' => sends_open gone evs'
  end.

(** The handles of all the launches of a run of events. *)
Fixpoint launch_handles (evs : list event) : list Instance :=
  match evs with
  | [] => []
  | EvLaunch i _ :: evs' => i :: launch_handles evs'
  | _ :: evs' => launch_handles evs'
  end.

(** The discipline of the socket attribute: nothing was sent on a closed
    socket, the closed sockets are old ones, and the socket of the
    environment is not one of them. *)
Definition tidy (e : Env) : Prop :=
  sends_open [] (trace (world e)) = true /\
  (forall s, s ∈ closed_in (trace (world e)) ->
             (s < fresh_sock (world e))%nat) /\
  (forall s, client_socket e = Some s ->
             (s ∉ closed_in (trace (world e))) /\
             (s < fresh_sock (world e))%nat).

(** The same, with the socket of the environment named. *)
Definition holds (sock : option Sock) (e : Env) : Prop :=
  tidy e /\ client_socket e = sock.

Definition keeps (sock : option Sock) : relation Env :=
  fun e e' => holds sock e -> holds sock e'.

Definition keeps_tidy : relation Env := fun e e' => tidy e -> tidy e'.

(** [triple P m Q S]: from a state that satisfies [P], the state in which
    [m] returns satisfies [Q] and the state in which it raises satisfies
    [S]. *)
Definition triple {A : Type} (P : Env -> Prop) (m : M A)
    (Q S : Env -> Prop) : Prop :=
  forall e, P e ->
    match m e with
    | (Ok _, e') => Q e'
    | (Raise _, e') => S e'
    end.

(** An event that a method may add while the socket is [sock], and one
    that it may add when it gives the socket up. *)
Definition quiet (sock : option Sock) (ev : event) : Prop :=
  match ev with
  | EvClose _ => False
  | EvSend s _ => sock = Some s
  | _ => True
  end.

Definition parting (sock : option Sock) (ev : event) : Prop :=
  match ev with
  | EvClose s => sock = Some s
  | EvSend _ _ => False
  | _ => True
  end.

(** Every instance that was launched, other than the current one, was
    killed. *)
Definition no_stray_instance (e : Env) : Prop :=
  forall i, i ∈ launch_handles (trace (world e)) ->
            i = instance e \/ i ∈ killed (trace (world e)).

Definition keeps_instances : relation Env :=
  fun e e' => no_stray_instance e -> no_stray_instance e'.

(** * Properties *)

(** ** Marshalling of actions *)

Section MarshallingFacts.
Context `{Platform}.

Lemma py_index_nonneg {A : Type} (l : list A) (i : Z) (x : A) :
  0 <= i -> l !! Z.to_nat i = Some x -> py_index l i = Ok x.
Proof.
  intros Hi Hl. unfold py_index.
  assert (Hlt : (Z.to_nat i < length l)%nat) by (eapply lookup_lt_Some; eauto).
  destruct (i <? 0) eqn:Hneg; [lia|].
  replace (0 <=? i) with true by lia.
  replace (i <? Z.of_nat (length l)) with true by lia.
  simpl. now rewrite Hl.
Qed.

Lemma py_index_negative {A : Type} (l : list A) (i : Z) (x : A) :
  i < 0 -> 0 <= i + Z.of_nat (length l) ->
  l !! Z.to_nat (i + Z.of_nat (length l)) = Some x -> py_index l i = Ok x.
Proof.
  intros Hi Hlo Hl. unfold py_index.
  replace (i <? 0) with true by lia.
  replace (0 <=? i + Z.of_nat (length l)) with true by lia.
  replace (i + Z.of_nat (length l) <? Z.of_nat (length l)) with true by lia.
  simpl. now rewrite Hl.
Qed.

Lemma str_in_spec (s : string) (values : list string) :
  str_in s values = true <-> s ∈ values.
Proof.
  unfold str_in. rewrite existsb_exists. split.
  - intros (x & Hin & Heq). apply String.eqb_eq in Heq. subst.
    now apply list_elem_of_In.
  - intros Hin. exists s. split; [now apply list_elem_of_In|apply String.eqb_refl].
Qed.

(** The loop appends one line per component, in the order of the action. *)
Lemma process_action_loop_lines (spaces : list (string * Space))
    (action : list (string * pyval)) (lines acc : list string) :
  Forall2 (fun av line => exists v',
             process_component spaces av.1 av.2 = Ok v' /\
             line = component_line av.1 v') action lines ->
  process_action_loop spaces action acc = Ok (acc ++ lines).
Proof.
  intros Hall. revert acc.
  induction Hall as [|[act v] line action lines (v' & Hv & ->) _ IH]; intros acc.
  - simpl. now rewrite app_nil_r.
  - simpl in *. rewrite Hv, IH. now rewrite <- app_assoc.
Qed.

(** The first component that fails stops the marshalling with its error. *)
Lemma process_action_loop_raise (spaces : list (string * Space))
    (before : list (string * pyval)) (act : string) (v : pyval)
    (after : list (string * pyval)) (lines acc : list string) (e : exn) :
  Forall2 (fun av line => exists v',
             process_component spaces av.1 av.2 = Ok v' /\
             line = component_line av.1 v') before lines ->
  process_component spaces act v = Raise e ->
  process_action_loop spaces (before ++ (act, v) :: after) acc = Raise e.
Proof.
  intros Hall Hbad. revert acc.
  induction Hall as [|[a w] line action lines (v' & Hv & ->) _ IH]; intros acc.
  - simpl. now rewrite Hbad.
  - simpl in *. now rewrite Hv, IH.
Qed.

(** C7: in [_process_action], an enumerated component given as an integer
    becomes the value at that index of the ordered list of values (Python
    indexing: a negative index counts from the end), one given as a string
    is kept when it is a member of the list and fails an assertion when it
    is not, and a value that is neither an integer nor a string fails an
    assertion; when every component resolves, the command is the lines
    ["<name> <value>"] joined by newlines in the order of the action
    dictionary; and [{turn: 1}] over ["none", "left", "right"] gives
    ["turn left"]. *)
Theorem process_action_marshals (spaces : list (string * Space)) :
  (forall act values i s,
      assoc act spaces = Some (Enum values) ->
      0 <= i -> values !! Z.to_nat i = Some s ->
      process_component spaces act (PyInt i) = Ok (PyStr s)) /\
  (forall act values i s,
      assoc act spaces = Some (Enum values) ->
      i < 0 -> 0 <= i + Z.of_nat (length values) ->
      values !! Z.to_nat (i + Z.of_nat (length values)) = Some s ->
      process_component spaces act (PyInt i) = Ok (PyStr s)) /\
  (forall act values s,
      assoc act spaces = Some (Enum values) -> s ∈ values ->
      process_component spaces act (PyStr s) = Ok (PyStr s)) /\
  (forall act values s,
      assoc act spaces = Some (Enum values) -> s ∉ values ->
      exists msg,
        process_component spaces act (PyStr s) = Raise (AssertionError msg)) /\
  (forall act values v,
      assoc act spaces = Some (Enum values) ->
      (forall i, v <> PyInt i) -> (forall s, v <> PyStr s) ->
      exists msg, process_component spaces act v = Raise (AssertionError msg)) /\
  (forall action lines,
      Forall2 (fun av line => exists v',
                 process_component spaces av.1 av.2 = Ok v' /\
                 line = av.1 +:+ " " +:+ py_str v') action lines ->
      _process_action spaces action = Ok (String.concat newline lines)) /\
  _process_action turn_space [("turn", PyInt 1)] = Ok "turn left".
Proof.
  repeat split.
  - intros act values i s Hsp Hi Hl. unfold process_component.
    rewrite Hsp. now rewrite (py_index_nonneg values i s).
  - intros act values i s Hsp Hi Hlo Hl. unfold process_component.
    rewrite Hsp. now rewrite (py_index_negative values i s).
  - intros act values s Hsp Hin. unfold process_component. rewrite Hsp.
    apply str_in_spec in Hin. now rewrite Hin.
  - intros act values s Hsp Hin. unfold process_component. rewrite Hsp.
    destruct (str_in s values) eqn:Hs.
    + apply str_in_spec in Hs. contradiction.
    + eauto.
  - intros act values v Hsp Hint Hstr. unfold process_component. rewrite Hsp.
    destruct v as [i|s|r|xs]; eauto.
    + now destruct (Hint i).
    + now destruct (Hstr s).
  - intros action lines Hall. unfold _process_action.
    now rewrite (process_action_loop_lines spaces action lines []).
Qed.

End MarshallingFacts.

Lemma process_action_marshals_witness :
  process_component (H := sample_platform) turn_space "turn" (PyInt 1)
    = Ok (PyStr "left") /\
  process_component (H := sample_platform) turn_space "turn" (PyInt (-1))
    = Ok (PyStr "right") /\
  process_component (H := sample_platform) turn_space "turn" (PyStr "left")
    = Ok (PyStr "left") /\
  (exists msg,
      process_component (H := sample_platform) turn_space "turn" (PyStr "up")
        = Raise (AssertionError msg)) /\
  (exists msg,
      process_component (H := sample_platform) turn_space "turn" (PyFloat "1.0")
        = Raise (AssertionError msg)) /\
  _process_action (H := sample_platform) sample_action_space
      [("camera", PyArr [SInt 0; SInt 5]); ("turn", PyInt 1)]
    = Ok (String.concat newline ["camera 0 5"; "turn left"]).
Proof.
  destruct (process_action_marshals (H := sample_platform) turn_space)
    as (Hint & Hneg & Hmem & Hnot & Hother & _ & _).
  destruct (process_action_marshals (H := sample_platform) sample_action_space)
    as (_ & _ & _ & _ & _ & Hjoin & _).
  split; [|split; [|split; [|split; [|split]]]].
  - apply (Hint "turn" ["none"; "left"; "right"] 1 "left");
      [reflexivity | lia | reflexivity].
  - apply (Hneg "turn" ["none"; "left"; "right"] (-1) "right");
      [reflexivity | lia | simpl; lia | reflexivity].
  - apply (Hmem "turn" ["none"; "left"; "right"] "left"); [reflexivity|].
    apply list_elem_of_In. simpl. auto.
  - apply (Hnot "turn" ["none"; "left"; "right"] "up"); [reflexivity|].
    intros Hin. apply list_elem_of_In in Hin. simpl in Hin.
    repeat destruct Hin as [Hin|Hin]; try discriminate Hin; exact Hin.
  - apply (Hother "turn" ["none"; "left"; "right"] (PyFloat "1.0"));
      [reflexivity | discriminate | discriminate].
  - apply (Hjoin [("camera", PyArr [SInt 0; SInt 5]); ("turn", PyInt 1)]
             ["camera 0 5"; "turn left"]).
    repeat constructor.
    + exists (PyStr "0 5"). split; reflexivity.
    + exists (PyStr "left"). split; reflexivity.
Defined.

(** ** The inventory handler *)

Lemma alias_eqb (t : string) :
  (if String.eqb t "log2" then "log" else t) = alias t.
Proof. reflexivity. Qed.

Lemma zero_inventory_lookup (names : list string) (k : string) :
  zero_inventory names !! k = if decide (k ∈ names) then Some 0 else None.
Proof.
  unfold zero_inventory. induction names as [|n names IH];
    [simpl | cbn [map]; rewrite list_to_map_cons].
  - rewrite lookup_empty. destruct (decide (k ∈ [])) as [Hin|]; [|reflexivity].
    now apply elem_of_nil in Hin.
  - destruct (decide (n = k)) as [->|Hne].
    + rewrite lookup_insert_eq.
      destruct (decide (k ∈ k :: names)) as [|Hn]; [reflexivity|].
      destruct Hn. apply list_elem_of_here.
    + rewrite lookup_insert_ne by exact Hne. rewrite IH.
      destruct (decide (k ∈ names)) as [Hin|Hin];
        destruct (decide (k ∈ n :: names)) as [Hin'|Hin']; try reflexivity.
      * destruct Hin'. now apply list_elem_of_further.
      * apply elem_of_cons in Hin' as [->|Hin']; [now destruct Hne|contradiction].
Qed.

(** One stack adds its quantity to its own item, if declared, and leaves
    every other entry alone. *)
Lemma add_stack_lookup (d : gmap string Z) (stack : Stack) (k : string) :
  add_stack d stack !! k = (fun n => n + stack_quantity_for k stack) <$> d !! k.
Proof.
  unfold add_stack, stack_quantity_for.
  destruct (stack_type stack) as [t|], (stack_quantity stack) as [q|];
    try (destruct (d !! k); simpl; f_equal; lia).
  rewrite alias_eqb.
  destruct (decide (alias t = k)) as [<-|Hne].
  - destruct (d !! alias t) as [n|] eqn:Hd; simpl.
    + now rewrite lookup_insert_eq.
    + now rewrite Hd.
  - destruct (d !! alias t) as [n|] eqn:Hd.
    + rewrite lookup_insert_ne by exact Hne.
      destruct (d !! k); simpl; f_equal; lia.
    + destruct (d !! k); simpl; f_equal; lia.
Qed.

Lemma foldl_add_stack_lookup (stacks : list Stack) (d : gmap string Z)
    (k : string) :
  foldl add_stack d stacks !! k = (fun n => n + inventory_sum k stacks) <$> d !! k.
Proof.
  revert d. induction stacks as [|stack stacks IH]; intros d; simpl.
  - destruct (d !! k); simpl; f_equal; lia.
  - rewrite IH, add_stack_lookup.
    destruct (d !! k); simpl; f_equal; lia.
Qed.

(** C8: for an observation space whose ['inventory'] entry declares the
    item names [names], [inventory_observation] returns a dictionary that
    maps every declared name to the sum of the quantities of the stacks of
    the info payload whose type, with 'log2' read as 'log', is that name,
    and that has no entry for any other name; declared items [log, dirt]
    with stacks [log2 x 3, dirt x 5] give [{log: 3, dirt: 5}]. *)
Theorem inventory_observation_sums (info : Info) (obs_space : ObsSpace)
    (names : list string) :
  assoc "inventory" obs_space = Some (Dict names) ->
  exists d,
    inventory_observation info obs_space = Ok (ObsInventory d) /\
    (forall k, k ∈ names -> d !! k = Some (inventory_sum k (info_stacks info))) /\
    (forall k, k ∉ names -> d !! k = None) /\
    (obs_space = sample_obs_space -> info = sample_info ->
     d = {[ "log" := 3; "dirt" := 5 ]}).
Proof.
  intros Hsp.
  assert (Hd : exists d,
    inventory_observation_dict info obs_space = Ok d /\
    forall k, d !! k = (fun n => n + inventory_sum k (info_stacks info))
                        <$> zero_inventory names !! k).
  { unfold inventory_observation_dict, info_stacks. rewrite Hsp.
    destruct (info_inventory info) as [stacks|]; simpl.
    - eexists. split; [reflexivity|]. intros k. apply foldl_add_stack_lookup.
    - eexists. split; [reflexivity|]. intros k.
      destruct (zero_inventory names !! k); simpl; f_equal; lia. }
  destruct Hd as (d & Hd & Hlook). exists d.
  split; [|split; [|split]].
  - unfold inventory_observation. now rewrite Hd.
  - intros k Hin. rewrite Hlook, zero_inventory_lookup.
    destruct (decide (k ∈ names)); [reflexivity|contradiction].
  - intros k Hin. rewrite Hlook, zero_inventory_lookup.
    destruct (decide (k ∈ names)); [contradiction|reflexivity].
  - intros -> ->. vm_compute in Hd. injection Hd as <-. now vm_compute.
Qed.

Lemma inventory_observation_sums_witness :
  exists d,
    inventory_observation sample_info sample_obs_space = Ok (ObsInventory d) /\
    d !! "log" = Some 3 /\ d !! "dirt" = Some 5 /\ d !! "stone" = None /\
    d = {[ "log" := 3; "dirt" := 5 ]}.
Proof.
  destruct (inventory_observation_sums sample_info sample_obs_space
              ["log"; "dirt"] eq_refl) as (d & Hd & Hin & Hout & Hex).
  exists d. split; [exact Hd|]. split; [|split; [|split]].
  - apply (Hin "log"). apply list_elem_of_In. simpl. auto.
  - apply (Hin "dirt"). apply list_elem_of_In. simpl. auto.
  - apply (Hout "stone"). intros Hm. apply list_elem_of_In in Hm. simpl in Hm.
    repeat destruct Hm as [Hm|Hm]; try discriminate Hm; exact Hm.
  - apply Hex; reflexivity.
Defined.

(** ** The recovery procedure *)


Lemma robust_launch_loop_spec (tries : nat) (e : Env) :
  exists w',
    robust_launch_loop tries e =
      (if launch_succeeds tries (launches (world e))
       then Ok (relaunch_handle tries (fresh_instance (world e))
                  (launches (world e)))
       else Raise launch_failure,
       set_world w' e) /\
    trace w' = trace (world e) ++
               relaunch_events tries (fresh_instance (world e))
                 (launches (world e)) /\
    next_sample w' = next_sample (world e).
Proof.
  revert e. induction tries as [|tries IH]; intros e.
  - exists (world e). simpl. unfold raise. destruct e; simpl.
    rewrite app_nil_r. auto.
  - simpl. unfold mbind at 1. unfold M_bind.
    unfold _attempt_launch_new_instance.
    unfold mbind at 1. unfold M_bind. unfold get_and_launch.
    destruct (launches (world e)) as [|[|] l] eqn:Hl.
    + eexists. split; [reflexivity|]. simpl. auto.
    + eexists. split; [reflexivity|]. simpl. auto.
    + simpl. unfold mbind at 1. unfold M_bind. simpl.
      match goal with |- context [robust_launch_loop tries ?e1] =>
        destruct (IH e1) as (w' & Hrun & Htr & Hs) end.
      rewrite Hrun. simpl. exists w'. split; [reflexivity|].
      simpl in *. rewrite Htr. rewrite <- !app_assoc. simpl. auto.
Qed.

Lemma relaunch_handle_ge (tries : nat) (i : Instance) (l : list bool) :
  (i <= relaunch_handle tries i l)%nat.
Proof.
  revert i l. induction tries as [|tries IH]; intros i l; simpl; [lia|].
  destruct l as [|[|] l]; try lia. specialize (IH (S i) l). lia.
Qed.


Lemma relaunch_events_launched (tries : nat) (i : Instance) (l : list bool) :
  launched (relaunch_events tries i l) =
    if launch_succeeds tries l then [relaunch_handle tries i l] else [].
Proof.
  revert i l. induction tries as [|tries IH]; intros i l; [reflexivity|].
  simpl. destruct l as [|[|] l]; try reflexivity. simpl. apply IH.
Qed.




(** First stage: only the socket goes. *)
Lemma clean_connection_first (e : Env) :
  had_to_clean e = false ->
  exists w',
    _clean_connection e =
      (Ok tt, set_had_to_clean true (set_client_socket None (set_world w' e))) /\
    trace w' = trace (world e) ++ close_events (client_socket e) /\
    launches w' = launches (world e) /\
    fresh_instance w' = fresh_instance (world e) /\
    next_sample w' = next_sample (world e).
Proof.
  intros Hc. unfold _clean_connection.
  unfold mbind, M_bind, gets, modify, mret, M_ret, emit.
  destruct e as [? ? ? ? ? ? ? ? ? ? ? ? ? ? sock ? ? cleaned ? ? w]; simpl in *.
  subst cleaned. destruct sock as [s|]; simpl.
  - eexists. split; [reflexivity|]. simpl. rewrite <- app_assoc. auto.
  - exists w. split; [destruct w; reflexivity|]. now rewrite app_nil_r.
Qed.

(** Second stage: the instance is killed and replaced, or the launcher
    gives up. *)
Lemma clean_connection_second (e : Env) :
  had_to_clean e = true ->
  exists w',
    _clean_connection e =
      (if launch_succeeds 3 (launches (world e))
       then (Ok tt,
             set_had_to_clean false
               (set_instance
                  (relaunch_handle 3 (fresh_instance (world e))
                     (launches (world e)))
                  (set_client_socket None (set_world w' e))))
       else (Raise launch_failure,
             set_client_socket None (set_world w' e))) /\
    trace w' = trace (world e) ++ close_events (client_socket e)
               ++ EvKill (instance e)
               :: relaunch_events 3 (fresh_instance (world e))
                    (launches (world e)) /\
    next_sample w' = next_sample (world e).
Proof.
  intros Hc. unfold _clean_connection, _robust_launch_new_instance.
  destruct e as [? ? ? ? ? ? ? ? ? ? ? ? ? ? sock ? ? cleaned inst ? w].
  simpl in Hc. subst cleaned.
  unfold mbind, M_bind, gets, modify, mret, M_ret, kill, emit.
  destruct sock as [s|]; cbn -[robust_launch_loop launch_succeeds
                               relaunch_handle relaunch_events].
  - match goal with |- context [robust_launch_loop 3 ?e1] =>
      destruct (robust_launch_loop_spec 3 e1) as (w' & Hrun & Htr & Hs) end.
    rewrite Hrun. cbn -[launch_succeeds relaunch_handle relaunch_events] in *.
    exists w'. split.
    + destruct (launch_succeeds 3 (launches w)); reflexivity.
    + rewrite Htr, Hs, <- !app_assoc. auto.
  - match goal with |- context [robust_launch_loop 3 ?e1] =>
      destruct (robust_launch_loop_spec 3 e1) as (w' & Hrun & Htr & Hs) end.
    rewrite Hrun. cbn -[launch_succeeds relaunch_handle relaunch_events] in *.
    exists w'. split.
    + destruct (launch_succeeds 3 (launches w)); reflexivity.
    + rewrite Htr, Hs, <- !app_assoc. auto.
Qed.





(** ** What a method leaves alone *)

Section Frames.
Context (R : relation Env) `{!PreOrder R}.

Lemma frame_ret {A : Type} (a : A) : frame R (mret a).
Proof. intros e. reflexivity. Qed.

Lemma frame_raise {A : Type} (x : exn) : frame R (@raise A x).
Proof. intros e. reflexivity. Qed.

Lemma frame_lift {A : Type} (r : res A) : frame R (lift r).
Proof. intros e. reflexivity. Qed.

Lemma frame_gets {A : Type} (f : Env -> A) : frame R (gets f).
Proof. intros e. reflexivity. Qed.

Lemma frame_modify (f : Env -> Env) : (forall e, R e (f e)) -> frame R (modify f).
Proof. intros Hf e. apply Hf. Qed.

Lemma frame_bind {A B : Type} (m : M A) (f : A -> M B) :
  frame R m -> (forall a, frame R (f a)) -> frame R (m ≫= f).
Proof.
  intros Hm Hf e. unfold mbind, M_bind. specialize (Hm e).
  destruct (m e) as [[a|x] e1]; simpl in *; [|exact Hm].
  transitivity e1; [exact Hm|apply Hf].
Qed.

Lemma frame_try_except {A : Type} (body : M A) (handler : exn -> option (M A)) :
  frame R body -> (forall x h, handler x = Some h -> frame R h) ->
  frame R (try_except body handler).
Proof.
  intros Hb Hh e. unfold try_except. specialize (Hb e).
  destruct (body e) as [[a|x] e1]; simpl in *; [exact Hb|].
  destruct (handler x) as [h|] eqn:Hx; [|exact Hb].
  transitivity e1; [exact Hb|]. now apply (Hh x h).
Qed.

End Frames.

Lemma frame_weaken {A : Type} (R R' : relation Env) (m : M A) :
  (forall e e', R e e' -> R' e e') -> frame R m -> frame R' m.
Proof. intros Hsub Hm e. apply Hsub, Hm. Qed.



#[global] Instance same_recovery_preorder : PreOrder same_recovery.
Proof.
  split.
  - intros e. reflexivity.
  - intros e1 e2 e3 H12 H23. unfold same_recovery in *. congruence.
Qed.

#[global] Instance same_session_preorder : PreOrder same_session.
Proof.
  split.
  - intros e. split; reflexivity.
  - intros e1 e2 e3 [H12 D12] [H23 D23]. split; congruence.
Qed.

Lemma session_recovery {A : Type} (m : M A) :
  frame same_session m -> frame same_recovery m.
Proof. apply frame_weaken. now intros e e' [Hv _]. Qed.

Ltac frame_prim :=
  let e := fresh "e" in
  intros e; destruct e as [? ? ? ? ? ? ? ? ? ? ? ? ? ? ? ? ? ? ? ? []];
  repeat match goal with
         | |- context [match ?x with _ => _ end] => destruct x
         end;
  repeat split.

Lemma send_message_session (sock : option Sock) (data : string) :
  frame same_session (send_message sock data).
Proof. unfold send_message. frame_prim. Qed.

Lemma recv_message_session (sock : option Sock) :
  frame same_session (recv_message sock).
Proof. unfold recv_message. frame_prim. Qed.

Lemma time_time_session : frame same_session time_time.
Proof. unfold time_time. frame_prim. Qed.

Lemma emit_session (ev : event) : frame same_session (emit ev).
Proof. unfold emit. frame_prim. Qed.

Lemma set_last_pov_session (f : Frame) :
  frame same_session (modify (set_last_pov f)).
Proof. apply frame_modify. intros e. split; reflexivity. Qed.

Lemma set_done_recovery (b : bool) : frame same_recovery (modify (set_done b)).
Proof. apply frame_modify. intros e. reflexivity. Qed.

Create HintDb frames.
#[global] Hint Resolve send_message_session recv_message_session
  time_time_session emit_session set_last_pov_session set_done_recovery
  : frames.
#[global] Hint Resolve session_recovery | 5 : frames.

(** Frames of compound methods, by following their structure. *)
Ltac frame_auto :=
  repeat first
    [ match goal with |- PreOrder _ => apply _ end
    | apply frame_ret
    | apply frame_raise
    | apply frame_lift
    | apply frame_gets
    | apply frame_bind; [.. | intros ?]
    | match goal with
      | |- frame _ (match ?x with _ => _ end) => destruct x
      end
    | solve [auto 3 with frames] ].

Section ObservationFrames.
Context `{Platform}.

Lemma decode_session (b : string) : frame same_session (decode b).
Proof. unfold decode. frame_auto. Qed.

Lemma process_observation_session (pov info : option string) :
  frame same_session (_process_observation pov info).
Proof. unfold _process_observation. frame_auto. Qed.

End ObservationFrames.

#[global] Hint Resolve decode_session process_observation_session : frames.

Section StepFacts.
Context `{Platform}.



Lemma returns_bind {A B : Type} (Q : B -> Prop) (m : M A) (f : A -> M B) :
  (forall a, returns Q (f a)) -> returns Q (m ≫= f).
Proof.
  intros Hf e b e'. unfold mbind, M_bind.
  destruct (m e) as [[a|x] e1]; [apply Hf|discriminate].
Qed.

Lemma returns_ret {A : Type} (Q : A -> Prop) (a : A) : Q a -> returns Q (mret a).
Proof. intros Ha e a' e' Heq. injection Heq as <- _. exact Ha. Qed.

Lemma returns_raise {A : Type} (Q : A -> Prop) (x : exn) : returns Q (raise x).
Proof. intros e a e' Heq. discriminate Heq. Qed.

(** What the [try] block of [step] returns carries the empty info map. *)
Lemma step_exchange_info (cmd : string) :
  returns (fun t : StepResult => t.2 = ∅) (step_exchange cmd).
Proof.
  unfold step_exchange.
  apply returns_bind. intros d. destruct (negb d); [|apply returns_raise].
  do 6 (apply returns_bind; intros ?).
  apply returns_bind. intros [[rew done'] sent].
  do 4 (apply returns_bind; intros ?).
  now apply returns_ret.
Qed.

Lemma step_unfold (e : Env) (action : list (string * pyval)) (cmd : string) :
  _process_action (action_space e) action = Ok cmd ->
  step action e =
    match step_exchange cmd e with
    | (Ok t, e1) => (Ok t, e1)
    | (Raise x, e1) =>
        if is_socket_exn x then step_recover e1 else (Raise x, e1)
    end.
Proof.
  intros Hcmd. unfold step, try_except.
  unfold mbind at 1. unfold M_bind at 1. unfold gets at 1.
  unfold mbind at 1. unfold M_bind at 1. unfold lift at 1. rewrite Hcmd.
  destruct (step_exchange cmd e) as [[t|x] e1]; [reflexivity|].
  now destruct (is_socket_exn x).
Qed.

Lemma step_recover_unfold (e1 : Env) :
  step_recover e1 =
    match _clean_connection e1 with
    | (Ok _, e2) =>
        (Ok (next_sample (world e2), RewardInt 0, true, error_info),
         set_done true e2)
    | (Raise y, e2) => (Raise y, e2)
    end.
Proof.
  unfold step_recover. unfold mbind at 1. unfold M_bind at 1.
  destruct (_clean_connection e1) as [[[]|y] e2]; reflexivity.
Qed.


(** C5: when the action marshals, [step] on an environment whose [done]
    flag is set raises the finished-episode [RuntimeError] and leaves the
    environment and the world as they were: no message is sent. *)
Theorem step_done_raises (e : Env) (action : list (string * pyval))
    (cmd : string) :
  _process_action (action_space e) action = Ok cmd ->
  done e = true ->
  step action e = (Raise finished_episode, e) /\
  trace (world (step action e).2) = trace (world e).
Proof.
  intros Hcmd Hdone.
  assert (Hstep : step action e = (Raise finished_episode, e)).
  { rewrite (step_unfold e action cmd Hcmd). unfold step_exchange.
    unfold mbind, M_bind, gets, raise. now rewrite Hdone. }
  now rewrite Hstep.
Qed.

(** C10: a tuple that [step] returns is either the one its [try] block
    returned, and then its info map is empty, or the degraded one of the
    [except] clause, after a socket exception: the JSON info payload of the
    remote never comes back as the info of the step. *)
Theorem step_info_empty (e e' : Env) (action : list (string * pyval))
    (o : ObsDict) (r : reward) (d : bool) (i : gmap string string) :
  step action e = (Ok (o, r, d, i), e') ->
  exists cmd,
    _process_action (action_space e) action = Ok cmd /\
    ((step_exchange cmd e = (Ok (o, r, d, i), e') /\ i = ∅) \/
     (exists x e1,
         step_exchange cmd e = (Raise x, e1) /\ is_socket_exn x = true /\
         i = error_info /\ r = RewardInt 0 /\ d = true)).
Proof.
  intros Hstep.
  destruct (_process_action (action_space e) action) as [cmd|x] eqn:Hcmd.
  - exists cmd. split; [reflexivity|].
    rewrite (step_unfold e action cmd Hcmd) in Hstep.
    destruct (step_exchange cmd e) as [[t|x] e1] eqn:Hex.
    + left. injection Hstep as -> ->. split; [reflexivity|].
      apply (step_exchange_info cmd e _ _ Hex).
    + right. exists x, e1. destruct (is_socket_exn x); [|discriminate].
      rewrite step_recover_unfold in Hstep.
      destruct (_clean_connection e1) as [[[]|y] e2]; [|discriminate].
      injection Hstep as _ <- <- <- _. auto.
  - unfold step in Hstep. unfold mbind at 1 in Hstep. unfold M_bind at 1 in Hstep.
    unfold gets at 1 in Hstep. unfold mbind at 1 in Hstep.
    unfold M_bind at 1 in Hstep. unfold lift in Hstep. rewrite Hcmd in Hstep.
    discriminate.
Qed.


End StepFacts.

(** ** Steps on sample environments *)

Lemma step_done_raises_witness :
  let e := sample_env true false None (sample_world [Msg "late"] [] []) in
  step (H := sample_platform) sample_action e = (Raise finished_episode, e) /\
  trace (world (step (H := sample_platform) sample_action e).2) = [].
Proof.
  intros e.
  apply (step_done_raises (H := sample_platform) e sample_action
           (String.concat newline ["camera 0 5"; "turn left"]));
    reflexivity.
Defined.



Lemma step_info_empty_witness :
  let e := sample_env false false None
             (sample_world [Msg "abcdef"; Msg step_reply; Msg "{}"] [] []) in
  exists o r d i e',
    step (H := sample_platform) sample_action e = (Ok (o, r, d, i), e') /\
    r = RewardDouble (String.substring 0 8 step_reply) /\ i = ∅.
Proof.
  intros e.
  destruct (step (H := sample_platform) sample_action e)
    as [[[[[o r] d] i]|x] e'] eqn:Hstep; [|vm_compute in Hstep; discriminate].
  exists o, r, d, i, e'. split; [reflexivity|].
  destruct (step_info_empty (H := sample_platform) e e' sample_action o r d i Hstep)
    as (cmd & Hcmd & [[Hex Hi]|(x & e1 & Hex & _)]).
  - split; [|exact Hi]. vm_compute in Hstep. now injection Hstep as _ <- _ _ _.
  - vm_compute in Hcmd. injection Hcmd as <-. vm_compute in Hex. discriminate.
Defined.

(** ** The session token *)

Lemma append_assoc (a b c : string) : (a +:+ b) +:+ c = a +:+ b +:+ c.
Proof.
  induction a as [|ch a IH]; [reflexivity|].
  change (String ch ((a +:+ b) +:+ c) = String ch (a +:+ b +:+ c)).
  now rewrite IH.
Qed.

Lemma append_empty_r (a : string) : a +:+ "" = a.
Proof.
  induction a as [|ch a IH]; [reflexivity|].
  change (String ch (a +:+ "") = String ch a). now rewrite IH.
Qed.

Lemma mission_token_flat (e : Env) : mission_token e = init_token e.
Proof.
  unfold mission_token, init_token, _get_token, str_bool_lower.
  destruct (_seed e) as [z|]; rewrite ?append_assoc, ?append_empty_r;
    repeat (rewrite ?append_assoc; f_equal).
Qed.

Lemma init_mission_loop_unfold (remaining : nat) :
  init_mission_loop remaining =
    (x ← gets xml;
     token ← gets mission_token;
     sock ← gets client_socket;
     send_message sock x;;
     send_message sock token;;
     reply ← recv_message sock;
     ok ← lift (unpack_I reply);
     if ok =? 1 then mret tt
     else
       match remaining with
       | O => raise socket_timeout
       | S remaining' =>
           bind_exception ← log_shows_bind_exception;
           if bind_exception : bool then
             modify (set_had_to_clean true);;
             raise (RuntimeError "Port is unusable")
           else
             sleep 10;;
             init_mission_loop remaining'
       end).
Proof. destruct remaining; reflexivity. Qed.

Lemma init_mission_loop_events (remaining : nat) (e : Env) (s : Sock) :
  client_socket e = Some s ->
  exists evs,
    trace (world (init_mission_loop remaining e).2) = trace (world e) ++ evs /\
    Forall (init_event s (xml e) (mission_token e)) evs /\
    (sends_ok 2 (world e) = true ->
     exists rest, evs = EvSend s (xml e) :: EvSend s (mission_token e) :: rest).
Proof.
  revert e. induction remaining as [|remaining IH]; intros e Hs.
  all: rewrite init_mission_loop_unfold.
  all: destruct e as [? ? ? ? x ? ? ? ? ? ? ? ? ? sock ? ? ? ? ?
                        [inb sf ? ? bl ? ? ? ? ? tr]].
  all: simpl in Hs; subst sock.
  all: unfold mbind, M_bind, gets, send_message, recv_message, lift, raise,
         mret, M_ret, log_shows_bind_exception, modify, sleep, emit, sends_ok.
  all: cbn -[init_mission_loop mission_token unpack_I].
  all: set (tok := mission_token _).
  all: destruct sf as [|[f1|] [|[f2|] sf]];
         cbn -[init_mission_loop mission_token unpack_I].
  all: try (exists []; rewrite app_nil_r; split; [reflexivity|];
            split; [constructor|discriminate]).
  all: try (exists [EvSend s x]; split; [reflexivity|];
            split; [repeat constructor|discriminate]).
  all: destruct inb as [|[data|f] inb];
         cbn -[init_mission_loop mission_token unpack_I].
  all: try destruct (unpack_I data) as [ok|];
         cbn -[init_mission_loop mission_token unpack_I].
  all: try destruct (ok =? 1); cbn -[init_mission_loop mission_token unpack_I].
  all: try (destruct bl as [|[|] bl];
            cbn -[init_mission_loop mission_token unpack_I]).
  all: try (exists [EvSend s x; EvSend s tok];
            split; [now rewrite <- app_assoc|];
            split; [repeat constructor; unfold init_event; auto|];
            intros _; exists []; reflexivity).
  all: match goal with
       | |- context [init_mission_loop _ ?e1] =>
           destruct (IH e1 eq_refl) as (evs1 & Htr & Hall & _)
       end.
  all: exists ([EvSend s x; EvSend s tok; EvSleep 10] ++ evs1).
  all: (split; [rewrite Htr; cbn [trace world set_world];
                now rewrite <- !app_assoc|]).
  all: (split; [|intros _; eexists; reflexivity]).
  all: repeat (apply Forall_cons; split; [unfold init_event; auto|]).
  all: exact Hall.
Qed.

(** C4, as amended: [_get_token] is [exp_uid:role:resets] and never
    carries the seed; the token that the mission-init handshake sends is
    [exp_uid:role:resets:agent_count:synchronous], with [synchronous] in
    lower case, followed by [:seed] exactly when a seed is set. Every
    message that [_init_mission] sends is the descriptor or that token, and
    when its first two sends go through they are the descriptor and then
    the token. *)
Theorem mission_token_shape (e : Env) (s : Sock) :
  client_socket e = Some s ->
  _get_token e =
    exp_uid e +:+ ":" +:+ pretty (role e) +:+ ":" +:+ pretty (resets e) /\
  mission_token e = init_token e /\
  exists evs,
    trace (world (_init_mission e).2) = trace (world e) ++ evs /\
    Forall (init_event s (xml e) (init_token e)) evs /\
    (sends_ok 2 (world e) = true ->
     exists rest, evs = EvSend s (xml e) :: EvSend s (init_token e) :: rest).
Proof.
  intros Hs. split; [reflexivity|]. split; [apply mission_token_flat|].
  rewrite <- mission_token_flat. now apply init_mission_loop_events.
Qed.

Lemma mission_token_shape_witness :
  let e := sample_env false false (Some 42)
             (sample_world [Msg (ack 1)] [] []) in
  _get_token e = "uid:0:1" /\
  mission_token e = "uid:0:1:1:true:42" /\
  trace (world (_init_mission e).2) =
    [EvSend 0%nat "<MissionInit/>"; EvSend 0%nat "uid:0:1:1:true:42"].
Proof.
  intros e.
  destruct (mission_token_shape e 0%nat eq_refl) as (Hget & Htok & evs & Htr & _ & Hsent).
  split; [exact Hget|]. split; [exact Htok|].
  destruct (Hsent eq_refl) as (rest & ->). rewrite Htr.
  assert (Hlen : length (trace (world (_init_mission e).2)) = 2%nat) by reflexivity.
  rewrite Htr in Hlen. destruct rest; [reflexivity|discriminate Hlen].
Defined.

(** With a seed set, the token of the mission-init handshake is not
    [exp_uid:role:resets:seed], and [_get_token] has no seed at all. *)
Lemma mission_token_counterexample :
  let e := sample_env false false (Some 42)
             (sample_world [Msg (ack 1)] [] []) in
  claimed_token e = "uid:0:1:42" /\
  _get_token e = "uid:0:1" /\
  trace (world (_init_mission e).2) =
    [EvSend 0%nat "<MissionInit/>"; EvSend 0%nat "uid:0:1:1:true:42"] /\
  _get_token e <> claimed_token e /\
  EvSend 0%nat (claimed_token e) ∉ trace (world (_init_mission e).2).
Proof.
  intros e. split; [reflexivity|]. split; [reflexivity|].
  split; [reflexivity|]. split; [discriminate|].
  intros Hin. apply list_elem_of_In in Hin. vm_compute in Hin.
  repeat destruct Hin as [Hin|Hin]; try discriminate Hin; exact Hin.
Qed.

(** ** The initial peek *)

#[global] Instance same_world_preorder : PreOrder same_world.
Proof.
  split.
  - intros e. reflexivity.
  - intros e1 e2 e3 H12 H23. unfold same_world in *. congruence.
Qed.

Lemma set_last_pov_world (f : Frame) :
  frame same_world (modify (set_last_pov f)).
Proof. apply frame_modify. intros e. reflexivity. Qed.

Lemma sleep_session (tenths : Z) : frame same_session (sleep tenths).
Proof. apply emit_session. Qed.

Lemma set_client_socket_recovery (sock : option Sock) :
  frame same_recovery (modify (set_client_socket sock)).
Proof. apply frame_modify. intros e. reflexivity. Qed.

#[global] Hint Resolve set_last_pov_world sleep_session
  set_client_socket_recovery : frames.

Section PeekFacts.
Context `{Platform}.



(** Building the observation does nothing to the outside. *)
Lemma process_observation_world (pov info : option string) :
  frame same_world (_process_observation pov info).
Proof. unfold _process_observation. frame_auto. Qed.

(** C3: when the initial peek receives an empty pixel buffer, a completion
    flag other than 1, and no more than [MAX_WAIT] seconds have elapsed,
    [_peek_obs] sleeps once and goes on to build the observation from the
    empty buffer: one [<Peek/>] is sent, the request is not issued again,
    and the messages that follow stay unread. *)
Theorem peek_empty_buffer_once (e : Env) (s : Sock) (info reply : string)
    (flag : Z) (rest : list incoming) :
  done e = false ->
  client_socket e = Some s ->
  next_send_ok (world e) = true ->
  inbox (world e) = Msg "" :: Msg info :: Msg reply :: rest ->
  utf8_ok info = true ->
  unpack_b reply = Ok flag -> flag <> 1 ->
  peek_elapsed (world e) <= MAX_WAIT ->
  (exists e1,
      _peek_obs e = _process_observation (Some "") (Some info) e1 /\
      done e1 = false) /\
  trace (world (_peek_obs e).2) =
    trace (world e) ++ [EvSend s "<Peek/>"; EvSleep 1] /\
  inbox (world (_peek_obs e).2) = rest.
Proof.
  intros Hdone Hsock Hsend Hin Hutf Hflag Hne Hle.
  assert (Hrun : exists e1,
    _peek_obs e = _process_observation (Some "") (Some info) e1 /\
    done e1 = false /\
    trace (world e1) = trace (world e) ++ [EvSend s "<Peek/>"; EvSleep 1] /\
    inbox (world e1) = rest).
  { destruct e as [? ? ? ? ? ? ? ? ? ? ? ? ? ? sock d ? ? ? ?
                     [inb sf ? ? ? ck nw ? ? ? tr]].
    simpl in Hdone, Hsock, Hin. subst d sock inb.
    assert (Hflag' : (flag =? 1) = false) by lia.
    unfold _peek_obs, decode, mbind, M_bind, gets, time_time, send_message,
      recv_message, lift, raise, mret, M_ret, modify, sleep, emit,
      next_send_ok, peek_elapsed in *;
    cbn -[_process_observation Z.sub Z.gtb MAX_WAIT unpack_b] in *.
    destruct ck as [|t0 [|t1 ck]], sf as [|[f|] sf];
      try discriminate Hsend;
      cbn -[_process_observation Z.sub Z.gtb MAX_WAIT unpack_b] in *;
      rewrite Hutf;
      cbn -[_process_observation Z.sub Z.gtb MAX_WAIT unpack_b] in *;
      rewrite Hflag;
      cbn -[_process_observation Z.sub Z.gtb MAX_WAIT unpack_b] in *;
      rewrite ?Z.sub_diag, ?Hflag';
      cbn -[_process_observation Z.sub Z.gtb MAX_WAIT unpack_b] in *.
    all: try (destruct (t1 - t0 >? MAX_WAIT) eqn:Hgt; [lia|];
              rewrite ?Hflag';
              cbn -[_process_observation Z.sub Z.gtb MAX_WAIT unpack_b]).
    all: eexists; split; [reflexivity|];
         cbn; rewrite ?Hflag', <- ?app_assoc; auto. }
  destruct Hrun as (e1 & Hrun & Hd1 & Htr & Hin1).
  split; [eauto|].
  pose proof (process_observation_world (Some "") (Some info) e1) as Hw.
  unfold same_world in Hw. rewrite Hrun, Hw. auto.
Qed.





End PeekFacts.

Lemma peek_empty_buffer_once_witness :
  let e := sample_env false false None
             (sample_world [Msg ""; Msg "{}"; Msg flag_unset; Msg "abcdef"]
                [] [0; 1]) in
  (_peek_obs (H := sample_platform) e).1 =
    Ok [("pov", ObsPov (zeros 2 1 3));
        ("inventory", ObsInventory (zero_inventory ["log"; "dirt"]))] /\
  trace (world (_peek_obs (H := sample_platform) e).2) =
    [EvSend 0%nat "<Peek/>"; EvSleep 1] /\
  inbox (world (_peek_obs (H := sample_platform) e).2) = [Msg "abcdef"].
Proof.
  intros e. split; [vm_compute; reflexivity|].
  destruct (peek_empty_buffer_once (H := sample_platform) e 0%nat "{}"
              flag_unset 0 [Msg "abcdef"]) as (_ & Htr & Hin);
    try reflexivity; [discriminate | vm_compute; discriminate |].
  split; [exact Htr | exact Hin].
Defined.

(** ** Reset *)

(** An acknowledged quit has read one message. *)
Lemma quit_episode_reads (e e' : Env) (ok : bool) :
  _quit_episode e = (Ok ok, e') ->
  (length (inbox (world e')) < length (inbox (world e)))%nat.
Proof.
  destruct e as [? ? ? ? ? ? ? ? ? ? ? ? ? ? sock ? ? ? ? ?
                   [inb sf ? ? ? ? ? ? ? ? tr]].
  unfold _quit_episode, mbind, M_bind, gets, send_message, recv_message,
    lift, mret, M_ret.
  cbn -[unpack_I].
  destruct sock as [s|]; [|discriminate].
  destruct sf as [|[f|] sf]; cbn -[unpack_I]; try discriminate.
  all: destruct inb as [|[data|f] inb]; cbn -[unpack_I]; try discriminate.
  all: destruct (unpack_I data) as [n|]; cbn -[unpack_I]; try discriminate.
  all: intros [= _ <-]; simpl; lia.
Qed.

(** The quit loop ends once the remote has nothing more to say. *)
Lemma quit_loop_returns (fuel : nat) (e : Env) :
  (length (inbox (world e)) < fuel)%nat -> is_Some (quit_loop fuel e).
Proof.
  revert e. induction fuel as [|fuel IH]; intros e Hlen; [lia|].
  simpl. destruct (done e); [eauto|].
  destruct (_quit_episode e) as [[ok|x] e'] eqn:Hquit; [|eauto].
  apply quit_episode_reads in Hquit.
  simpl. destruct ok; apply IH; simpl; lia.
Qed.

Section ResetFacts.
Context `{Platform}.

(** C9: [reset] leaves no seed behind. Whenever it comes back, with an
    observation or with an exception, [_seed] is [None], so a seed given
    to [seed] is gone after the next [reset]; and [reset] does come back
    once the fuel exceeds the number of messages the remote still has to
    say. *)
Theorem reset_clears_seed (fuel : nat) (e : Env) (v : option pyval) :
  (forall r e', reset fuel (seed v e).2 = Some (r, e') -> _seed e' = None) /\
  ((length (inbox (world e)) < fuel)%nat ->
   exists r e', reset fuel (seed v e).2 = Some (r, e') /\ _seed e' = None) /\
  (forall z, v = Some (PyInt z) -> _seed (seed v e).2 = Some z).
Proof.
  assert (Hany : forall e0 r e',
            reset fuel e0 = Some (r, e') -> _seed e' = None).
  { intros e0 r e'. unfold reset.
    destruct (reset_body fuel e0) as [[r0 e0']|]; [|discriminate].
    now intros [= _ <-]. }
  split; [apply Hany|]. split.
  - intros Hlen.
    assert (Hw : world (seed v e).2 = world e).
    { unfold seed. destruct v as [[z| | |]|]; reflexivity. }
    assert (Hret : is_Some (reset fuel (seed v e).2)).
    { unfold reset, reset_body.
      set (e0 := (seed v e).2) in *.
      destruct (has_init e0).
      - destruct (quit_loop_returns fuel e0) as [[[[]|x] e1] ->];
          [now rewrite Hw | |]; eauto.
        destruct (_start_up e1); eauto.
      - unfold init. destruct (xml_file e0) as [m|x]; [|eauto].
        destruct (quit_loop_returns fuel (set_mission m e0))
          as [[[[]|x] e1] ->]; [simpl; now rewrite Hw | |]; eauto.
        destruct (_start_up e1); eauto. }
    destruct Hret as [[r e'] Hret]. exists r, e'.
    split; [exact Hret|]. exact (Hany _ _ _ Hret).
  - intros z ->. reflexivity.
Qed.



End ResetFacts.

Lemma reset_clears_seed_witness :
  let e := sample_env true false None
             (sample_world [Msg (ack 1); Msg "abcdef"; Msg "{}"; Msg flag_unset]
                [] []) in
  exists r e',
    reset (H := sample_platform) 5 (seed (Some (PyInt 42)) e).2 = Some (r, e') /\
    _seed (seed (Some (PyInt 42)) e).2 = Some 42 /\
    _seed e' = None.
Proof.
  intros e.
  destruct (reset_clears_seed (H := sample_platform) 5 e (Some (PyInt 42)))
    as (_ & Hret & Hset).
  destruct Hret as (r & e' & Hrun & Hnone); [simpl; lia|].
  exists r, e'. split; [exact Hrun|]. split; [|exact Hnone].
  now apply Hset.
Defined.



(** * Further properties *)

(** ** More on the marshalling of actions *)

Section MoreMarshalling.
Context `{Platform}.

(** X1: marshalling stops at the first component that fails and raises the
    error of that component, whatever comes after it in the action. *)
Theorem process_action_first_error (spaces : list (string * Space))
    (before after : list (string * pyval)) (lines : list string)
    (act : string) (v : pyval) (e : exn) :
  Forall2 (marshals spaces) before lines ->
  process_component spaces act v = Raise e ->
  _process_action spaces (before ++ (act, v) :: after) = Raise e.
Proof.
  intros Hall Hbad. unfold _process_action.
  now rewrite (process_action_loop_raise spaces before act v after lines [] e).
Qed.

Lemma py_index_out_of_range {A : Type} (l : list A) (i : Z) :
  Z.of_nat (length l) <= i \/ i < - Z.of_nat (length l) ->
  py_index l i = Raise IndexError.
Proof.
  intros Hout. unfold py_index.
  destruct (i <? 0) eqn:Hneg.
  - destruct (0 <=? i + Z.of_nat (length l)) eqn:Hlo; [lia|reflexivity].
  - destruct (0 <=? i) eqn:Hlo; [|reflexivity].
    destruct (i <? Z.of_nat (length l)) eqn:Hhi; [lia|reflexivity].
Qed.

(** X2: an enumerated component given as an integer that is not an index
    of the list of values, from either end, makes [_process_action] raise
    [IndexError], not an assertion error. *)
Theorem enum_index_out_of_range (spaces : list (string * Space))
    (before after : list (string * pyval)) (lines : list string)
    (act : string) (values : list string) (i : Z) :
  Forall2 (marshals spaces) before lines ->
  assoc act spaces = Some (Enum values) ->
  Z.of_nat (length values) <= i \/ i < - Z.of_nat (length values) ->
  _process_action spaces (before ++ (act, PyInt i) :: after) = Raise IndexError.
Proof.
  intros Hall Hsp Hout. unfold _process_action.
  rewrite (process_action_loop_raise spaces before act (PyInt i) after lines []
             IndexError); [reflexivity | exact Hall |].
  unfold process_component. rewrite Hsp.
  now rewrite py_index_out_of_range.
Qed.

Lemma assoc_undeclared {A : Type} (k : string) (d : list (string * A)) :
  k ∉ map fst d -> assoc k d = None.
Proof.
  induction d as [|[k' v] d IH]; [reflexivity|]. intros Hnot.
  simpl. destruct (String.eqb_spec k k') as [->|Hne].
  - destruct Hnot. simpl. apply list_elem_of_here.
  - apply IH. intros Hin. apply Hnot. simpl. now apply list_elem_of_further.
Qed.

(** X3: an action that names a component the action space does not declare
    makes [_process_action] raise [KeyError] with that name. *)
Theorem undeclared_action_key (spaces : list (string * Space))
    (before after : list (string * pyval)) (lines : list string)
    (act : string) (v : pyval) :
  Forall2 (marshals spaces) before lines ->
  act ∉ map fst spaces ->
  _process_action spaces (before ++ (act, v) :: after) = Raise (KeyError act).
Proof.
  intros Hall Hnot. unfold _process_action.
  rewrite (process_action_loop_raise spaces before act v after lines []
             (KeyError act)); [reflexivity | exact Hall |].
  unfold process_component. now rewrite (assoc_undeclared act spaces Hnot).
Qed.

End MoreMarshalling.

Lemma sample_camera_marshals :
  Forall2 (marshals (H := sample_platform) sample_action_space)
    [("camera", PyArr [SInt 0; SInt 5])] ["camera 0 5"].
Proof.
  repeat constructor. exists (PyStr "0 5"). split; reflexivity.
Qed.

Lemma process_action_first_error_witness :
  exists msg,
    _process_action (H := sample_platform) sample_action_space
      [("camera", PyArr [SInt 0; SInt 5]); ("turn", PyStr "up");
       ("jump", PyInt 1)]
    = Raise (AssertionError msg).
Proof.
  eexists.
  apply (process_action_first_error (H := sample_platform) sample_action_space
           [("camera", PyArr [SInt 0; SInt 5])] [("jump", PyInt 1)]
           ["camera 0 5"] "turn" (PyStr "up"));
    [exact sample_camera_marshals | reflexivity].
Defined.

Lemma enum_index_out_of_range_witness :
  _process_action (H := sample_platform) sample_action_space
    [("camera", PyArr [SInt 0; SInt 5]); ("turn", PyInt 3)]
  = Raise IndexError /\
  _process_action (H := sample_platform) sample_action_space
    [("camera", PyArr [SInt 0; SInt 5]); ("turn", PyInt (-4))]
  = Raise IndexError.
Proof.
  split.
  - apply (enum_index_out_of_range (H := sample_platform) sample_action_space
             [("camera", PyArr [SInt 0; SInt 5])] [] ["camera 0 5"] "turn"
             ["none"; "left"; "right"] 3);
      [exact sample_camera_marshals | reflexivity | simpl; lia].
  - apply (enum_index_out_of_range (H := sample_platform) sample_action_space
             [("camera", PyArr [SInt 0; SInt 5])] [] ["camera 0 5"] "turn"
             ["none"; "left"; "right"] (-4));
      [exact sample_camera_marshals | reflexivity | simpl; lia].
Defined.

Lemma undeclared_action_key_witness :
  _process_action (H := sample_platform) sample_action_space
    [("camera", PyArr [SInt 0; SInt 5]); ("jump", PyInt 1); ("turn", PyInt 1)]
  = Raise (KeyError "jump").
Proof.
  apply (undeclared_action_key (H := sample_platform) sample_action_space
           [("camera", PyArr [SInt 0; SInt 5])] [("turn", PyInt 1)]
           ["camera 0 5"] "jump" (PyInt 1)); [exact sample_camera_marshals|].
  intros Hin. apply list_elem_of_In in Hin. simpl in Hin.
  repeat destruct Hin as [Hin|Hin]; try discriminate Hin; exact Hin.
Defined.

(** ** More on observations *)

Lemma chunks_length {A : Type} (count size : nat) (l : list A) :
  length (chunks count size l) = count.
Proof.
  revert l. induction count as [|count IH]; intros l; simpl; [reflexivity|].
  now rewrite IH.
Qed.

Lemma chunks_sizes {A : Type} (count size : nat) (l : list A) :
  (count * size <= length l)%nat ->
  Forall (fun c => length c = size) (chunks count size l).
Proof.
  revert l. induction count as [|count IH]; intros l Hlen; simpl; [constructor|].
  constructor.
  - rewrite length_take. lia.
  - apply IH. rewrite length_drop. lia.
Qed.

Lemma chunks_concat {A : Type} (count size : nat) (l : list A) :
  concat (chunks count size l) = take (count * size) l.
Proof.
  revert l. induction count as [|count IH]; intros l; simpl; [reflexivity|].
  rewrite IH. apply take_take_drop.
Qed.

Lemma string_length_list (s : string) :
  length (String.list_ascii_of_string s) = String.length s.
Proof. induction s as [|c s IH]; simpl; [reflexivity|now rewrite IH]. Qed.

Lemma concat_rows_of_pixels (rows : list (list ascii)) (w d : nat) :
  Forall (fun r => length r = (w * d)%nat) rows ->
  concat (concat (map (chunks w d) rows)) = concat rows.
Proof.
  induction 1 as [|r rows Hr _ IH]; simpl; [reflexivity|].
  rewrite concat_app, IH, chunks_concat. f_equal.
  apply take_ge. lia.
Qed.

(** The image that [reshape_flip] returns has the declared shape. *)
Lemma reshape_flip_shaped (h w d : nat) (buf : list ascii) (f : Frame) :
  reshape_flip h w d buf = Ok f ->
  length buf = (h * w * d)%nat /\ shaped h w d f.
Proof.
  unfold reshape_flip.
  destruct (decide (length buf = (h * w * d)%nat)) as [Hlen|Hlen];
    [|discriminate].
  intros [= <-]. split; [exact Hlen|].
  assert (Hrows : Forall (fun r => length r = (w * d)%nat)
                    (chunks h (w * d) buf))
    by (apply chunks_sizes; rewrite Hlen, Nat.mul_assoc; lia).
  split.
  - now rewrite length_reverse, length_map, chunks_length.
  - apply Forall_reverse, Forall_fmap.
    eapply Forall_impl; [exact Hrows|]. intros r Hr. cbv beta. split.
    + apply chunks_length.
    + apply chunks_sizes. cbv beta in Hr. lia.
Qed.

(** X4: [reshape_flip] succeeds exactly on the buffers of
    [height * width * depth] bytes and raises [ValueError] on the others;
    the image it returns has that shape, and its rows read from the last
    to the first give the buffer back. *)
Theorem reshape_flip_round_trip (h w d : nat) (buf : list ascii) :
  match reshape_flip h w d buf with
  | Ok f =>
      length buf = (h * w * d)%nat /\
      shaped h w d f /\ flatten (reverse f) = buf
  | Raise x => x = ValueError /\ length buf <> (h * w * d)%nat
  end.
Proof.
  destruct (reshape_flip h w d buf) as [f|x] eqn:Hrun.
  - destruct (reshape_flip_shaped h w d buf f Hrun) as [Hlen Hshape].
    split; [exact Hlen|]. split; [exact Hshape|].
    unfold reshape_flip in Hrun.
    destruct (decide _) as [_|_]; [|discriminate]. injection Hrun as <-.
    assert (Hrows : Forall (fun r => length r = (w * d)%nat)
                      (chunks h (w * d) buf))
      by (apply chunks_sizes; rewrite Hlen, Nat.mul_assoc; lia).
    unfold flatten. rewrite reverse_involutive.
    rewrite (concat_rows_of_pixels _ w d Hrows), chunks_concat.
    apply take_ge. rewrite Hlen, Nat.mul_assoc. lia.
  - unfold reshape_flip in Hrun.
    destruct (decide _) as [Hlen|Hlen]; [discriminate|].
    injection Hrun as <-. auto.
Qed.

Lemma zeros_shaped (h w d : nat) : shaped h w d (zeros h w d).
Proof.
  unfold zeros, shaped. split; [apply length_replicate|].
  apply Forall_replicate. split; [apply length_replicate|].
  apply Forall_replicate. apply length_replicate.
Qed.

Lemma bind_ok_inv {A B : Type} (m : M A) (f : A -> M B) (e e' : Env) (b : B) :
  (m ≫= f) e = (Ok b, e') ->
  exists a e1, m e = (Ok a, e1) /\ f a e1 = (Ok b, e').
Proof.
  unfold mbind, M_bind. destruct (m e) as [[a|x] e1]; [eauto|discriminate].
Qed.

Section MoreObservations.
Context `{Platform}.

(** What [build_obs] returns is empty or has a value for every key. *)
Lemma build_obs_all_or_nothing (handlers : list (string * Handler))
    (info : Info) (obs_space : ObsSpace) (keys : list string)
    (acc obs : ObsDict) :
  build_obs handlers info obs_space keys acc = Ok obs ->
  obs = [] \/
  exists vals,
    obs = acc ++ vals /\
    Forall2 (fun key kv =>
               kv.1 = key /\
               exists handler_fn,
                 assoc key handlers = Some handler_fn /\
                 handler_fn info obs_space = Ok kv.2) keys vals.
Proof.
  revert acc. induction keys as [|key keys IH]; intros acc; simpl.
  - intros [= <-]. right. exists []. rewrite app_nil_r. split; constructor.
  - destruct (assoc key handlers) as [handler_fn|] eqn:Hh;
      [|intros [= <-]; now left].
    destruct (handler_fn info obs_space) as [v|x] eqn:Hv.
    + intros Hrun. destruct (IH _ Hrun) as [->|(vals & -> & Hall)]; [now left|].
      right. exists ((key, v) :: vals). rewrite <- app_assoc. split; [reflexivity|].
      constructor; [|exact Hall]. simpl. eauto.
    + destruct x; try discriminate. intros [= <-]. now left.
Qed.

(** The image that [_process_observation] stores, when it gets that far. *)
Lemma process_observation_frame (e : Env) (buf : string) (frame : Frame)
    (e1 : Env) :
  (if (String.length buf =? 0)%nat
   then mret (zeros (height e) (width e) (depth e))
   else lift (reshape_flip (height e) (width e) (depth e)
                (String.list_ascii_of_string buf))) e = (Ok frame, e1) ->
  e1 = e /\ shaped (height e) (width e) (depth e) frame.
Proof.
  destruct (String.length buf =? 0)%nat.
  - intros [= <- <-]. split; [reflexivity|apply zeros_shaped].
  - unfold lift.
    destruct (reshape_flip _ _ _ _) as [f|x] eqn:Hrt; [|discriminate].
    intros [= <- <-]. split; [reflexivity|].
    now apply reshape_flip_shaped in Hrt.
Qed.

(** X5: an observation that [_process_observation] returns is all or
    nothing. Either it is the empty dictionary, or it has exactly the keys
    of the observation space, in their order, each with the value that its
    registered handler returns on the info payload; that payload carries,
    under 'pov', the image of the declared shape that is also stored in
    [_last_pov]. *)
Theorem process_observation_all_or_nothing (e e' : Env)
    (pov info : option string) (obs : ObsDict) :
  _process_observation pov info e = (Ok obs, e') ->
  exists frame payload,
    _last_pov e' = Some frame /\
    shaped (height e) (width e) (depth e) frame /\
    info_pov payload = Some frame /\
    (obs = [] \/
     Forall2 (fun key kv =>
                kv.1 = key /\
                exists handler_fn,
                  assoc key (obs_handlers e) = Some handler_fn /\
                  handler_fn payload (observation_space e) = Ok kv.2)
       (map fst (observation_space e)) obs).
Proof.
  unfold _process_observation. destruct pov as [buf|]; [|discriminate].
  intros Hrun.
  apply bind_ok_inv in Hrun as (h & e1 & [= <- <-] & Hrun).
  apply bind_ok_inv in Hrun as (w & e1 & [= <- <-] & Hrun).
  apply bind_ok_inv in Hrun as (d & e1 & [= <- <-] & Hrun).
  apply bind_ok_inv in Hrun as (frame & e1 & Hframe & Hrun).
  apply process_observation_frame in Hframe as [-> Hshape].
  apply bind_ok_inv in Hrun as (payload0 & e1 & Hpay & Hrun).
  assert (e1 = e) as ->.
  { destruct info as [s|]; [destruct (String.length s =? 0)%nat|].
    - now injection Hpay as _ <-.
    - unfold lift in Hpay. now injection Hpay as _ <-.
    - now injection Hpay as _ <-. }
  apply bind_ok_inv in Hrun as ([] & e1 & [= <-] & Hrun).
  apply bind_ok_inv in Hrun as (sp & e1 & [= <- <-] & Hrun).
  apply bind_ok_inv in Hrun as (hs & e1 & [= <- <-] & Hrun).
  unfold lift in Hrun. simpl in Hrun.
  destruct (build_obs _ _ _ _ _) as [o|x] eqn:Hb; [|discriminate].
  injection Hrun as <- <-.
  exists frame.
  exists {| info_inventory := info_inventory payload0; info_pov := Some frame |}.
  split; [reflexivity|]. split; [exact Hshape|]. split; [reflexivity|].
  destruct (build_obs_all_or_nothing _ _ _ _ _ _ Hb) as [->|(vals & -> & Hall)];
    [now left|right; exact Hall].
Qed.

(** X6: a pixel buffer that is neither empty nor of
    [height * width * depth] bytes makes [_process_observation] raise
    [ValueError] before anything is stored: the environment, [_last_pov]
    included, is as it was. *)
Theorem process_observation_wrong_size (e : Env) (buf : string)
    (info : option string) :
  String.length buf <> 0%nat ->
  String.length buf <> (height e * width e * depth e)%nat ->
  _process_observation (Some buf) info e = (Raise ValueError, e).
Proof.
  intros Hne Hsize. unfold _process_observation.
  unfold mbind, M_bind, gets, lift, mret, M_ret. simpl.
  destruct (String.length buf =? 0)%nat eqn:Hz; [apply Nat.eqb_eq in Hz; lia|].
  unfold reshape_flip. rewrite string_length_list.
  destruct (decide _) as [Heq|_]; [contradiction|reflexivity].
Qed.

(** X7: with the built-in handlers and an observation space that declares
    'pov' and then 'inventory', a buffer of the right size and an info
    payload that parses give the flipped image under 'pov' and, under
    'inventory', the sums of the quantities per declared item. *)
Theorem process_observation_default (e : Env) (buf info : string)
    (pov_space : Space) (names : list string) (frame : Frame)
    (payload : Info) :
  obs_handlers e = DEFAULT_OBS_HANDLERS ->
  observation_space e = [("pov", pov_space); ("inventory", Dict names)] ->
  String.length buf <> 0%nat ->
  reshape_flip (height e) (width e) (depth e)
    (String.list_ascii_of_string buf) = Ok frame ->
  String.length info <> 0%nat ->
  json_loads info = Ok payload ->
  exists d,
    _process_observation (Some buf) (Some info) e =
      (Ok [("pov", ObsPov frame); ("inventory", ObsInventory d)],
       set_last_pov frame e) /\
    (forall k, k ∈ names ->
               d !! k = Some (inventory_sum k (info_stacks payload))) /\
    (forall k, k ∉ names -> d !! k = None).
Proof.
  intros Hh Hsp Hbuf Hframe Hinfo Hjson.
  exists (foldl add_stack (zero_inventory names) (info_stacks payload)).
  split.
  - unfold _process_observation, mbind, M_bind, gets, lift, mret, M_ret, modify.
    apply Nat.eqb_neq in Hbuf, Hinfo. rewrite Hbuf, Hframe, Hinfo, Hjson.
    simpl. rewrite Hh, Hsp. simpl.
    unfold inventory_observation, inventory_observation_dict, info_stacks.
    simpl. now destruct (info_inventory payload).
  - split; intros k Hk; rewrite foldl_add_stack_lookup, zero_inventory_lookup;
      destruct (decide (k ∈ names)); try contradiction; reflexivity.
Qed.

End MoreObservations.

Lemma inventory_sum_perm (k : string) (stacks stacks' : list Stack) :
  stacks ≡ₚ stacks' -> inventory_sum k stacks = inventory_sum k stacks'.
Proof.
  unfold inventory_sum. induction 1; simpl; try lia.
Qed.

(** X8: the inventory observation does not depend on the order of the
    stacks in the info payload. *)
Theorem inventory_observation_perm (info : Info) (obs_space : ObsSpace)
    (stacks stacks' : list Stack) :
  stacks ≡ₚ stacks' ->
  inventory_observation (with_stacks info stacks) obs_space =
  inventory_observation (with_stacks info stacks') obs_space.
Proof.
  intros Hperm. unfold inventory_observation, inventory_observation_dict.
  destruct (assoc "inventory" obs_space) as [[| |names|]|]; try reflexivity.
  simpl. do 2 f_equal. apply map_eq. intros k.
  rewrite !foldl_add_stack_lookup. now rewrite (inventory_sum_perm k _ _ Hperm).
Qed.

Lemma process_observation_all_or_nothing_witness :
  let e := sample_env false false None (sample_world [] [] []) in
  exists obs e',
    _process_observation (H := sample_platform) (Some "abcdef") (Some "{}") e
      = (Ok obs, e') /\
    map fst obs = ["pov"; "inventory"] /\
    _last_pov e' <> None.
Proof.
  intros e.
  destruct (_process_observation (H := sample_platform) (Some "abcdef")
              (Some "{}") e) as [[obs|x] e'] eqn:Hrun;
    [|vm_compute in Hrun; discriminate].
  exists obs, e'. split; [reflexivity|].
  destruct (process_observation_all_or_nothing (H := sample_platform) e e' _ _
              obs Hrun) as (frame & payload & Hlast & _ & _ & Hobs).
  split; [|now rewrite Hlast].
  vm_compute in Hrun. now injection Hrun as <- _.
Defined.

Lemma process_observation_wrong_size_witness :
  let e := sample_env false false None (sample_world [] [] []) in
  _process_observation (H := sample_platform) (Some "abc") (Some "{}") e
    = (Raise ValueError, e).
Proof.
  intros e.
  apply (process_observation_wrong_size (H := sample_platform) e "abc");
    simpl; lia.
Defined.

Lemma process_observation_default_witness :
  let e := sample_env false false None (sample_world [] [] []) in
  exists d,
    _process_observation (H := sample_platform) (Some "abcdef") (Some "{}") e =
      (Ok [("pov", ObsPov [[["d"; "e"; "f"]]; [["a"; "b"; "c"]]]%char);
           ("inventory", ObsInventory d)],
       set_last_pov [[["d"; "e"; "f"]]; [["a"; "b"; "c"]]]%char e) /\
    d !! "log" = Some 0 /\ d !! "stone" = None.
Proof.
  intros e.
  destruct (process_observation_default (H := sample_platform) e "abcdef" "{}"
              Box ["log"; "dirt"] [[["d"; "e"; "f"]]; [["a"; "b"; "c"]]]%char
              {| info_inventory := None; info_pov := None |})
    as (d & Hrun & Hin & Hout); try reflexivity; try (simpl; lia).
  exists d. split; [exact Hrun|]. split.
  - apply (Hin "log"). apply list_elem_of_In. simpl. auto.
  - apply (Hout "stone"). intros Hm. apply list_elem_of_In in Hm. simpl in Hm.
    repeat destruct Hm as [Hm|Hm]; try discriminate Hm; exact Hm.
Defined.

Lemma inventory_observation_perm_witness :
  inventory_observation
    (with_stacks sample_info
       [ {| stack_type := Some "log2"; stack_quantity := Some 3 |};
         {| stack_type := Some "dirt"; stack_quantity := Some 5 |} ])
    sample_obs_space =
  inventory_observation
    (with_stacks sample_info
       [ {| stack_type := Some "dirt"; stack_quantity := Some 5 |};
         {| stack_type := Some "log2"; stack_quantity := Some 3 |} ])
    sample_obs_space.
Proof.
  apply inventory_observation_perm. apply perm_swap.
Defined.

(** ** More on the launcher *)

Lemma relaunch_events_shape (tries : nat) (i : Instance) (l : list bool) :
  (launch_attempts (relaunch_events tries i l) <= tries)%nat /\
  killed (relaunch_events tries i l) =
    failed_launches (relaunch_events tries i l) /\
  (launch_succeeds tries l = false ->
   launch_attempts (relaunch_events tries i l) = tries).
Proof.
  revert i l. induction tries as [|tries IH]; intros i l; simpl.
  - repeat split; lia.
  - destruct l as [|[|] l]; simpl; try (repeat split; (lia || discriminate)).
    destruct (IH (S i) l) as (Hle & Hk & Hall). repeat split.
    + lia.
    + now rewrite Hk.
    + intros Hf. now rewrite Hall.
Qed.

(** X9: [_robust_launch_new_instance] launches at most three times and
    leaves [self.instance] to its caller. Every launch that failed is
    killed, in the order of the launches, and nothing else is. When it
    returns, the handle it returns is the only launch that succeeded and
    is a new one; when it raises, it raises the launch failure after
    exactly three launches that all failed. *)
Theorem robust_launch_bounded (e : Env) :
  exists evs,
    trace (world (_robust_launch_new_instance e).2) = trace (world e) ++ evs /\
    instance (_robust_launch_new_instance e).2 = instance e /\
    (launch_attempts evs <= 3)%nat /\
    killed evs = failed_launches evs /\
    match (_robust_launch_new_instance e).1 with
    | Ok i => launched evs = [i] /\ (fresh_instance (world e) <= i)%nat
    | Raise x =>
        x = launch_failure /\ launched evs = [] /\ launch_attempts evs = 3%nat
    end.
Proof.
  unfold _robust_launch_new_instance.
  destruct (robust_launch_loop_spec 3 e) as (w' & Hrun & Htr & _).
  rewrite Hrun. eexists. split; [exact Htr|]. split; [reflexivity|].
  destruct (relaunch_events_shape 3 (fresh_instance (world e))
              (launches (world e))) as (Hle & Hk & Hall).
  split; [exact Hle|]. split; [exact Hk|].
  cbn [fst]. rewrite relaunch_events_launched.
  destruct (launch_succeeds 3 (launches (world e))) eqn:Hok.
  - split; [reflexivity|apply relaunch_handle_ge].
  - split; [reflexivity|]. split; [reflexivity|now apply Hall].
Qed.

(** ** More on the mission-init handshake *)

Ltac init_round_run :=
  unfold mbind, M_bind, gets, send_message, recv_message, lift, raise,
    mret, M_ret, log_shows_bind_exception, modify, sleep, emit;
  cbn -[init_mission_loop mission_token unpack_I Z.eqb].

(** Rounds that are not acknowledged, then one that is. *)
Lemma init_mission_loop_acked (remaining k : nat) (e : Env) (s : Sock)
    (a b : string) (n : Z) (rest : list incoming) :
  (k <= remaining)%nat ->
  client_socket e = Some s ->
  send_faults (world e) = [] -> bind_log (world e) = [] ->
  inbox (world e) = replicate k (Msg a) ++ Msg b :: rest ->
  unpack_I a = Ok n -> n <> 1 -> unpack_I b = Ok 1 ->
  exists w',
    init_mission_loop remaining e = (Ok tt, set_world w' e) /\
    trace w' = trace (world e)
               ++ nack_rounds k s (xml e) (mission_token e)
               ++ last_round s (xml e) (mission_token e) /\
    inbox w' = rest /\
    send_faults w' = [] /\ connect_faults w' = connect_faults (world e) /\
    clock w' = clock (world e) /\ launches w' = launches (world e).
Proof.
  revert k e. induction remaining as [|remaining IH];
    intros k e Hk Hsock Hsf Hbl Hin Ha Hn Hb.
  all: rewrite init_mission_loop_unfold.
  all: destruct e as [? ? ? ? x ? ? ? ? ? ? ? ? ? sock ? ? ? ? ?
                        [inb sf ? ? bl ? ? ? ? ? tr]].
  all: simpl in Hsock, Hsf, Hbl, Hin; subst sock sf bl inb.
  all: destruct k as [|k]; [|try lia].
  all: init_round_run.
  all: set (tok := mission_token _).
  - rewrite Hb. init_round_run. eexists. split; [reflexivity|].
    cbn. rewrite <- app_assoc. repeat split.
  - rewrite Hb. init_round_run. eexists. split; [reflexivity|].
    cbn. rewrite <- app_assoc. repeat split.
  - rewrite Ha. init_round_run.
    destruct (n =? 1) eqn:Hn1; [lia|]. init_round_run.
    match goal with
    | |- context [init_mission_loop remaining ?e1] =>
        destruct (IH k e1 ltac:(lia) eq_refl eq_refl eq_refl eq_refl Ha Hn Hb)
          as (w' & Hrun & Htr & Hrest)
    end.
    rewrite Hrun. exists w'. split; [reflexivity|].
    split; [|exact Hrest].
    rewrite Htr. cbn -[mission_token]. rewrite <- !app_assoc. reflexivity.
Qed.

(** Rounds that are never acknowledged. *)
Lemma init_mission_loop_exhausted (remaining : nat) (e : Env) (s : Sock)
    (a : string) (n : Z) (rest : list incoming) :
  client_socket e = Some s ->
  send_faults (world e) = [] -> bind_log (world e) = [] ->
  inbox (world e) = replicate (S remaining) (Msg a) ++ rest ->
  unpack_I a = Ok n -> n <> 1 ->
  exists w',
    init_mission_loop remaining e = (Raise socket_timeout, set_world w' e) /\
    trace w' = trace (world e)
               ++ nack_rounds remaining s (xml e) (mission_token e)
               ++ last_round s (xml e) (mission_token e) /\
    inbox w' = rest.
Proof.
  revert e. induction remaining as [|remaining IH];
    intros e Hsock Hsf Hbl Hin Ha Hn.
  all: rewrite init_mission_loop_unfold.
  all: destruct e as [? ? ? ? x ? ? ? ? ? ? ? ? ? sock ? ? ? ? ?
                        [inb sf ? ? bl ? ? ? ? ? tr]].
  all: simpl in Hsock, Hsf, Hbl, Hin; subst sock sf bl inb.
  all: init_round_run.
  all: set (tok := mission_token _).
  all: rewrite Ha; init_round_run.
  all: destruct (n =? 1) eqn:Hn1; [lia|]; init_round_run.
  - eexists. split; [reflexivity|]. cbn. rewrite <- app_assoc. repeat split.
  - match goal with
    | |- context [init_mission_loop remaining ?e1] =>
        destruct (IH e1 eq_refl eq_refl eq_refl eq_refl Ha Hn)
          as (w' & Hrun & Htr & Hrest)
    end.
    rewrite Hrun. exists w'. split; [reflexivity|].
    split; [|exact Hrest].
    rewrite Htr. cbn -[mission_token]. rewrite <- !app_assoc. reflexivity.
Qed.

(** X10: a mission-init handshake that is refused [k] times, for
    [k <= MAX_WAIT], and then acknowledged returns. It has sent the mission
    XML and the token [k + 1] times, slept one second after each refusal,
    and read exactly the [k + 1] replies; [had_to_clean] and [done] are as
    they were. *)
Theorem init_mission_retries_until_acked (k : nat) (e : Env) (s : Sock)
    (a b : string) (n : Z) (rest : list incoming) :
  (k <= 80)%nat ->
  client_socket e = Some s ->
  send_faults (world e) = [] -> bind_log (world e) = [] ->
  inbox (world e) = replicate k (Msg a) ++ Msg b :: rest ->
  unpack_I a = Ok n -> n <> 1 -> unpack_I b = Ok 1 ->
  exists e',
    _init_mission e = (Ok tt, e') /\
    trace (world e') = trace (world e)
               ++ nack_rounds k s (xml e) (mission_token e)
               ++ last_round s (xml e) (mission_token e) /\
    inbox (world e') = rest /\
    had_to_clean e' = had_to_clean e /\ done e' = done e.
Proof.
  intros Hk Hsock Hsf Hbl Hin Ha Hn Hb. unfold _init_mission.
  assert (Hle : (k <= Z.to_nat MAX_WAIT)%nat) by (unfold MAX_WAIT; lia).
  destruct (init_mission_loop_acked (Z.to_nat MAX_WAIT) k e s a b n rest
              Hle Hsock Hsf Hbl Hin Ha Hn Hb)
    as (w' & Hrun & Htr & Hrest & _).
  exists (set_world w' e). auto.
Qed.

(** X11: a mission-init handshake that is refused [MAX_WAIT + 1] times
    raises [socket.timeout] after 81 rounds, with 80 sleeps of one second
    between them, and without setting [had_to_clean]. *)
Theorem init_mission_gives_up (e : Env) (s : Sock) (a : string) (n : Z)
    (rest : list incoming) :
  client_socket e = Some s ->
  send_faults (world e) = [] -> bind_log (world e) = [] ->
  inbox (world e) = replicate 81 (Msg a) ++ rest ->
  unpack_I a = Ok n -> n <> 1 ->
  exists e',
    _init_mission e = (Raise socket_timeout, e') /\
    trace (world e') = trace (world e)
               ++ nack_rounds 80 s (xml e) (mission_token e)
               ++ last_round s (xml e) (mission_token e) /\
    inbox (world e') = rest /\
    had_to_clean e' = had_to_clean e.
Proof.
  intros Hsock Hsf Hbl Hin Ha Hn. unfold _init_mission.
  destruct (init_mission_loop_exhausted (Z.to_nat MAX_WAIT) e s a n rest)
    as (w' & Hrun & Htr & Hrest); auto.
  exists (set_world w' e). auto.
Qed.



Section MoreStartUp.
Context `{Platform}.

Lemma start_up_once_run (e : Env) :
  start_up_once e =
    match start_up_try (set_resets (resets e + 1) e) with
    | (Ok o, e1) => (Ok o, e1)
    | (Raise x, e1) =>
        if is_socket_exn x then
          match _clean_connection e1 with
          | (Ok _, e2) => (Raise x, e2)
          | (Raise y, e2) => (Raise y, e2)
          end
        else if is_RuntimeError x then
          match _clean_connection (set_had_to_clean true e1) with
          | (Ok _, e2) => (Raise x, e2)
          | (Raise y, e2) => (Raise y, e2)
          end
        else (Raise x, e1)
    end.
Proof.
  unfold start_up_once. unfold mbind at 1. unfold M_bind at 1.
  unfold modify at 1. unfold try_except. fold start_up_try.
  destruct (start_up_try _) as [[o|x] e1]; [reflexivity|].
  destruct (is_socket_exn x).
  - unfold mbind, M_bind, raise.
    now destruct (_clean_connection e1) as [[[]|y] e2].
  - destruct (is_RuntimeError x); [|reflexivity].
    unfold mbind, M_bind, raise, modify.
    now destruct (_clean_connection _) as [[[]|y] e2].
Qed.




(** A handshake acknowledged at once, with what it sent. *)
Lemma init_mission_acked_trace (e : Env) (s : Sock) (a : string)
    (rest : list incoming) :
  client_socket e = Some s ->
  send_faults (world e) = [] ->
  inbox (world e) = Msg a :: rest ->
  unpack_I a = Ok 1 ->
  exists w1,
    _init_mission e = (Ok tt, set_world w1 e) /\
    trace w1 = trace (world e) ++ [EvSend s (xml e); EvSend s (mission_token e)] /\
    inbox w1 = rest /\ send_faults w1 = [].
Proof.
  intros Hsock Hsf Hin Ha. unfold _init_mission.
  rewrite init_mission_loop_unfold.
  destruct e as [? ? ? ? x ? ? ? ? ? ? ? ? ? sock ? ? ? ? ?
                   [inb sf ? ? bl0 ? ? ? ? ? tr]].
  simpl in Hsock, Hin, Hsf. subst sock inb sf.
  init_round_run. rewrite Ha. init_round_run.
  eexists. split; [reflexivity|]. cbn. rewrite <- app_assoc. repeat split.
Qed.

(** A peek that is answered with pixels and a completion flag other
    than 1. *)
Lemma peek_obs_first_frame (e : Env) (s : Sock) (obs info reply : string)
    (flag : Z) (rest : list incoming) :
  done e = false ->
  client_socket e = Some s ->
  send_faults (world e) = [] ->
  inbox (world e) = Msg obs :: Msg info :: Msg reply :: rest ->
  utf8_ok info = true ->
  unpack_b reply = Ok flag -> flag <> 1 ->
  obs <> "" ->
  exists w1,
    _peek_obs e =
      _process_observation (Some obs) (Some info)
        (set_done false (set_world w1 e)) /\
    trace w1 = trace (world e) ++ [EvSend s peek_request] /\
    inbox w1 = rest /\ send_faults w1 = [].
Proof.
  intros Hdone Hsock Hsf Hin Hutf Hflag Hne Hobs.
  destruct e as [? ? ? ? ? ? ? ? ? ? ? ? ? ? sock d ? ? ? ?
                   [inb sf ? ? ? ck nw ? ? ? tr]].
  simpl in Hdone, Hsock, Hin, Hsf. subst d sock inb sf.
  assert (Hflag' : (flag =? 1) = false) by lia.
  destruct obs as [|c obs]; [now destruct Hobs|].
  unfold _peek_obs, decode, mbind, M_bind, gets, time_time, send_message,
    recv_message, lift, raise, mret, M_ret, modify, sleep, emit.
  destruct ck as [|t0 ck];
    cbn -[_process_observation Z.sub Z.gtb MAX_WAIT unpack_b];
    rewrite Hutf;
    cbn -[_process_observation Z.sub Z.gtb MAX_WAIT unpack_b];
    rewrite Hflag;
    cbn -[_process_observation Z.sub Z.gtb MAX_WAIT unpack_b];
    rewrite Hflag';
    cbn -[_process_observation Z.sub Z.gtb MAX_WAIT unpack_b];
    eexists; (split; [reflexivity|]); cbn; repeat split.
Qed.

Lemma start_up_try_disconnected (e : Env) :
  client_socket e = None ->
  connect_faults (world e) = [] ->
  send_faults (world e) = [] ->
  exists w0,
    start_up_try e =
      match _init_mission
              (set_client_socket (Some (fresh_sock (world e))) (set_world w0 e))
      with
      | (Ok _, e1) => _peek_obs (set_done false e1)
      | (Raise x, e1) => (Raise x, e1)
      end /\
    trace w0 = trace (world e)
               ++ [EvConnect (fresh_sock (world e)) (instance e);
                   EvSend (fresh_sock (world e)) banner] /\
    inbox w0 = inbox (world e) /\ send_faults w0 = [].
Proof.
  intros Hsock Hcf Hsf. unfold start_up_try, _hello. fold banner.
  destruct e as [? ? ? ? x ? ? ? ? ? ? ? ? ? sock d ? ? inst ?
                   [inb sf cf ls bl ck nw ns fs fi tr]].
  simpl in Hsock, Hcf, Hsf. subst sock cf sf.
  unfold mbind, M_bind, gets, connect, send_message, modify, mret, M_ret.
  cbn -[_init_mission _peek_obs banner].
  exists {| inbox := inb; send_faults := []; connect_faults := [];
            launches := ls; bind_log := bl; clock := ck; now := nw;
            next_sample := ns; fresh_sock := S fs; fresh_instance := fi;
            trace := (tr ++ [EvConnect fs inst]) ++ [EvSend fs banner] |}.
  split.
  - destruct (_init_mission _) as [[[]|y] e1]; reflexivity.
  - cbn. rewrite <- app_assoc. repeat split.
Qed.

(** X14: one attempt of [_start_up] from a disconnected environment, when
    everything goes through: it connects to the instance, sends the
    greeting, the mission XML, the token of the new reset count and one
    peek, reads the four replies, and returns what
    [_process_observation] makes of the pixels and the info, with [done]
    false and the new socket stored. *)
Theorem start_up_first_observation (e : Env) (a obs info reply : string)
    (flag : Z) (rest : list incoming) :
  client_socket e = None ->
  connect_faults (world e) = [] ->
  send_faults (world e) = [] ->
  inbox (world e) = Msg a :: Msg obs :: Msg info :: Msg reply :: rest ->
  unpack_I a = Ok 1 ->
  utf8_ok info = true ->
  unpack_b reply = Ok flag -> flag <> 1 ->
  obs <> "" ->
  let s := fresh_sock (world e) in
  exists e1,
    client_socket e1 = Some s /\ done e1 = false /\
    resets e1 = resets e + 1 /\
    trace (world e1) =
      trace (world e)
      ++ [EvConnect s (instance e); EvSend s banner; EvSend s (xml e);
          EvSend s (mission_token (set_resets (resets e + 1) e));
          EvSend s peek_request] /\
    inbox (world e1) = rest /\
    forall o e2,
      _process_observation (Some obs) (Some info) e1 = (Ok o, e2) ->
      start_up_once e = (Ok o, e2).
Proof.
  intros Hsock Hcf Hsf Hin Ha Hutf Hflag Hne Hobs s.
  rewrite start_up_once_run.
  set (e0 := set_resets (resets e + 1) e).
  destruct (start_up_try_disconnected e0 Hsock Hcf Hsf)
    as (w0 & -> & Htr0 & Hin0 & Hsf0).
  change (fresh_sock (world e0)) with s in *.
  change (instance e0) with (instance e) in Htr0.
  change (world e0) with (world e) in *.
  set (ec := set_client_socket (Some s) (set_world w0 e0)).
  destruct (init_mission_acked_trace ec s a _ eq_refl Hsf0
              (eq_trans Hin0 Hin) Ha) as (w1 & -> & Htr1 & Hin1 & Hsf1).
  destruct (peek_obs_first_frame (set_done false (set_world w1 ec)) s obs info
              reply flag rest eq_refl eq_refl Hsf1 Hin1 Hutf Hflag Hne Hobs)
    as (w2 & -> & Htr2 & Hin2 & _).
  exists (set_done false (set_world w2 (set_done false (set_world w1 ec)))).
  split; [reflexivity|]. split; [reflexivity|]. split; [reflexivity|].
  split; [|split; [exact Hin2|]].
  - cbn -[mission_token banner]. rewrite Htr2. cbn -[mission_token banner].
    rewrite Htr1. cbn -[mission_token banner]. rewrite Htr0.
    now rewrite <- !app_assoc.
  - intros o e2 Hrun. now rewrite Hrun.
Qed.

End MoreStartUp.

Lemma init_mission_retries_until_acked_witness :
  let e := sample_env true false None
             (sample_world [Msg (ack 0); Msg (ack 0); Msg (ack 1)] [] []) in
  exists e',
    _init_mission e = (Ok tt, e') /\
    trace (world e') =
      trace (world e)
      ++ nack_rounds 2 0%nat (xml e) (mission_token e)
      ++ last_round 0%nat (xml e) (mission_token e) /\
    inbox (world e') = [] /\
    had_to_clean e' = had_to_clean e /\ done e' = done e.
Proof.
  intros e.
  apply (init_mission_retries_until_acked 2 e 0%nat (ack 0) (ack 1) 0 []);
    try reflexivity; lia.
Defined.

Lemma init_mission_gives_up_witness :
  let e := sample_env true false None
             (sample_world (replicate 81 (Msg (ack 0))) [] []) in
  exists e',
    _init_mission e = (Raise socket_timeout, e') /\
    trace (world e') =
      trace (world e)
      ++ nack_rounds 80 0%nat (xml e) (mission_token e)
      ++ last_round 0%nat (xml e) (mission_token e) /\
    inbox (world e') = [] /\
    had_to_clean e' = had_to_clean e.
Proof.
  intros e.
  apply (init_mission_gives_up e 0%nat (ack 0) 0 []);
    try reflexivity; lia.
Defined.



Lemma start_up_first_observation_witness :
  let e := set_client_socket None
             (sample_env true false None
                (sample_world [Msg (ack 1); Msg "abcdef"; Msg "{}";
                               Msg flag_unset] [] [])) in
  exists e1,
    client_socket e1 = Some 1%nat /\ done e1 = false /\
    resets e1 = 2 /\
    trace (world e1) =
      [EvConnect 1%nat 0%nat; EvSend 1%nat (banner (H := sample_platform));
       EvSend 1%nat (xml e);
       EvSend 1%nat (mission_token (set_resets 2 e));
       EvSend 1%nat peek_request] /\
    inbox (world e1) = [] /\
    forall o e2,
      _process_observation (H := sample_platform) (Some "abcdef") (Some "{}")
        e1 = (Ok o, e2) ->
      start_up_once (H := sample_platform) e = (Ok o, e2).
Proof.
  intros e.
  apply (start_up_first_observation (H := sample_platform) e (ack 1) "abcdef"
           "{}" flag_unset 0 []); try reflexivity; try discriminate; lia.
Defined.

(** ** What the methods never touch *)

#[global] Instance same_attrs_preorder : PreOrder same_attrs.
Proof.
  split.
  - intros e. split; reflexivity.
  - intros e1 e2 e3 [H1 H2] [H3 H4]. split; congruence.
Qed.

#[global] Instance same_episode_preorder : PreOrder same_episode.
Proof.
  split.
  - intros e. repeat split.
  - intros e1 e2 e3 (H1 & H2 & H3) (H4 & H5 & H6). repeat split; congruence.
Qed.

#[global] Instance session_kept_preorder : PreOrder session_kept.
Proof.
  split.
  - intros e. split; [reflexivity|lia].
  - intros e1 e2 e3 [H1 H2] [H3 H4]. split; [congruence|lia].
Qed.

#[global] Instance same_socket_preorder : PreOrder same_socket.
Proof.
  split.
  - intros e. reflexivity.
  - intros e1 e2 e3 H1 H2. unfold same_socket in *. congruence.
Qed.

Lemma attrs_episode {A : Type} (m : M A) :
  frame same_attrs m -> frame same_episode m.
Proof.
  apply frame_weaken. intros e e' [Hs Hl]. split; [exact Hs|].
  unfold link_view in Hl. now injection Hl as -> _ -> _ _.
Qed.

Lemma episode_kept {A : Type} (m : M A) :
  frame same_episode m -> frame session_kept m.
Proof.
  apply frame_weaken. intros e e' (Hs & Hr & _). split; [exact Hs|lia].
Qed.

Lemma attrs_socket {A : Type} (m : M A) :
  frame same_attrs m -> frame same_socket m.
Proof.
  apply frame_weaken. intros e e' [_ Hl].
  unfold link_view in Hl. unfold same_socket. congruence.
Qed.

Lemma set_had_to_clean_socket (b : bool) :
  frame same_socket (modify (set_had_to_clean b)).
Proof. apply frame_modify. intros e. reflexivity. Qed.

Lemma send_message_attrs (sock : option Sock) (data : string) :
  frame same_attrs (send_message sock data).
Proof. unfold send_message. frame_prim. Qed.

Lemma recv_message_attrs (sock : option Sock) :
  frame same_attrs (recv_message sock).
Proof. unfold recv_message. frame_prim. Qed.

Lemma time_time_attrs : frame same_attrs time_time.
Proof. unfold time_time. frame_prim. Qed.

Lemma emit_attrs (ev : event) : frame same_attrs (emit ev).
Proof. unfold emit. frame_prim. Qed.

Lemma sleep_attrs (tenths : Z) : frame same_attrs (sleep tenths).
Proof. apply emit_attrs. Qed.

Lemma kill_attrs (i : Instance) : frame same_attrs (kill i).
Proof. apply emit_attrs. Qed.

Lemma connect_attrs : frame same_attrs connect.
Proof. unfold connect. frame_prim. Qed.

Lemma log_shows_bind_exception_attrs : frame same_attrs log_shows_bind_exception.
Proof. unfold log_shows_bind_exception. frame_prim. Qed.

Lemma get_and_launch_attrs : frame same_attrs get_and_launch.
Proof. unfold get_and_launch. frame_prim. Qed.

Lemma set_done_attrs (b : bool) : frame same_attrs (modify (set_done b)).
Proof. apply frame_modify. intros e. split; reflexivity. Qed.

Lemma set_last_pov_attrs (f : Frame) : frame same_attrs (modify (set_last_pov f)).
Proof. apply frame_modify. intros e. split; reflexivity. Qed.

Lemma set_client_socket_episode (s : option Sock) :
  frame same_episode (modify (set_client_socket s)).
Proof. apply frame_modify. intros e. repeat split. Qed.

Lemma set_had_to_clean_episode (b : bool) :
  frame same_episode (modify (set_had_to_clean b)).
Proof. apply frame_modify. intros e. repeat split. Qed.

Lemma set_instance_episode (i : Instance) :
  frame same_episode (modify (set_instance i)).
Proof. apply frame_modify. intros e. repeat split. Qed.

Lemma next_reset_kept :
  frame session_kept (modify (fun e => set_resets (resets e + 1) e)).
Proof. apply frame_modify. intros e. split; [reflexivity|simpl; lia]. Qed.

#[global] Hint Resolve send_message_attrs recv_message_attrs time_time_attrs
  emit_attrs sleep_attrs kill_attrs connect_attrs
  log_shows_bind_exception_attrs get_and_launch_attrs set_done_attrs
  set_last_pov_attrs set_client_socket_episode set_had_to_clean_episode
  set_instance_episode next_reset_kept set_had_to_clean_socket : frames.
#[global] Hint Resolve attrs_episode | 5 : frames.
#[global] Hint Resolve episode_kept | 6 : frames.
#[global] Hint Resolve attrs_socket | 6 : frames.

Lemma robust_launch_loop_attrs (tries : nat) :
  frame same_attrs (robust_launch_loop tries).
Proof.
  induction tries as [|tries IH]; simpl; [apply frame_raise; apply _|].
  unfold _attempt_launch_new_instance. frame_auto.
Qed.

#[global] Hint Resolve robust_launch_loop_attrs : frames.

Lemma clean_connection_episode : frame same_episode _clean_connection.
Proof. unfold _clean_connection, _robust_launch_new_instance. frame_auto. Qed.

Lemma init_mission_loop_episode (remaining : nat) :
  frame same_episode (init_mission_loop remaining).
Proof.
  induction remaining as [|remaining IH]; simpl; frame_auto.
Qed.

Lemma init_mission_loop_socket (remaining : nat) :
  frame same_socket (init_mission_loop remaining).
Proof.
  induction remaining as [|remaining IH]; simpl; frame_auto.
Qed.

#[global] Hint Resolve clean_connection_episode init_mission_loop_episode
  init_mission_loop_socket : frames.

Section MoreFrames.
Context `{Platform}.

Lemma decode_attrs (b : string) : frame same_attrs (decode b).
Proof. unfold decode. frame_auto. Qed.

Lemma process_observation_attrs (pov info : option string) :
  frame same_attrs (_process_observation pov info).
Proof. unfold _process_observation. frame_auto. Qed.

End MoreFrames.

#[global] Hint Resolve decode_attrs process_observation_attrs : frames.

Section MoreFrames2.
Context `{Platform}.

Lemma step_exchange_attrs (cmd : string) : frame same_attrs (step_exchange cmd).
Proof. unfold step_exchange. frame_auto. Qed.

Lemma quit_episode_attrs : frame same_attrs _quit_episode.
Proof. unfold _quit_episode. frame_auto. Qed.

Lemma peek_obs_episode : frame same_episode _peek_obs.
Proof. unfold _peek_obs. frame_auto. Qed.

Lemma step_episode (action : list (string * pyval)) :
  frame same_episode (step action).
Proof.
  pose proof step_exchange_attrs.
  unfold step, step_recover, sample. frame_auto.
  apply frame_try_except; [apply _ | auto with frames |].
  intros x h. destruct (is_socket_exn x); [|discriminate].
  intros [= <-]. frame_auto.
Qed.

Lemma start_up_once_kept : frame session_kept start_up_once.
Proof.
  pose proof peek_obs_episode.
  unfold start_up_once, _init_mission, _hello. frame_auto.
  apply frame_try_except; [apply _ | frame_auto |].
  intros x h. destruct (is_socket_exn x); [intros [= <-]; frame_auto|].
  destruct (is_RuntimeError x); [intros [= <-]; frame_auto|discriminate].
Qed.

End MoreFrames2.

(** ** What a call that returns guarantees *)

Lemma frame_ok {A : Type} (R : relation Env) (m : M A) (e e1 : Env) (a : A) :
  frame R m -> m e = (Ok a, e1) -> R e e1.
Proof. intros Hm Heq. specialize (Hm e). now rewrite Heq in Hm. Qed.

Lemma attrs_link (e e1 : Env) : same_attrs e e1 -> link_view e1 = link_view e.
Proof. now intros [_ Hl]. Qed.

Section Returns.
Context `{Platform}.

(** [_process_observation] assigns [_last_pov] and nothing else. *)
Lemma process_observation_state (pov info : option string) (e e' : Env)
    (o : ObsDict) :
  _process_observation pov info e = (Ok o, e') ->
  exists f, e' = set_last_pov f e.
Proof.
  unfold _process_observation. destruct pov as [buf|]; [|discriminate].
  intros Hrun.
  apply bind_ok_inv in Hrun as (h & e1 & [= <- <-] & Hrun).
  apply bind_ok_inv in Hrun as (w & e1 & [= <- <-] & Hrun).
  apply bind_ok_inv in Hrun as (d & e1 & [= <- <-] & Hrun).
  apply bind_ok_inv in Hrun as (f & e1 & Hframe & Hrun).
  apply process_observation_frame in Hframe as [-> _].
  apply bind_ok_inv in Hrun as (payload0 & e1 & Hpay & Hrun).
  assert (e1 = e) as ->.
  { destruct info as [s|]; [destruct (String.length s =? 0)%nat|].
    - now injection Hpay as _ <-.
    - unfold lift in Hpay. now injection Hpay as _ <-.
    - now injection Hpay as _ <-. }
  apply bind_ok_inv in Hrun as ([] & e1 & [= <-] & Hrun).
  apply bind_ok_inv in Hrun as (sp & e1 & [= <- <-] & Hrun).
  apply bind_ok_inv in Hrun as (hs & e1 & [= <- <-] & Hrun).
  unfold lift in Hrun. simpl in Hrun.
  destruct (build_obs _ _ _ _ _) as [o'|x]; [|discriminate].
  injection Hrun as _ <-. now exists f.
Qed.

(** A peek that returns has seen a completion flag other than 1 and has
    kept the socket and the rest of the connection. *)
Lemma peek_obs_returns (e e' : Env) (o : ObsDict) :
  _peek_obs e = (Ok o, e') ->
  done e' = false /\ link_view e' = link_view e /\
  client_socket e <> None /\ _last_pov e' <> None.
Proof.
  unfold _peek_obs. intros Hrun.
  apply bind_ok_inv in Hrun as (t0 & e1 & H1 & Hrun).
  apply (frame_ok same_attrs) in H1; [|auto with frames].
  apply attrs_link in H1.
  apply bind_ok_inv in Hrun as (d & e2 & [= <- <-] & Hrun).
  destruct (done e1); simpl in Hrun; [discriminate|].
  apply bind_ok_inv in Hrun as (sock & e2 & [= <- <-] & Hrun).
  apply bind_ok_inv in Hrun as ([] & e2 & H2 & Hrun).
  assert (Hsome : client_socket e1 <> None).
  { intros Hn. rewrite Hn in H2. discriminate H2. }
  apply (frame_ok same_attrs) in H2; [|auto with frames].
  apply attrs_link in H2.
  apply bind_ok_inv in Hrun as (obs & e3 & H3 & Hrun).
  apply (frame_ok same_attrs) in H3; [|auto with frames].
  apply attrs_link in H3.
  apply bind_ok_inv in Hrun as (ib & e4 & H4 & Hrun).
  apply (frame_ok same_attrs) in H4; [|auto with frames].
  apply attrs_link in H4.
  apply bind_ok_inv in Hrun as (info & e5 & H5 & Hrun).
  apply (frame_ok same_attrs) in H5; [|auto with frames].
  apply attrs_link in H5.
  apply bind_ok_inv in Hrun as (reply & e6 & H6 & Hrun).
  apply (frame_ok same_attrs) in H6; [|auto with frames].
  apply attrs_link in H6.
  apply bind_ok_inv in Hrun as (flag & e7 & H7 & Hrun).
  apply (frame_ok same_attrs) in H7; [|apply frame_lift; apply _].
  apply attrs_link in H7.
  apply bind_ok_inv in Hrun as ([] & e8 & [= <-] & Hrun).
  apply bind_ok_inv in Hrun as ([] & e9 & H9 & Hrun).
  assert (Hs9 : link_view e9 = link_view e7 /\ done e9 = (flag =? 1)).
  { destruct (String.length obs =? 0)%nat.
    - apply bind_ok_inv in H9 as (t1 & e10 & H10 & H9).
      pose proof (frame_ok same_attrs _ _ _ _ time_time_attrs H10) as Ha.
      assert (Hd : done e10 = (flag =? 1)).
      { unfold time_time in H10.
        destruct (clock (world (set_done (flag =? 1) e7)));
          now injection H10 as _ <-. }
      apply attrs_link in Ha.
      destruct (t1 - t0 >? MAX_WAIT).
      + apply bind_ok_inv in H9 as (s9 & e11 & _ & H9).
        apply bind_ok_inv in H9 as (u1 & e12 & _ & H9).
        apply bind_ok_inv in H9 as (u2 & e13 & _ & H9). discriminate H9.
      + unfold sleep, emit in H9. injection H9 as <-.
        split; [exact Ha|exact Hd].
    - injection H9 as <-. split; reflexivity. }
  destruct Hs9 as [Hs9 Hd9].
  apply bind_ok_inv in Hrun as (d' & e10 & [= <- <-] & Hrun).
  destruct (done e9) eqn:Hd; [discriminate|].
  apply (process_observation_state (Some obs) (Some info)) in Hrun as [f ->].
  assert (Hl : link_view e9 = link_view e) by congruence.
  split; [exact Hd|]. split; [exact Hl|]. split; [|discriminate].
  unfold link_view in H1. congruence.
Qed.

(** A handshake that returns has touched the world only. *)
Lemma init_mission_loop_returns (remaining : nat) (e e' : Env) :
  init_mission_loop remaining e = (Ok tt, e') -> link_view e' = link_view e.
Proof.
  revert e. induction remaining as [|remaining IH]; intros e;
    rewrite init_mission_loop_unfold; intros Hrun.
  all: apply bind_ok_inv in Hrun as (x & e1 & [= <- <-] & Hrun).
  all: apply bind_ok_inv in Hrun as (token & e1 & [= <- <-] & Hrun).
  all: apply bind_ok_inv in Hrun as (sock & e1 & [= <- <-] & Hrun).
  all: apply bind_ok_inv in Hrun as ([] & e1 & H1 & Hrun).
  all: apply (frame_ok same_attrs) in H1; [|auto with frames].
  all: apply attrs_link in H1.
  all: apply bind_ok_inv in Hrun as ([] & e2 & H2 & Hrun).
  all: apply (frame_ok same_attrs) in H2; [|auto with frames].
  all: apply attrs_link in H2.
  all: apply bind_ok_inv in Hrun as (reply & e3 & H3 & Hrun).
  all: apply (frame_ok same_attrs) in H3; [|auto with frames].
  all: apply attrs_link in H3.
  all: apply bind_ok_inv in Hrun as (ok & e4 & H4 & Hrun).
  all: apply (frame_ok same_attrs) in H4; [|apply frame_lift; apply _].
  all: apply attrs_link in H4.
  all: destruct (ok =? 1); [injection Hrun as <-; congruence|].
  - discriminate Hrun.
  - apply bind_ok_inv in Hrun as (shows & e5 & H5 & Hrun).
    apply (frame_ok same_attrs) in H5; [|auto with frames].
    apply attrs_link in H5.
    destruct shows.
    + apply bind_ok_inv in Hrun as (u & e6 & _ & Hrun). discriminate Hrun.
    + apply bind_ok_inv in Hrun as ([] & e6 & H6 & Hrun).
      apply (frame_ok same_attrs) in H6; [|auto with frames].
      apply attrs_link in H6.
      apply IH in Hrun. congruence.
Qed.

Lemma start_up_try_episode : frame same_episode start_up_try.
Proof.
  pose proof peek_obs_episode.
  unfold start_up_try, _init_mission, _hello. frame_auto.
Qed.

(** One attempt of [_start_up] that returns. *)
Lemma start_up_once_returns (e e' : Env) (o : ObsDict) :
  start_up_once e = (Ok o, e') ->
  done e' = false /\ client_socket e' <> None /\ _last_pov e' <> None /\
  resets e' = resets e + 1 /\
  had_to_clean e' = had_to_clean e /\ instance e' = instance e /\
  _seed e' = _seed e.
Proof.
  rewrite start_up_once_run.
  set (e0 := set_resets (resets e + 1) e).
  destruct (start_up_try e0) as [[o'|x] e1] eqn:Htry.
  - intros [= -> ->].
    unfold start_up_try in Htry.
    apply bind_ok_inv in Htry as (sock & e2 & [= <- <-] & Htry).
    apply bind_ok_inv in Htry as ([] & e3 & Hconn & Htry).
    assert (Hl3 : resets e3 = resets e0 /\ had_to_clean e3 = had_to_clean e0 /\
                  instance e3 = instance e0 /\ _seed e3 = _seed e0).
    { destruct (client_socket e).
      - unfold mret, M_ret in Hconn. injection Hconn as <-. auto.
      - apply bind_ok_inv in Hconn as (s & e4 & H4 & Hconn).
        apply (frame_ok same_attrs) in H4; [|auto with frames].
        apply attrs_link in H4.
        apply bind_ok_inv in Hconn as ([] & e5 & H5 & Hconn).
        apply (frame_ok same_attrs) in H5;
          [|unfold _hello; auto with frames].
        apply attrs_link in H5.
        injection Hconn as <-. clearbody e0. unfold link_view in *.
        simpl. repeat split; congruence. }
    apply bind_ok_inv in Htry as ([] & e4 & Hinit & Htry).
    apply init_mission_loop_returns in Hinit.
    apply bind_ok_inv in Htry as ([] & e5 & [= <-] & Htry).
    apply peek_obs_returns in Htry as (Hd & Hl & Hn & Hp).
    destruct Hl3 as (Hr3 & Hc3 & Hi3 & Hs3).
    unfold link_view in *. simpl in *.
    repeat split; try assumption; congruence.
  - destruct (is_socket_exn x).
    + destruct (_clean_connection e1) as [[[]|y] e2]; discriminate.
    + destruct (is_RuntimeError x); [|discriminate].
      destruct (_clean_connection _) as [[[]|y] e2]; discriminate.
Qed.

(** What returns from the retry wrapper is what the last attempt returned,
    and the attempts before it have kept what each attempt keeps. *)
Lemma retry_loop_returns {A : Type} (R : relation Env) `{!PreOrder R}
    (f : M A) (more : nat) (e e' : Env) (a : A) :
  frame R f ->
  retry_loop more f e = (Ok a, e') ->
  exists e0, R e e0 /\ f e0 = (Ok a, e').
Proof.
  intros Hf. revert e. induction more as [|more IH]; intros e; simpl.
  - destruct (f e) as [[a'|x] e1] eqn:Hrun; [|discriminate].
    intros [= -> ->]. exists e. split; [reflexivity|exact Hrun].
  - destruct (f e) as [[a'|x] e1] eqn:Hrun.
    + intros [= -> ->]. exists e. split; [reflexivity|exact Hrun].
    + intros Hrest. destruct (IH e1 Hrest) as (e0 & Hr & Hlast).
      exists e0. split; [|exact Hlast].
      transitivity e1; [|exact Hr].
      specialize (Hf e). now rewrite Hrun in Hf.
Qed.

Lemma retry_loop_frame {A : Type} (R : relation Env) `{!PreOrder R}
    (f : M A) (more : nat) :
  frame R f -> frame R (retry_loop more f).
Proof.
  intros Hf. induction more as [|more IH]; intros e; simpl.
  - specialize (Hf e). now destruct (f e) as [[a|x] e1].
  - pose proof (Hf e) as He. destruct (f e) as [[a|x] e1]; [exact He|].
    transitivity e1; [exact He|apply IH].
Qed.

(** The quit loop touches the world and the [done] flag only. *)
Lemma quit_loop_attrs (fuel : nat) (e e1 : Env) (r : res unit) :
  quit_loop fuel e = Some (r, e1) -> same_attrs e e1.
Proof.
  revert e. induction fuel as [|fuel IH]; intros e; simpl.
  - destruct (done e); [|discriminate]. intros [= _ <-]. reflexivity.
  - destruct (done e); [intros [= _ <-]; reflexivity|].
    pose proof (quit_episode_attrs e) as Hq.
    destruct (_quit_episode e) as [[ok|x] e2]; simpl in *.
    + destruct ok; simpl; intros Hrest; apply IH in Hrest;
        (transitivity e2; [exact Hq|]); (etransitivity; [|exact Hrest]).
      * split; reflexivity.
      * split; reflexivity.
    + intros [= _ <-]. exact Hq.
Qed.

(** X15: a [reset] that returns an observation leaves an environment that
    can be stepped: [done] is false, there is a socket, [_last_pov] holds
    an image, and the reset count has grown. *)
Theorem reset_returns_ready (fuel : nat) (e e' : Env) (o : ObsDict) :
  reset fuel e = Some (Ok o, e') ->
  done e' = false /\ client_socket e' <> None /\ _last_pov e' <> None /\
  resets e < resets e'.
Proof.
  unfold reset. destruct (reset_body fuel e) as [[r e1]|] eqn:Hbody;
    [|discriminate].
  intros [= -> <-]. unfold reset_body in Hbody.
  assert (Hinit : exists e0, resets e0 = resets e /\
            exists e2, quit_loop fuel e0 = Some (Ok tt, e2) /\
                       _start_up e2 = (Ok o, e1)).
  { destruct (has_init e).
    - exists e. split; [reflexivity|].
      destruct (quit_loop fuel e) as [[[[]|x] e2]|]; try discriminate.
      exists e2. split; [reflexivity|]. now injection Hbody.
    - unfold init in *. destruct (xml_file e) as [m|x]; [|discriminate].
      exists (set_mission m e). split; [reflexivity|].
      destruct (quit_loop fuel _) as [[[[]|x] e2]|]; try discriminate.
      exists e2. split; [reflexivity|]. now injection Hbody. }
  destruct Hinit as (e0 & Hr0 & e2 & Hquit & Hstart).
  apply quit_loop_attrs in Hquit as [_ Hl].
  assert (Hr2 : resets e2 = resets e0) by (unfold link_view in Hl; congruence).
  unfold _start_up, retry in Hstart.
  apply (retry_loop_returns session_kept) in Hstart as (e3 & [_ Hr3] & Hlast);
    [|apply start_up_once_kept].
  apply start_up_once_returns in Hlast as (Hd & Hs & Hp & Hr & _).
  simpl. repeat split; try assumption. lia.
Qed.

(** X16: a [reset] of an initialized environment, however it ends, keeps
    the action and observation spaces, the handlers, the mission and the
    frame shape, and never lowers the reset count. *)
Theorem reset_keeps_session (fuel : nat) (e e' : Env) (r : res ObsDict) :
  has_init e = true ->
  reset fuel e = Some (r, e') ->
  static_view e' = static_view e /\ resets e <= resets e'.
Proof.
  intros Hinit. unfold reset, reset_body. rewrite Hinit.
  destruct (quit_loop fuel e) as [[[[]|x] e1]|] eqn:Hquit; [| |discriminate].
  - apply quit_loop_attrs in Hquit as [Hs Hl].
    pose proof (retry_loop_frame session_kept start_up_once
                  (pred retry_attempts) start_up_once_kept e1) as [Hs' Hr'].
    unfold _start_up, retry.
    destruct (retry_loop _ _ e1) as [r1 e2]. simpl in *.
    intros [= _ <-]. unfold link_view in Hl.
    split; [transitivity (static_view e2); [reflexivity|congruence]|].
    assert (resets e1 = resets e) by congruence. simpl. lia.
  - apply quit_loop_attrs in Hquit as [Hs Hl].
    intros [= _ <-]. unfold link_view in Hl.
    split; [exact Hs|].
    assert (resets e1 = resets e) by congruence. simpl. lia.
Qed.

(** X17: success does not clear the recovery flag. An attempt of
    [_start_up] that returns leaves [had_to_clean], the instance and the
    seed as they were, and so does a [reset] of an initialized
    environment that returns an observation when the retry wrapper makes
    a single attempt, the seed apart: an environment that was cleaned
    once stays marked through every episode that starts well. *)
Theorem success_keeps_recovery_flag (fuel : nat) (e e' : Env) (o : ObsDict) :
  (start_up_once e = (Ok o, e') ->
   had_to_clean e' = had_to_clean e /\ instance e' = instance e /\
   _seed e' = _seed e) /\
  ((retry_attempts <= 1)%nat -> has_init e = true ->
   reset fuel e = Some (Ok o, e') ->
   had_to_clean e' = had_to_clean e /\ instance e' = instance e).
Proof.
  split.
  - intros Hrun.
    now apply start_up_once_returns in Hrun as (_ & _ & _ & _ & Hrest).
  - intros Hbudget Hinit. unfold reset, reset_body. rewrite Hinit.
    destruct (quit_loop fuel e) as [[[[]|x] e1]|] eqn:Hquit;
      try discriminate.
    apply quit_loop_attrs in Hquit as [_ Hl].
    unfold _start_up, retry.
    replace (pred retry_attempts) with 0%nat by lia. simpl.
    destruct (start_up_once e1) as [[o1|x] e2] eqn:Hrun; [|discriminate].
    intros [= -> <-].
    apply start_up_once_returns in Hrun as (_ & _ & _ & _ & Hc & Hi & _).
    unfold link_view in Hl. simpl. split; congruence.
Qed.

(** X18: [step], however it ends, keeps the action and observation spaces,
    the handlers, the mission and the frame shape, the reset count and the
    seed. *)
Theorem step_keeps_episode (action : list (string * pyval)) (e : Env) :
  static_view (step action e).2 = static_view e /\
  resets (step action e).2 = resets e /\
  _seed (step action e).2 = _seed e.
Proof. apply step_episode. Qed.

End Returns.

(** ** More on [step] *)

Section MoreStep.
Context `{Platform}.

(** An exchange that returns. *)
Lemma step_exchange_returns (cmd : string) (e e' : Env) (o : ObsDict)
    (r : reward) (d : bool) (i : gmap string string) :
  step_exchange cmd e = (Ok (o, r, d, i), e') ->
  done e = false /\ done e' = d /\ client_socket e <> None /\
  _last_pov e' <> None.
Proof.
  unfold step_exchange. intros Hrun.
  apply bind_ok_inv in Hrun as (d0 & e1 & [= <- <-] & Hrun).
  destruct (done e) eqn:Hd; [discriminate|]. cbn [negb] in Hrun.
  apply bind_ok_inv in Hrun as (sock & e1 & [= <- <-] & Hrun).
  apply bind_ok_inv in Hrun as ([] & e1 & H1 & Hrun).
  assert (Hsome : client_socket e <> None).
  { intros Hn. rewrite Hn in H1. discriminate H1. }
  apply bind_ok_inv in Hrun as (sock2 & e2 & [= <- <-] & Hrun).
  apply bind_ok_inv in Hrun as (obs & e2 & H2 & Hrun).
  apply bind_ok_inv in Hrun as (sock3 & e3 & [= <- <-] & Hrun).
  apply bind_ok_inv in Hrun as (reply & e3 & H3 & Hrun).
  apply bind_ok_inv in Hrun as ([[rew dflag] sent] & e4 & H4 & Hrun).
  apply bind_ok_inv in Hrun as (info & e5 & H5 & Hrun).
  apply bind_ok_inv in Hrun as (out & e6 & H6 & Hrun).
  apply (process_observation_state (Some obs) (Some info)) in H6 as [f ->].
  apply bind_ok_inv in Hrun as ([] & e7 & [= <-] & Hrun).
  apply bind_ok_inv in Hrun as (d' & e8 & [= <- <-] & Hrun).
  injection Hrun as _ _ <- _ <-. simpl. repeat split; auto.
Qed.

(** X19: a tuple that [step] returns carries the [done] flag the
    environment now holds, and the episode was not over before. When that
    flag is false no recovery took place: the socket, [had_to_clean] and
    the instance are the ones of before, and [_last_pov] holds the image
    of the observation. *)
Theorem step_returns_flag (action : list (string * pyval)) (e e' : Env)
    (o : ObsDict) (r : reward) (d : bool) (i : gmap string string) :
  step action e = (Ok (o, r, d, i), e') ->
  done e = false /\ done e' = d /\
  (d = false ->
   client_socket e' = client_socket e /\ client_socket e <> None /\
   had_to_clean e' = had_to_clean e /\ instance e' = instance e /\
   _last_pov e' <> None).
Proof.
  intros Hstep.
  destruct (_process_action (action_space e) action) as [cmd|x] eqn:Hcmd.
  - rewrite (step_unfold e action cmd Hcmd) in Hstep.
    destruct (step_exchange cmd e) as [[t|x] e1] eqn:Hex.
    + injection Hstep as -> ->.
      pose proof (frame_ok same_attrs _ _ _ _ (step_exchange_attrs cmd) Hex)
        as [_ Hl].
      apply step_exchange_returns in Hex as (Hd & Hd' & Hs & Hp).
      unfold link_view in Hl.
      split; [exact Hd|]. split; [exact Hd'|]. intros _.
      repeat split; try assumption; congruence.
    + assert (Hd : done e = false).
      { destruct (done e) eqn:Hd; [|reflexivity].
        unfold step_exchange, mbind, M_bind, gets, raise in Hex.
        rewrite Hd in Hex. simpl in Hex.
        injection Hex as <- _. discriminate Hstep. }
      destruct (is_socket_exn x); [|discriminate].
      rewrite step_recover_unfold in Hstep.
      destruct (_clean_connection e1) as [[[]|y] e2]; [|discriminate].
      injection Hstep as _ _ <- _ <-.
      split; [exact Hd|]. split; [reflexivity|discriminate].
  - unfold step in Hstep. unfold mbind at 1 in Hstep.
    unfold M_bind at 1 in Hstep. unfold gets at 1 in Hstep.
    unfold mbind at 1 in Hstep. unfold M_bind at 1 in Hstep.
    unfold lift at 1 in Hstep. rewrite Hcmd in Hstep. discriminate Hstep.
Qed.

(** The exchange up to the point where the observation is built. *)
Lemma step_exchange_reads (cmd : string) (e : Env) (s : Sock)
    (obs reply info rew : string) (dflag sent : Z) (rest : list incoming) :
  done e = false ->
  client_socket e = Some s ->
  next_send_ok (world e) = true ->
  inbox (world e) = Msg obs :: Msg reply :: Msg info :: rest ->
  unpack_dbb reply = Ok (rew, dflag, sent) ->
  utf8_ok info = true ->
  exists w1,
    step_exchange cmd e =
      (out_obs ← _process_observation (Some obs) (Some info);
       modify (set_done (dflag =? 1));;
       d' ← gets done;
       mret (out_obs, RewardDouble rew, d', ∅)) (set_world w1 e) /\
    trace w1 = trace (world e) ++ [EvSend s (step_request cmd)] /\
    inbox w1 = rest.
Proof.
  intros Hdone Hsock Hsend Hin Hreply Hutf.
  destruct e as [? ? ? ? ? ? ? ? ? ? ? ? ? ? sock d ? ? ? ?
                   [inb sf ? ? ? ck nw ? ? ? tr]].
  simpl in Hdone, Hsock, Hin, Hsend. subst d sock inb.
  unfold next_send_ok in Hsend. simpl in Hsend.
  unfold step_exchange, withinfo, decode.
  change ((STEP_OPTIONS =? 0) || (STEP_OPTIONS =? 2)) with true.
  unfold mbind at 1. unfold M_bind at 1. unfold gets at 1.
  cbn [done negb].
  unfold mbind at 1. unfold M_bind at 1. unfold gets at 1.
  cbn [client_socket].
  unfold mbind at 1. unfold M_bind at 1. unfold send_message at 1.
  cbn [world send_faults].
  destruct sf as [|[f|] sf]; try discriminate Hsend.
  all: cbn -[_process_observation unpack_dbb Z.eqb pretty].
  all: unfold mbind at 1; unfold M_bind at 1; unfold gets at 1.
  all: unfold mbind at 1; unfold M_bind at 1; unfold recv_message at 1.
  all: cbn -[_process_observation unpack_dbb Z.eqb pretty].
  all: unfold mbind at 1; unfold M_bind at 1; unfold gets at 1.
  all: unfold mbind at 1; unfold M_bind at 1; unfold recv_message at 1.
  all: cbn -[_process_observation unpack_dbb Z.eqb pretty].
  all: unfold mbind at 1; unfold M_bind at 1; unfold lift at 1.
  all: rewrite Hreply.
  all: unfold mbind at 1; unfold M_bind at 1.
  all: unfold mbind at 1; unfold M_bind at 1; unfold gets at 1.
  all: unfold mbind at 1; unfold M_bind at 1; unfold recv_message at 1.
  all: cbn -[_process_observation unpack_dbb Z.eqb pretty].
  all: rewrite Hutf.
  all: unfold mret at 1; unfold M_ret at 1.
  all: eexists; (split; [reflexivity|]); cbn; repeat split.
Qed.

(** X20: a step whose exchange goes through. [step] sends one
    [<Step0>] request with the marshalled command, reads the pixels, then
    the reply with the reward and the flags, then the info, and returns
    the observation built from the pixels and the info, the reward of the
    reply, [done] as the reply says, and an empty info map. *)
Theorem step_exchanges_in_order (action : list (string * pyval)) (e : Env)
    (s : Sock) (cmd obs reply info rew : string) (dflag sent : Z)
    (rest : list incoming) :
  _process_action (action_space e) action = Ok cmd ->
  done e = false ->
  client_socket e = Some s ->
  next_send_ok (world e) = true ->
  inbox (world e) = Msg obs :: Msg reply :: Msg info :: rest ->
  unpack_dbb reply = Ok (rew, dflag, sent) ->
  utf8_ok info = true ->
  exists e1,
    trace (world e1) = trace (world e) ++ [EvSend s (step_request cmd)] /\
    inbox (world e1) = rest /\
    forall o e2,
      _process_observation (Some obs) (Some info) e1 = (Ok o, e2) ->
      step action e =
        (Ok (o, RewardDouble rew, dflag =? 1, ∅), set_done (dflag =? 1) e2).
Proof.
  intros Hcmd Hdone Hsock Hsend Hin Hreply Hutf.
  destruct (step_exchange_reads cmd e s obs reply info rew dflag sent rest
              Hdone Hsock Hsend Hin Hreply Hutf) as (w1 & Hrun & Htr & Hrest).
  exists (set_world w1 e). split; [exact Htr|]. split; [exact Hrest|].
  intros o e2 Hobs. rewrite (step_unfold e action cmd Hcmd), Hrun.
  unfold mbind at 1. unfold M_bind at 1. rewrite Hobs. reflexivity.
Qed.

End MoreStep.

Section MoreStep2.
Context `{Platform}.

(** X21: a reply to a step that is not ten bytes long makes [step] raise
    [struct.error]. Nothing recovers from it: the socket, [had_to_clean],
    the instance and [done] are as before, and the info message that the
    remote sends after the reply is still unread. *)
Theorem step_malformed_reply (action : list (string * pyval)) (e : Env)
    (s : Sock) (cmd obs reply : string) (rest : list incoming) :
  _process_action (action_space e) action = Ok cmd ->
  done e = false ->
  client_socket e = Some s ->
  next_send_ok (world e) = true ->
  inbox (world e) = Msg obs :: Msg reply :: rest ->
  String.length reply <> 10%nat ->
  exists e',
    step action e = (Raise struct_error, e') /\
    done e' = false /\ client_socket e' = Some s /\
    had_to_clean e' = had_to_clean e /\ instance e' = instance e /\
    trace (world e') = trace (world e) ++ [EvSend s (step_request cmd)] /\
    inbox (world e') = rest.
Proof.
  intros Hcmd Hdone Hsock Hsend Hin Hlen.
  assert (Hreply : unpack_dbb reply = Raise struct_error).
  { unfold unpack_dbb. apply Nat.eqb_neq in Hlen. now rewrite Hlen. }
  rewrite (step_unfold e action cmd Hcmd).
  destruct e as [? ? ? ? ? ? ? ? ? ? ? ? ? ? sock d ? ? ? ?
                   [inb sf ? ? ? ck nw ? ? ? tr]].
  simpl in Hdone, Hsock, Hin, Hsend. subst d sock inb.
  unfold next_send_ok in Hsend. simpl in Hsend.
  unfold step_exchange.
  unfold mbind at 1. unfold M_bind at 1. unfold gets at 1.
  cbn [done negb].
  unfold mbind at 1. unfold M_bind at 1. unfold gets at 1.
  cbn [client_socket].
  unfold mbind at 1. unfold M_bind at 1. unfold send_message at 1.
  cbn [world send_faults].
  destruct sf as [|[f|] sf]; try discriminate Hsend.
  all: cbn -[_process_observation unpack_dbb Z.eqb pretty].
  all: unfold mbind at 1; unfold M_bind at 1; unfold gets at 1.
  all: unfold mbind at 1; unfold M_bind at 1; unfold recv_message at 1.
  all: cbn -[_process_observation unpack_dbb Z.eqb pretty].
  all: unfold mbind at 1; unfold M_bind at 1; unfold gets at 1.
  all: unfold mbind at 1; unfold M_bind at 1; unfold recv_message at 1.
  all: cbn -[_process_observation unpack_dbb Z.eqb pretty].
  all: unfold mbind at 1; unfold M_bind at 1; unfold lift at 1.
  all: rewrite Hreply.
  all: cbn -[_process_observation unpack_dbb Z.eqb pretty].
  all: eexists; (split; [reflexivity|]); cbn; repeat split.
Qed.

End MoreStep2.

(** ** More on [reset] *)

Ltac quit_run :=
  unfold _quit_episode, mbind, M_bind, gets, send_message, recv_message,
    lift, mret, M_ret;
  cbn -[unpack_I Z.eqb].

(** A quit request that fails. *)
Lemma quit_episode_raises (e e1 : Env) (x : exn) :
  _quit_episode e = (Raise x, e1) ->
  link_view e1 = link_view e /\ done e1 = done e /\
  (trace (world e1) = trace (world e) \/
   exists s, client_socket e = Some s /\
             trace (world e1) = trace (world e) ++ [EvSend s quit_request]).
Proof.
  destruct e as [? ? ? ? ? ? ? ? ? ? ? ? ? ? sock ? ? ? ? ?
                   [inb sf ? ? ? ? ? ? ? ? tr]].
  quit_run.
  destruct sock as [s|]; [|intros [= _ <-]; auto].
  destruct sf as [|[f|] sf]; cbn -[unpack_I Z.eqb];
    try (intros [= _ <-]; now auto).
  all: destruct inb as [|[data|f] inb]; cbn -[unpack_I Z.eqb];
    try (intros [= _ <-]; split; [reflexivity|]; split; [reflexivity|];
         right; exists s; now split).
  all: destruct (unpack_I data) as [n|y]; cbn -[unpack_I Z.eqb];
    try discriminate.
  all: intros [= _ <-]; split; [reflexivity|]; split; [reflexivity|];
    right; exists s; now split.
Qed.

(** A quit request that is answered. *)
Lemma quit_episode_answered (e : Env) (s : Sock) (a : string) (n : Z)
    (rest : list incoming) :
  client_socket e = Some s ->
  send_faults (world e) = [] ->
  inbox (world e) = Msg a :: rest ->
  unpack_I a = Ok n ->
  exists w',
    _quit_episode e = (Ok (negb (n =? 0)), set_world w' e) /\
    trace w' = trace (world e) ++ [EvSend s quit_request] /\
    inbox w' = rest /\ send_faults w' = [].
Proof.
  intros Hsock Hsf Hin Ha.
  destruct e as [? ? ? ? ? ? ? ? ? ? ? ? ? ? sock ? ? ? ? ?
                   [inb sf ? ? ? ? ? ? ? ? tr]].
  simpl in Hsock, Hsf, Hin. subst sock sf inb.
  quit_run. rewrite Ha. cbn -[Z.eqb].
  eexists. split; [reflexivity|]. cbn. repeat split.
Qed.

Lemma quit_loop_unfold (fuel : nat) (e : Env) :
  quit_loop (S fuel) e =
    if done e then Some (Ok tt, e)
    else
      match _quit_episode e with
      | (Raise x, e') => Some (Raise x, e')
      | (Ok ok, e') =>
          let e' := set_done ok e' in
          if done e' then quit_loop fuel e'
          else quit_loop fuel (snd (sleep 1 e'))
      end.
Proof. reflexivity. Qed.

(** Quit requests answered with 0, then one answered with something else. *)
Lemma quit_loop_drains (k fuel : nat) (e : Env) (s : Sock) (a b : string)
    (n : Z) (rest : list incoming) :
  (k < fuel)%nat ->
  done e = false ->
  client_socket e = Some s ->
  send_faults (world e) = [] ->
  inbox (world e) = replicate k (Msg a) ++ Msg b :: rest ->
  unpack_I a = Ok 0 -> unpack_I b = Ok n -> n <> 0 ->
  exists e1,
    quit_loop fuel e = Some (Ok tt, e1) /\
    done e1 = true /\ same_attrs e e1 /\
    trace (world e1) =
      trace (world e) ++ quit_rounds k s ++ [EvSend s quit_request] /\
    inbox (world e1) = rest.
Proof.
  revert fuel e. induction k as [|k IH];
    intros fuel e Hk Hdone Hsock Hsf Hin Ha Hb Hn.
  all: destruct fuel as [|fuel]; [lia|].
  all: rewrite quit_loop_unfold, Hdone.
  - destruct (quit_episode_answered e s b n rest Hsock Hsf Hin Hb)
      as (w' & -> & Htr & Hrest & _).
    assert (Hn0 : (n =? 0) = false) by lia. rewrite Hn0.
    cbn [negb done set_done].
    exists (set_done true (set_world w' e)). split.
    { destruct fuel; reflexivity. }
    split; [reflexivity|]. split; [split; reflexivity|].
    split; [exact Htr|exact Hrest].
  - destruct (quit_episode_answered e s a 0 _ Hsock Hsf Hin Ha)
      as (w' & -> & Htr & Hrest & Hsf').
    cbn [Z.eqb negb done set_done].
    set (e1 := (sleep 1 (set_done false (set_world w' e))).2).
    destruct (IH fuel e1 ltac:(lia) eq_refl Hsock Hsf' Hrest Ha Hb Hn)
      as (e2 & Hrun & Hd & Hattrs & Htr2 & Hrest2).
    exists e2. split; [exact Hrun|]. split; [exact Hd|].
    split.
    { transitivity e1; [split; reflexivity|exact Hattrs]. }
    split; [|exact Hrest2].
    rewrite Htr2. cbn. rewrite Htr. now rewrite <- !app_assoc.
Qed.

Section MoreReset.
Context `{Platform}.

(** X22: [reset] on an episode that is not over asks the remote to quit
    until the answer is not 0, sleeping a tenth of a second after each 0,
    and only then starts the new episode: after [k] answers of 0 and one
    that is not, [k + 1] quit requests have been sent, [done] is set, and
    [_start_up] runs on a connection that is otherwise as it was. *)
Theorem reset_drains_episode (k fuel : nat) (e : Env) (s : Sock)
    (a b : string) (n : Z) (rest : list incoming) :
  has_init e = true ->
  (k < fuel)%nat ->
  done e = false ->
  client_socket e = Some s ->
  send_faults (world e) = [] ->
  inbox (world e) = replicate k (Msg a) ++ Msg b :: rest ->
  unpack_I a = Ok 0 -> unpack_I b = Ok n -> n <> 0 ->
  exists e1,
    reset fuel e = Some ((_start_up e1).1, set_seed None (_start_up e1).2) /\
    done e1 = true /\ link_view e1 = link_view e /\
    trace (world e1) =
      trace (world e) ++ quit_rounds k s ++ [EvSend s quit_request] /\
    inbox (world e1) = rest.
Proof.
  intros Hinit Hk Hdone Hsock Hsf Hin Ha Hb Hn.
  destruct (quit_loop_drains k fuel e s a b n rest Hk Hdone Hsock Hsf Hin
              Ha Hb Hn) as (e1 & Hrun & Hd & [_ Hl] & Htr & Hrest).
  exists e1. split; [|auto].
  unfold reset, reset_body. rewrite Hinit, Hrun.
  now destruct (_start_up e1) as [r e2].
Qed.

(** X23: a quit request that fails ends [reset] with the exception of the
    failure, whatever it is. Unlike [step] and [_start_up], [reset] does
    not clean the connection on this path: the socket, [had_to_clean], the
    instance and the reset count are as before, [done] is still false,
    and at most the quit request was sent. The seed is cleared all the
    same. *)
Theorem reset_quit_failure (fuel : nat) (e e1 : Env) (x : exn) :
  has_init e = true ->
  done e = false ->
  _quit_episode e = (Raise x, e1) ->
  exists e',
    reset (S fuel) e = Some (Raise x, e') /\
    client_socket e' = client_socket e /\
    had_to_clean e' = had_to_clean e /\ instance e' = instance e /\
    resets e' = resets e /\ done e' = false /\ _seed e' = None /\
    (trace (world e') = trace (world e) \/
     exists s, client_socket e = Some s /\
               trace (world e') = trace (world e) ++ [EvSend s quit_request]).
Proof.
  intros Hinit Hdone Hquit.
  exists (set_seed None e1). split.
  { unfold reset, reset_body. rewrite Hinit, quit_loop_unfold, Hdone, Hquit.
    reflexivity. }
  apply quit_episode_raises in Hquit as (Hl & Hd & Htr).
  unfold link_view in Hl. injection Hl as Hr Hs _ Hc Hi.
  simpl. repeat split; try assumption; congruence.
Qed.

End MoreReset.

(** ** The properties above, on sample runs *)

Lemma reset_returns_ready_witness :
  let e := sample_env true false (Some 7)
             (sample_world [Msg (ack 1); Msg "abcdef"; Msg "{}";
                            Msg flag_unset] [] []) in
  exists o e',
    reset (H := sample_platform) 1 e = Some (Ok o, e') /\
    done e' = false /\ client_socket e' <> None /\ _last_pov e' <> None /\
    resets e < resets e'.
Proof.
  intros e.
  destruct (reset (H := sample_platform) 1 e) as [[[o|x] e']|] eqn:Hrun;
    [|vm_compute in Hrun; discriminate ..].
  exists o, e'. split; [reflexivity|].
  exact (reset_returns_ready (H := sample_platform) 1 e e' o Hrun).
Defined.

Lemma reset_keeps_session_witness :
  let e := sample_env true false None (sample_world [] [] []) in
  exists r e',
    reset (H := sample_platform) 1 e = Some (r, e') /\
    static_view e' = static_view e /\ resets e <= resets e'.
Proof.
  intros e.
  destruct (reset (H := sample_platform) 1 e) as [[r e']|] eqn:Hrun;
    [|vm_compute in Hrun; discriminate].
  exists r, e'. split; [reflexivity|].
  exact (reset_keeps_session (H := sample_platform) 1 e e' r eq_refl Hrun).
Defined.

Lemma step_returns_flag_witness :
  let e := sample_env false false None
             (sample_world [Msg "abcdef"; Msg step_reply; Msg "{}"] [] []) in
  exists o r d i e',
    step (H := sample_platform) sample_action e = (Ok (o, r, d, i), e') /\
    done e = false /\ done e' = d /\
    (d = false ->
     client_socket e' = client_socket e /\ client_socket e <> None /\
     had_to_clean e' = had_to_clean e /\ instance e' = instance e /\
     _last_pov e' <> None).
Proof.
  intros e.
  destruct (step (H := sample_platform) sample_action e)
    as [[[[[o r] d] i]|x] e'] eqn:Hrun; [|vm_compute in Hrun; discriminate].
  exists o, r, d, i, e'. split; [reflexivity|].
  exact (step_returns_flag (H := sample_platform) sample_action e e' o r d i
           Hrun).
Defined.

Lemma step_exchanges_in_order_witness :
  let e := sample_env false false None
             (sample_world [Msg "abcdef"; Msg step_reply; Msg "{}"] [] []) in
  let cmd := String.concat newline ["camera 0 5"; "turn left"] in
  let rew := String.substring 0 8 step_reply in
  exists e1,
    trace (world e1) = trace (world e) ++ [EvSend 0%nat (step_request cmd)] /\
    inbox (world e1) = [] /\
    forall o e2,
      _process_observation (H := sample_platform) (Some "abcdef") (Some "{}")
        e1 = (Ok o, e2) ->
      step (H := sample_platform) sample_action e =
        (Ok (o, RewardDouble rew, 0 =? 1, ∅), set_done (0 =? 1) e2).
Proof.
  intros e cmd rew.
  apply (step_exchanges_in_order (H := sample_platform) sample_action e 0%nat
           cmd "abcdef" step_reply "{}" rew 0 1 []); reflexivity.
Defined.

Lemma step_malformed_reply_witness :
  let e := sample_env false false None
             (sample_world [Msg "abcdef"; Msg "short"; Msg "{}"] [] []) in
  let cmd := String.concat newline ["camera 0 5"; "turn left"] in
  exists e',
    step (H := sample_platform) sample_action e = (Raise struct_error, e') /\
    done e' = false /\ client_socket e' = Some 0%nat /\
    had_to_clean e' = had_to_clean e /\ instance e' = instance e /\
    trace (world e') = trace (world e) ++ [EvSend 0%nat (step_request cmd)] /\
    inbox (world e') = [Msg "{}"].
Proof.
  intros e cmd.
  apply (step_malformed_reply (H := sample_platform) sample_action e 0%nat
           cmd "abcdef" "short" [Msg "{}"]); try reflexivity.
  simpl. lia.
Defined.

Lemma reset_drains_episode_witness :
  let e := sample_env false false None
             (sample_world [Msg (ack 0); Msg (ack 0); Msg (ack 1)] [] []) in
  exists e1,
    reset (H := sample_platform) 3 e =
      Some ((_start_up (H := sample_platform) e1).1,
            set_seed None (_start_up (H := sample_platform) e1).2) /\
    done e1 = true /\ link_view e1 = link_view e /\
    trace (world e1) =
      trace (world e) ++ quit_rounds 2 0%nat ++ [EvSend 0%nat quit_request] /\
    inbox (world e1) = [].
Proof.
  intros e.
  apply (reset_drains_episode (H := sample_platform) 2 3 e 0%nat (ack 0)
           (ack 1) 1 []); try reflexivity; lia.
Defined.

Lemma reset_quit_failure_witness :
  let e := sample_env false false (Some 7) (sample_world [] [] []) in
  exists e',
    reset (H := sample_platform) 1 e = Some (Raise socket_timeout, e') /\
    client_socket e' = client_socket e /\
    had_to_clean e' = had_to_clean e /\ instance e' = instance e /\
    resets e' = resets e /\ done e' = false /\ _seed e' = None /\
    (trace (world e') = trace (world e) \/
     exists s, client_socket e = Some s /\
               trace (world e') = trace (world e) ++ [EvSend s quit_request]).
Proof.
  intros e.
  apply (reset_quit_failure (H := sample_platform) 0 e (_quit_episode e).2
           socket_timeout); reflexivity.
Defined.

Lemma success_keeps_recovery_flag_witness :
  let e := sample_env true true None
             (sample_world [Msg (ack 1); Msg "abcdef"; Msg "{}";
                            Msg flag_unset] [] []) in
  exists o e',
    start_up_once (H := sample_platform) e = (Ok o, e') /\
    had_to_clean e' = true /\ instance e' = 0%nat.
Proof.
  intros e.
  destruct (start_up_once (H := sample_platform) e) as [[o|x] e'] eqn:Hrun;
    [|vm_compute in Hrun; discriminate].
  exists o, e'. split; [reflexivity|].
  destruct (success_keeps_recovery_flag (H := sample_platform) 1 e e' o)
    as [Hone _].
  destruct (Hone Hrun) as (Hc & Hi & _). split; [exact Hc|exact Hi].
Defined.

(** ** The constructor and [close] *)

Lemma dict_set_lookup {A : Type} (k k' : string) (v : A)
    (d : list (string * A)) :
  assoc k' (dict_set k v d) = if String.eqb k' k then Some v else assoc k' d.
Proof.
  induction d as [|[k0 v0] d IH]; simpl.
  - destruct (String.eqb_spec k' k); reflexivity.
  - destruct (String.eqb_spec k k0) as [->|Hne]; simpl.
    + destruct (String.eqb_spec k' k0); reflexivity.
    + rewrite IH. destruct (String.eqb_spec k' k0) as [->|Hne'];
        [|reflexivity].
      destruct (String.eqb_spec k0 k) as [->|_]; [now destruct Hne|reflexivity].
Qed.

(** In an updated dictionary the update wins, and the other keys are
    kept. *)
Lemma dict_update_lookup {A : Type} (k : string) (d upd : list (string * A)) :
  NoDup (map fst upd) ->
  assoc k (dict_update d upd) =
    match assoc k upd with
    | Some v => Some v
    | None => assoc k d
    end.
Proof.
  unfold dict_update. revert d.
  induction upd as [|[k0 v0] upd IH]; intros d Hnd; [reflexivity|].
  apply NoDup_cons in Hnd as [Hnot Hnd]. simpl.
  rewrite (IH _ Hnd), dict_set_lookup.
  destruct (String.eqb_spec k k0) as [->|Hne]; [|reflexivity].
  assert (Hnone : assoc k0 upd = None).
  { clear -Hnot. induction upd as [|[k1 v1] upd IH]; [reflexivity|].
    simpl. destruct (String.eqb_spec k0 k1) as [->|Hne].
    - destruct Hnot. simpl. apply list_elem_of_here.
    - apply IH. intros Hin. apply Hnot. simpl. now apply list_elem_of_further. }
  now rewrite Hnone.
Qed.

Section Constructor.
Context `{Platform}.


(** X25: the handlers of a new environment are the built-in ones, updated
    with those given to the constructor: a given handler wins over the
    built-in one of the same key, and the built-in handlers of the other
    keys stay. *)
Theorem constructor_handlers (xml : res Mission)
    (observation_space : ObsSpace) (action_space : list (string * Space))
    (given : list (string * Handler)) (w w' : World) (self : MineRLEnv)
    (k : string) :
  NoDup (map fst given) ->
  __init__ xml observation_space action_space (Some given) w = (Ok self, w') ->
  assoc k (obs_handlers (env self)) =
    match assoc k given with
    | Some handler_fn => Some handler_fn
    | None => assoc k DEFAULT_OBS_HANDLERS
    end.
Proof.
  intros Hnd. unfold __init__.
  destruct (_robust_launch_new_instance _) as [[i|x] e1] eqn:Hrun;
    [|discriminate].
  intros [= <- _].
  pose proof (frame_ok same_attrs _ _ _ _ (robust_launch_loop_attrs 3) Hrun)
    as [Hs _].
  unfold static_view in Hs. cbn in Hs.
  injection Hs as _ _ Hh _ _ _ _ _ _ _ _ _ _.
  cbn [env set_done set_resets set_instance obs_handlers].
  rewrite Hh. now apply dict_update_lookup.
Qed.

End Constructor.

(** X26: [close] is final. A second call changes nothing, whatever the
    instance reports. A first call closes the socket, if there is one,
    without shutting it down, forgets it, and kills the instance exactly
    when it reports to be running; a call on an environment already
    closed does no more than drop the viewer. *)
Theorem close_is_final (running again : bool) (self : MineRLEnv) :
  let self' := close running self in
  close again self' = self' /\
  is_closed self' = true /\ viewer self' = false /\
  if is_closed self then env self' = env self
  else
    client_socket (env self') = None /\
    instance (env self') = instance (env self) /\
    trace (world (env self')) =
      trace (world (env self))
      ++ match client_socket (env self) with
         | Some s => [EvClose s]
         | None => []
         end
      ++ (if running then [EvKill (instance (env self))] else []).
Proof.
  destruct self as [e v c]. unfold close, is_closed.
  cbn [viewer _already_closed env].
  destruct v, c; cbn [viewer _already_closed env]; auto.
  all: destruct (client_socket e) as [s|] eqn:Hs; destruct running;
    cbn; rewrite ?Hs; repeat split;
    cbn; rewrite ?app_nil_r, <- ?app_assoc; reflexivity.
Qed.

(** ** Observations that are abandoned *)

(** A key without a handler, or whose handler raises [KeyError], abandons
    what the loop has built. *)
Lemma build_obs_abandoned (handlers : list (string * Handler)) (info : Info)
    (obs_space : ObsSpace) (before after : list string) (key : string)
    (acc : ObsDict) :
  Forall (fun k => exists handler_fn v,
            assoc k handlers = Some handler_fn /\
            handler_fn info obs_space = Ok v) before ->
  (assoc key handlers = None \/
   exists handler_fn missing,
     assoc key handlers = Some handler_fn /\
     handler_fn info obs_space = Raise (KeyError missing)) ->
  build_obs handlers info obs_space (before ++ key :: after) acc = Ok [].
Proof.
  intros Hbefore Hkey. revert acc.
  induction Hbefore as [|k before (h & v & Hh & Hv) _ IH]; intros acc; simpl.
  - destruct Hkey as [->|(h & missing & -> & ->)]; reflexivity.
  - now rewrite Hh, Hv, IH.
Qed.

Section AbandonedObservations.
Context `{Platform}.

(** X27: when a key of the observation space has no registered handler,
    or its handler raises [KeyError], [_process_observation] returns the
    empty dictionary instead of raising: the values already computed for
    the keys before it are dropped, and the image is stored in
    [_last_pov] all the same. *)
Theorem process_observation_abandoned (e : Env) (buf info : string)
    (frame : Frame) (payload : Info) (before after : ObsSpace)
    (key : string) (space : Space) :
  String.length buf <> 0%nat ->
  reshape_flip (height e) (width e) (depth e)
    (String.list_ascii_of_string buf) = Ok frame ->
  String.length info <> 0%nat ->
  json_loads info = Ok payload ->
  observation_space e = before ++ (key, space) :: after ->
  let seen := {| info_inventory := info_inventory payload;
                 info_pov := Some frame |} in
  Forall (fun k => exists handler_fn v,
            assoc k (obs_handlers e) = Some handler_fn /\
            handler_fn seen (observation_space e) = Ok v) (map fst before) ->
  (assoc key (obs_handlers e) = None \/
   exists handler_fn missing,
     assoc key (obs_handlers e) = Some handler_fn /\
     handler_fn seen (observation_space e) = Raise (KeyError missing)) ->
  _process_observation (Some buf) (Some info) e =
    (Ok [], set_last_pov frame e).
Proof.
  intros Hbuf Hframe Hinfo Hjson Hsp seen Hbefore Hkey.
  unfold _process_observation, mbind, M_bind, gets, lift, mret, M_ret, modify.
  apply Nat.eqb_neq in Hbuf, Hinfo. rewrite Hbuf, Hframe, Hinfo, Hjson.
  cbn [observation_space obs_handlers set_last_pov].
  fold seen.
  assert (Hkeys : map fst (observation_space e) =
                  map fst before ++ key :: map fst after)
    by now rewrite Hsp, map_app.
  rewrite Hkeys.
  now rewrite (build_obs_abandoned (obs_handlers e) seen (observation_space e)
                 (map fst before) (map fst after) key [] Hbefore Hkey).
Qed.

End AbandonedObservations.

Lemma constructor_handlers_witness :
  let mine : Handler := fun _ _ => Ok (ObsOther (PyInt 1)) in
  exists self w',
    __init__ (H := sample_platform) (Ok sample_mission) sample_obs_space
      sample_action_space (Some [("pov", mine)]) (sample_world [] [] [])
      = (Ok self, w') /\
    assoc "pov" (obs_handlers (env self)) = Some mine /\
    assoc "inventory" (obs_handlers (env self)) = Some inventory_observation.
Proof.
  intros mine.
  destruct (__init__ (H := sample_platform) (Ok sample_mission)
              sample_obs_space sample_action_space (Some [("pov", mine)])
              (sample_world [] [] [])) as [[self|x] w'] eqn:Hrun;
    [|vm_compute in Hrun; discriminate].
  assert (Hnd : NoDup (map fst [("pov", mine)]))
    by (apply NoDup_singleton).
  exists self, w'. split; [reflexivity|]. split.
  - exact (constructor_handlers (H := sample_platform) _ _ _ _ _ _ self "pov"
             Hnd Hrun).
  - exact (constructor_handlers (H := sample_platform) _ _ _ _ _ _ self
             "inventory" Hnd Hrun).
Defined.

Lemma process_observation_abandoned_witness :
  let e := with_observation_space
             [("pov", Box); ("health", Box); ("inventory", Dict ["log"])]
             (sample_env false false None (sample_world [] [] [])) in
  _process_observation (H := sample_platform) (Some "abcdef") (Some "{}") e =
    (Ok [], set_last_pov [[["d"; "e"; "f"]]; [["a"; "b"; "c"]]]%char e).
Proof.
  intros e.
  apply (process_observation_abandoned (H := sample_platform) e "abcdef" "{}"
           [[["d"; "e"; "f"]]; [["a"; "b"; "c"]]]%char
           {| info_inventory := None; info_pov := None |}
           [("pov", Box)] [("inventory", Dict ["log"])] "health" Box);
    try reflexivity; try (simpl; lia).
  - repeat constructor. eexists _, _. split; reflexivity.
  - left. reflexivity.
Defined.

(** ** What a sequence of calls never does: sending on a closed socket *)

#[global] Instance keeps_preorder (sock : option Sock) : PreOrder (keeps sock).
Proof. split; [now intros e|intros e1 e2 e3 H1 H2 Hh; auto]. Qed.

#[global] Instance keeps_tidy_preorder : PreOrder keeps_tidy.
Proof. split; [now intros e|intros e1 e2 e3 H1 H2 Hh; auto]. Qed.

Lemma closed_in_app (tr evs : list event) :
  closed_in (tr ++ evs) = closed_in tr ++ closed_in evs.
Proof.
  induction tr as [|ev tr IH]; [reflexivity|].
  destruct ev; simpl; now rewrite ?IH.
Qed.

Lemma sends_open_app (gone : list Sock) (tr evs : list event) :
  sends_open gone (tr ++ evs) =
    sends_open gone tr && sends_open (closed_in tr ++ gone) evs.
Proof.
  revert gone. induction tr as [|ev tr IH]; intros gone; [reflexivity|].
  destruct ev; simpl; rewrite ?IH; try reflexivity.
  - now rewrite andb_assoc.
  - f_equal. clear IH. revert gone.
    assert (Hperm : forall gone' gone'' : list Sock,
              (forall x, x ∈ gone' <-> x ∈ gone'') ->
              sends_open gone' evs = sends_open gone'' evs).
    { induction evs as [|ev evs IHe]; intros g1 g2 Hg; [reflexivity|].
      destruct ev; simpl; try (now apply IHe).
      - rewrite (IHe g1 g2 Hg). f_equal. f_equal.
        apply bool_decide_ext, Hg.
      - apply IHe. intros x. rewrite !elem_of_cons. now rewrite Hg. }
    intros gone. apply Hperm. intros x.
    repeat (rewrite elem_of_app || rewrite elem_of_cons). tauto.
Qed.

Lemma sends_open_quiet (sock : option Sock) (gone : list Sock)
    (evs : list event) :
  Forall (quiet sock) evs ->
  (forall s, sock = Some s -> s ∉ gone) ->
  sends_open gone evs = true /\ closed_in evs = [].
Proof.
  intros Hq Hs. induction Hq as [|ev evs Hev _ IH]; [split; reflexivity|].
  destruct IH as [IH1 IH2].
  destruct ev; simpl in *; try (split; assumption); [|contradiction].
  split; [|assumption]. rewrite IH1, andb_true_r.
  apply negb_true_iff, bool_decide_eq_false. now apply Hs.
Qed.

(** A method that adds only quiet events and leaves the socket attribute
    alone keeps the discipline. *)
Lemma holds_extend (sock : option Sock) (e e' : Env) (evs : list event) :
  client_socket e' = client_socket e ->
  (fresh_sock (world e) <= fresh_sock (world e'))%nat ->
  trace (world e') = trace (world e) ++ evs ->
  Forall (quiet sock) evs ->
  keeps sock e e'.
Proof.
  intros Hcs Hfresh Htr Hq ((Hopen & Hold & Hcur) & Hsock).
  assert (Hgone : forall s, sock = Some s ->
            s ∉ closed_in (trace (world e)) ++ []).
  { intros s ->. rewrite app_nil_r. now apply Hcur. }
  destruct (sends_open_quiet sock _ evs Hq Hgone) as [Hevs Hnone].
  split; [|congruence]. split; [|split].
  - rewrite Htr, sends_open_app, Hopen, Hevs. reflexivity.
  - intros s. rewrite Htr, closed_in_app, Hnone, app_nil_r.
    intros Hin. specialize (Hold s Hin). lia.
  - intros s. rewrite Hcs, Htr, closed_in_app, Hnone, app_nil_r.
    intros Hin. destruct (Hcur s Hin). split; [assumption|lia].
Qed.

Ltac keeps_prim evs :=
  let e := fresh "e" in
  intros e; destruct e as [? ? ? ? ? ? ? ? ? ? ? ? ? ? ? ? ? ? ? ? []];
  repeat match goal with
         | |- context [match ?x with _ => _ end] => destruct x
         end;
  first [ reflexivity
        | apply (holds_extend _ _ _ []);
            [reflexivity | simpl; lia | simpl; now rewrite app_nil_r
            | constructor]
        | apply (holds_extend _ _ _ evs);
            [reflexivity | simpl; lia | reflexivity
            | repeat constructor] ].

Lemma send_message_keeps (sock : option Sock) (data : string) :
  frame (keeps sock) (send_message sock data).
Proof.
  unfold send_message. destruct sock as [s|]; [|now intros e].
  keeps_prim [EvSend s data].
Qed.

Lemma recv_message_keeps (sock sock' : option Sock) :
  frame (keeps sock) (recv_message sock').
Proof. unfold recv_message. keeps_prim (@nil event). Qed.

Lemma time_time_keeps (sock : option Sock) : frame (keeps sock) time_time.
Proof. unfold time_time. keeps_prim (@nil event). Qed.

Lemma log_shows_bind_exception_keeps (sock : option Sock) :
  frame (keeps sock) log_shows_bind_exception.
Proof. unfold log_shows_bind_exception. keeps_prim (@nil event). Qed.

Lemma get_and_launch_keeps (sock : option Sock) :
  frame (keeps sock) get_and_launch.
Proof.
  unfold get_and_launch. intros e.
  apply (holds_extend _ _ _
           [EvLaunch (fresh_instance (world e))
              match launches (world e) with b :: _ => b | [] => true end]);
    [reflexivity | simpl; lia | reflexivity | repeat constructor].
Qed.

Lemma emit_keeps (sock : option Sock) (ev : event) :
  quiet sock ev -> frame (keeps sock) (emit ev).
Proof.
  intros Hq e. apply (holds_extend _ _ _ [ev]);
    [reflexivity | simpl; lia | reflexivity | now constructor].
Qed.

Lemma sleep_keeps (sock : option Sock) (tenths : Z) :
  frame (keeps sock) (sleep tenths).
Proof. now apply emit_keeps. Qed.

Lemma kill_keeps (sock : option Sock) (i : Instance) :
  frame (keeps sock) (kill i).
Proof. now apply emit_keeps. Qed.

Lemma modify_keeps (sock : option Sock) (f : Env -> Env) :
  (forall e, client_socket (f e) = client_socket e /\ world (f e) = world e) ->
  frame (keeps sock) (modify f).
Proof.
  intros Hf e. destruct (Hf e) as [Hcs Hw].
  apply (holds_extend _ _ _ []); simpl; rewrite ?Hw, ?app_nil_r;
    [exact Hcs | lia | reflexivity | constructor].
Qed.

Lemma set_done_keeps (sock : option Sock) (b : bool) :
  frame (keeps sock) (modify (set_done b)).
Proof. apply modify_keeps. now intros e. Qed.

Lemma set_last_pov_keeps (sock : option Sock) (f : Frame) :
  frame (keeps sock) (modify (set_last_pov f)).
Proof. apply modify_keeps. now intros e. Qed.

Lemma set_had_to_clean_keeps (sock : option Sock) (b : bool) :
  frame (keeps sock) (modify (set_had_to_clean b)).
Proof. apply modify_keeps. now intros e. Qed.

Lemma set_instance_keeps (sock : option Sock) (i : Instance) :
  frame (keeps sock) (modify (set_instance i)).
Proof. apply modify_keeps. now intros e. Qed.

Lemma next_reset_keeps (sock : option Sock) :
  frame (keeps sock) (modify (fun e => set_resets (resets e + 1) e)).
Proof. apply modify_keeps. now intros e. Qed.

#[global] Hint Resolve send_message_keeps recv_message_keeps time_time_keeps
  log_shows_bind_exception_keeps get_and_launch_keeps sleep_keeps kill_keeps
  set_done_keeps set_last_pov_keeps set_had_to_clean_keeps set_instance_keeps
  next_reset_keeps : frames.

(** What keeps the discipline for every socket keeps it. *)
Lemma keeps_any {A : Type} (m : M A) :
  (forall sock, frame (keeps sock) m) -> frame keeps_tidy m.
Proof. intros Hm e Ht. now apply (Hm (client_socket e) e). Qed.

(** *** Rules for triples *)

Lemma triple_keeps {A : Type} (sock : option Sock) (m : M A) :
  frame (keeps sock) m -> triple (holds sock) m (holds sock) tidy.
Proof.
  intros Hm e Hh. specialize (Hm e Hh).
  destruct (m e) as [[a|x] e1]; simpl in *; [exact Hm|apply Hm].
Qed.

Lemma triple_tidy {A : Type} (m : M A) :
  frame keeps_tidy m -> triple tidy m tidy tidy.
Proof.
  intros Hm e Ht. specialize (Hm e Ht). now destruct (m e) as [[a|x] e1].
Qed.

Lemma tidy_triple {A : Type} (m : M A) :
  triple tidy m tidy tidy -> frame keeps_tidy m.
Proof.
  intros Hm e Ht. specialize (Hm e Ht). now destruct (m e) as [[a|x] e1].
Qed.

Lemma triple_bind {A B : Type} (P Q Q' S : Env -> Prop) (m : M A)
    (f : A -> M B) :
  triple P m Q S -> (forall a, triple Q (f a) Q' S) ->
  triple P (m ≫= f) Q' S.
Proof.
  intros Hm Hf e HP. unfold mbind, M_bind. specialize (Hm e HP).
  destruct (m e) as [[a|x] e1]; [now apply Hf|exact Hm].
Qed.

Lemma triple_conseq {A : Type} (P P' Q Q' S S' : Env -> Prop) (m : M A) :
  triple P m Q S ->
  (forall e, P' e -> P e) -> (forall e, Q e -> Q' e) ->
  (forall e, S e -> S' e) ->
  triple P' m Q' S'.
Proof.
  intros Hm HP HQ HS e He. specialize (Hm e (HP e He)).
  destruct (m e) as [[a|x] e1]; auto.
Qed.

Lemma triple_ret {A : Type} (P S : Env -> Prop) (a : A) :
  triple P (mret a) P S.
Proof. now intros e HP. Qed.

Lemma triple_raise {A : Type} (P Q : Env -> Prop) (x : exn) :
  triple P (@raise A x) Q P.
Proof. now intros e HP. Qed.

Lemma triple_lift {A : Type} (P : Env -> Prop) (r : res A) :
  triple P (lift r) P P.
Proof. intros e HP. unfold lift. now destruct r. Qed.

Lemma triple_gets {A : Type} (P S : Env -> Prop) (f : Env -> A) :
  triple P (gets f) P S.
Proof. now intros e HP. Qed.

(** Reading the socket attribute names the socket. *)
Lemma triple_socket {A : Type} (Q S : Env -> Prop) (f : option Sock -> M A) :
  (forall sock, triple (holds sock) (f sock) Q S) ->
  triple tidy (gets client_socket ≫= f) Q S.
Proof.
  intros Hf e Ht. unfold mbind, M_bind, gets.
  now apply (Hf (client_socket e) e).
Qed.

Lemma triple_same_socket {A : Type} (sock : option Sock) (Q S : Env -> Prop)
    (f : option Sock -> M A) :
  triple (holds sock) (f sock) Q S ->
  triple (holds sock) (gets client_socket ≫= f) Q S.
Proof.
  intros Hf e Hh. unfold mbind, M_bind, gets.
  destruct Hh as [Ht Hs]. rewrite Hs. apply Hf. now split.
Qed.

Lemma triple_try_except {A : Type} (P Q S0 S : Env -> Prop) (body : M A)
    (handler : exn -> option (M A)) :
  triple P body Q S0 ->
  (forall x h, handler x = Some h -> triple S0 h Q S) ->
  (forall e, S0 e -> S e) ->
  triple P (try_except body handler) Q S.
Proof.
  intros Hb Hh HS e HP. unfold try_except. specialize (Hb e HP).
  destruct (body e) as [[a|x] e1]; [exact Hb|].
  destruct (handler x) as [h|] eqn:Hx; [|now apply HS].
  now apply (Hh x h Hx).
Qed.

Lemma parting_sends_open (sock : option Sock) (evs : list event)
    (gone : list Sock) :
  Forall (parting sock) evs -> sends_open gone evs = true.
Proof.
  intros Hp. revert gone.
  induction Hp as [|ev evs Hev _ IH]; intros gone; [reflexivity|].
  destruct ev; simpl in *; try apply IH. contradiction.
Qed.

Lemma parting_closed (sock : option Sock) (evs : list event) (s : Sock) :
  Forall (parting sock) evs -> s ∈ closed_in evs -> sock = Some s.
Proof.
  intros Hp. induction Hp as [|ev evs Hev _ IH]; simpl.
  - intros Hin. now apply elem_of_nil in Hin.
  - destruct ev; simpl in *; try apply IH.
    rewrite elem_of_cons. intros [->|Hin]; [exact Hev|now apply IH].
Qed.

(** Giving the socket up: after events that close it at most, and with
    the attribute cleared, the discipline holds. *)
Lemma tidy_parting (sock : option Sock) (e : Env) (w' : World)
    (evs : list event) :
  holds sock e ->
  trace w' = trace (world e) ++ evs ->
  fresh_sock w' = fresh_sock (world e) ->
  Forall (parting sock) evs ->
  tidy (set_client_socket None (set_world w' e)).
Proof.
  intros ((Hopen & Hold & Hcur) & Hsock) Htr Hfresh Hp.
  split; [|split]; simpl.
  - now rewrite Htr, sends_open_app, Hopen, (parting_sends_open sock).
  - intros s. rewrite Htr, closed_in_app, elem_of_app, Hfresh.
    intros [Hin|Hin]; [now apply Hold|].
    apply (parting_closed sock) in Hin; [|exact Hp].
    subst sock. now apply Hcur.
  - discriminate.
Qed.

(** *** The methods keep the discipline of the socket *)

Lemma keeps_socket {A : Type} (sock : option Sock) (f : option Sock -> M A) :
  frame (keeps sock) (f sock) ->
  frame (keeps sock) (gets client_socket ≫= f).
Proof.
  intros Hf e Hh. unfold mbind, M_bind, gets.
  destruct Hh as [Ht Hs]. rewrite Hs. apply Hf. now split.
Qed.

Ltac keeps_auto :=
  repeat first
    [ match goal with |- PreOrder _ => apply _ end
    | apply frame_ret
    | apply frame_raise
    | apply frame_lift
    | apply keeps_socket
    | apply frame_gets
    | apply frame_bind; [.. | intros ?]
    | match goal with
      | |- frame _ (match ?x with _ => _ end) => destruct x
      end
    | solve [auto 3 with frames] ].

Lemma robust_launch_loop_keeps (sock : option Sock) (tries : nat) :
  frame (keeps sock) (robust_launch_loop tries).
Proof.
  induction tries as [|tries IH]; simpl; [apply frame_raise; apply _|].
  unfold _attempt_launch_new_instance. keeps_auto.
Qed.

Lemma init_mission_loop_keeps (sock : option Sock) (remaining : nat) :
  frame (keeps sock) (init_mission_loop remaining).
Proof.
  induction remaining as [|remaining IH]; simpl; keeps_auto.
Qed.

#[global] Hint Resolve robust_launch_loop_keeps init_mission_loop_keeps
  : frames.

Lemma tidy_same (e e' : Env) :
  client_socket e' = client_socket e -> world e' = world e ->
  tidy e -> tidy e'.
Proof. unfold tidy. intros -> ->. auto. Qed.

(** A socket that was just created is not a closed one. *)
Lemma tidy_fresh (e e' : Env) (evs : list event) :
  tidy e -> client_socket e = None ->
  trace (world e') = trace (world e) ++ evs ->
  Forall (quiet (Some (fresh_sock (world e)))) evs ->
  fresh_sock (world e') = S (fresh_sock (world e)) ->
  client_socket e' = None \/
  client_socket e' = Some (fresh_sock (world e)) ->
  tidy e'.
Proof.
  intros (Hopen & Hold & Hcur) Hnone Htr Hq Hfresh Hcs.
  assert (Hgone : forall s, Some (fresh_sock (world e)) = Some s ->
            s ∉ closed_in (trace (world e)) ++ []).
  { intros s [= <-]. rewrite app_nil_r. intros Hin.
    specialize (Hold _ Hin). lia. }
  destruct (sends_open_quiet _ _ evs Hq Hgone) as [Hevs Hno].
  split; [|split].
  - now rewrite Htr, sends_open_app, Hopen, Hevs.
  - intros s. rewrite Htr, closed_in_app, Hno, app_nil_r, Hfresh.
    intros Hin. specialize (Hold _ Hin). lia.
  - intros s Hs. rewrite Htr, closed_in_app, Hno, app_nil_r, Hfresh.
    destruct Hcs as [Hcs|Hcs]; rewrite Hcs in Hs; [discriminate|].
    injection Hs as <-. split; [|lia].
    intros Hin. specialize (Hold _ Hin). lia.
Qed.

Lemma clean_connection_tidy : frame keeps_tidy _clean_connection.
Proof.
  apply tidy_triple. unfold _clean_connection.
  apply triple_socket. intros sock.
  apply (triple_bind _ (fun e => tidy (set_client_socket None e))).
  - intros e Hh. destruct sock as [s|].
    + apply (tidy_parting (Some s) e
               (world (snd (emit (EvClose s) (snd (emit (EvShutdown s) e)))))
               [EvShutdown s; EvClose s] Hh).
      * simpl. now rewrite <- app_assoc.
      * reflexivity.
      * repeat constructor.
    + apply (tidy_parting None e (world e) [] Hh);
        [now rewrite app_nil_r | reflexivity | constructor].
  - intros []. apply (triple_bind _ tidy); [now intros e Ht|].
    intros []. apply triple_tidy, keeps_any. intros sock'.
    unfold _robust_launch_new_instance. keeps_auto.
Qed.

#[global] Hint Resolve clean_connection_tidy : frames.

Section TidyMethods.
Context `{Platform}.

Lemma decode_keeps (sock : option Sock) (b : string) :
  frame (keeps sock) (decode b).
Proof. unfold decode. keeps_auto. Qed.

Lemma process_observation_keeps (sock : option Sock)
    (pov info : option string) :
  frame (keeps sock) (_process_observation pov info).
Proof. unfold _process_observation. keeps_auto. Qed.

Hint Resolve decode_keeps process_observation_keeps : frames.

Lemma step_exchange_keeps (sock : option Sock) (cmd : string) :
  frame (keeps sock) (step_exchange cmd).
Proof. unfold step_exchange. keeps_auto. Qed.

Lemma quit_episode_keeps (sock : option Sock) :
  frame (keeps sock) _quit_episode.
Proof. unfold _quit_episode. keeps_auto. Qed.

Ltac keeps_step :=
  eapply triple_bind;
  [apply triple_keeps; solve [keeps_auto] | intros ?].

Lemma peek_obs_tidy : frame keeps_tidy _peek_obs.
Proof.
  apply tidy_triple. unfold _peek_obs.
  apply (triple_bind _ tidy);
    [apply triple_tidy, keeps_any; auto with frames|intros start_time].
  apply (triple_bind _ tidy); [apply triple_gets|intros d].
  destruct (negb d).
  - apply triple_socket. intros sock.
    apply (triple_conseq (holds sock) _ (holds sock) _ tidy);
      [|auto|now intros e [Ht _]|auto].
    do 7 keeps_step.
    eapply triple_bind.
    + destruct (String.length _ =? 0)%nat; [|apply triple_ret].
      keeps_step.
      destruct (_ >? _); [|apply triple_keeps; auto with frames].
      apply triple_same_socket.
      apply (triple_bind _ (fun e => tidy (set_client_socket None e))).
      * intros e Hh. destruct sock as [s|]; [|apply Hh].
        apply (tidy_parting (Some s) e (world (snd (emit (EvClose s) e)))
                 [EvClose s] Hh); [reflexivity|reflexivity|repeat constructor].
      * intros []. apply (triple_bind _ tidy); [now intros e Ht|].
        intros []. now intros e Ht.
    + intros []. keeps_step.
      apply triple_keeps. keeps_auto.
  - apply triple_tidy, keeps_any. intros sock. keeps_auto.
Qed.

Lemma connect_block_tidy :
  triple (holds None)
    (s ← connect; _hello (Some s);; modify (set_client_socket (Some s)))
    tidy tidy.
Proof.
  intros e [Ht Hs]. unfold mbind, M_bind, connect, _hello, send_message, modify.
  destruct (connect_faults (world e)) as [|[f|] cf] eqn:Hcf; simpl.
  1, 3: destruct (send_faults (world e)) as [|[f'|] sf] eqn:Hsf; simpl.
  1, 3, 4, 6:
    apply (tidy_fresh e _ [EvConnect (fresh_sock (world e)) (instance e);
                           EvSend (fresh_sock (world e))
                             ("<MalmoEnv" +:+ malmo_version +:+ "/>")] Ht Hs);
      [simpl; now rewrite <- app_assoc | repeat constructor | reflexivity
      | now right].
  1, 2:
    apply (tidy_fresh e _ [EvConnect (fresh_sock (world e)) (instance e)]
             Ht Hs);
      [reflexivity | repeat constructor | reflexivity | now left].
  apply (tidy_fresh e _ [] Ht Hs);
    [simpl; now rewrite app_nil_r | constructor | reflexivity | now left].
Qed.

Lemma start_up_once_tidy : frame keeps_tidy start_up_once.
Proof.
  unfold start_up_once.
  apply frame_bind; [apply _ | apply keeps_any; auto with frames | intros []].
  apply frame_try_except; [apply _ | |].
  - apply tidy_triple. apply triple_socket. intros sock.
    apply (triple_bind _ tidy).
    + destruct sock as [s|]; [now intros e [Ht _]|].
      apply connect_block_tidy.
    + intros []. apply triple_tidy.
      apply frame_bind;
        [apply _ | apply keeps_any; unfold _init_mission; auto with frames|].
      intros []. apply frame_bind;
        [apply _ | apply keeps_any; auto with frames|].
      intros []. apply peek_obs_tidy.
  - intros x h. destruct (is_socket_exn x).
    + intros [= <-]. apply frame_bind; [apply _ | auto with frames|].
      intros []. apply frame_raise. apply _.
    + destruct (is_RuntimeError x); [|discriminate].
      intros [= <-].
      apply frame_bind; [apply _ | apply keeps_any; auto with frames|].
      intros []. apply frame_bind; [apply _ | auto with frames|].
      intros []. apply frame_raise. apply _.
Qed.

Lemma step_tidy (action : list (string * pyval)) :
  frame keeps_tidy (step action).
Proof.
  unfold step, step_recover, sample.
  apply frame_bind; [apply _ | apply frame_gets; apply _ | intros spaces].
  apply frame_bind; [apply _ | apply frame_lift; apply _ | intros cmd].
  apply frame_try_except; [apply _ | |].
  - apply keeps_any. intros sock. apply step_exchange_keeps.
  - intros x h. destruct (is_socket_exn x); [|discriminate].
    intros [= <-].
    apply frame_bind; [apply _ | auto with frames | intros []].
    apply keeps_any. intros sock. keeps_auto.
Qed.

End TidyMethods.

Lemma close_tidy (running : bool) (self : MineRLEnv) :
  tidy (env self) -> tidy (env (close running self)).
Proof.
  destruct self as [e v c]. unfold close. simpl. intros Ht.
  assert (Hclosed : tidy
            match client_socket e with
            | Some s => set_client_socket None (snd (emit (EvClose s) e))
            | None => e
            end).
  { destruct (client_socket e) as [s|] eqn:Hs; [|exact Ht].
    apply (tidy_parting (Some s) e (world (snd (emit (EvClose s) e)))
             [EvClose s]); [now split|reflexivity|reflexivity|].
    repeat constructor. }
  destruct v, c; simpl; try exact Ht.
  all: destruct running; [|exact Hclosed].
  all: apply (keeps_any (kill _) (fun sock => kill_keeps sock _)), Hclosed.
Qed.

(** ** What a sequence of calls never does: leaving an instance behind *)

#[global] Instance keeps_instances_preorder : PreOrder keeps_instances.
Proof. split; [now intros e|intros e1 e2 e3 H1 H2 Hh; auto]. Qed.

Lemma launch_handles_app (evs1 evs2 : list event) :
  launch_handles (evs1 ++ evs2) = launch_handles evs1 ++ launch_handles evs2.
Proof.
  induction evs1 as [|ev evs1 IH]; [reflexivity|].
  destruct ev; simpl; now rewrite ?IH.
Qed.

Lemma killed_app (evs1 evs2 : list event) :
  killed (evs1 ++ evs2) = killed evs1 ++ killed evs2.
Proof.
  induction evs1 as [|ev evs1 IH]; [reflexivity|].
  destruct ev; simpl; now rewrite ?IH.
Qed.

(** A launch either failed or succeeded. *)
Lemma launch_handles_split (evs : list event) (i : Instance) :
  i ∈ launch_handles evs -> i ∈ failed_launches evs \/ i ∈ launched evs.
Proof.
  induction evs as [|ev evs IH]; simpl.
  - intros Hin. now apply elem_of_nil in Hin.
  - destruct ev as [| | | |j [|]| |]; simpl; try exact IH.
    + rewrite !elem_of_cons. intros [->|Hin]; [auto|].
      destruct (IH Hin); auto.
    + rewrite !elem_of_cons. intros [->|Hin]; [auto|].
      destruct (IH Hin); auto.
Qed.

(** The launches of the launcher: all killed, but the one that
    succeeded. *)
Lemma relaunch_events_strays (i j : Instance) (l : list bool) :
  j ∈ launch_handles (relaunch_events 3 i l) ->
  (launch_succeeds 3 l = true /\ j = relaunch_handle 3 i l) \/
  j ∈ killed (relaunch_events 3 i l).
Proof.
  intros Hin. apply launch_handles_split in Hin as [Hin|Hin].
  - right. destruct (relaunch_events_shape 3 i l) as (_ & -> & _). exact Hin.
  - left. rewrite relaunch_events_launched in Hin.
    destruct (launch_succeeds 3 l).
    + apply list_elem_of_singleton in Hin. auto.
    + now apply elem_of_nil in Hin.
Qed.

(** A method that launches nothing and leaves the instance attribute
    alone leaves no instance behind. *)
Lemma stray_extend (e e' : Env) (evs : list event) :
  instance e' = instance e ->
  trace (world e') = trace (world e) ++ evs ->
  launch_handles evs = [] ->
  keeps_instances e e'.
Proof.
  intros Hi Htr Hno Hinv i.
  rewrite Htr, launch_handles_app, Hno, app_nil_r, killed_app, Hi.
  intros Hin. destruct (Hinv i Hin) as [->|Hk]; [auto|].
  right. apply elem_of_app. auto.
Qed.

Ltac strays_prim evs :=
  let e := fresh "e" in
  intros e; destruct e as [? ? ? ? ? ? ? ? ? ? ? ? ? ? ? ? ? ? ? ? []];
  repeat match goal with
         | |- context [match ?x with _ => _ end] => destruct x
         end;
  first [ reflexivity
        | apply (stray_extend _ _ []);
            [reflexivity | simpl; now rewrite app_nil_r | reflexivity]
        | apply (stray_extend _ _ evs); reflexivity ].

Lemma send_message_strays (sock : option Sock) (data : string) :
  frame keeps_instances (send_message sock data).
Proof.
  unfold send_message. destruct sock as [s|]; [|now intros e].
  strays_prim [EvSend s data].
Qed.

Lemma recv_message_strays (sock : option Sock) :
  frame keeps_instances (recv_message sock).
Proof. unfold recv_message. strays_prim (@nil event). Qed.

Lemma time_time_strays : frame keeps_instances time_time.
Proof. unfold time_time. strays_prim (@nil event). Qed.

Lemma log_shows_bind_exception_strays :
  frame keeps_instances log_shows_bind_exception.
Proof. unfold log_shows_bind_exception. strays_prim (@nil event). Qed.

Lemma connect_strays : frame keeps_instances connect.
Proof.
  unfold connect. intros e.
  destruct (connect_faults (world e)) as [|[f|] cf].
  - now apply (stray_extend _ _ [EvConnect (fresh_sock (world e)) (instance e)]).
  - apply (stray_extend _ _ []); [reflexivity| |reflexivity].
    simpl. now rewrite app_nil_r.
  - now apply (stray_extend _ _ [EvConnect (fresh_sock (world e)) (instance e)]).
Qed.

Lemma emit_strays (ev : event) :
  launch_handles [ev] = [] -> frame keeps_instances (emit ev).
Proof. intros Hev e. now apply (stray_extend _ _ [ev]). Qed.

Lemma sleep_strays (tenths : Z) : frame keeps_instances (sleep tenths).
Proof. now apply emit_strays. Qed.

Lemma close_socket_strays (s : Sock) : frame keeps_instances (emit (EvClose s)).
Proof. now apply emit_strays. Qed.

Lemma modify_strays (f : Env -> Env) :
  (forall e, instance (f e) = instance e /\ world (f e) = world e) ->
  frame keeps_instances (modify f).
Proof.
  intros Hf e. destruct (Hf e) as [Hi Hw].
  apply (stray_extend _ _ []); simpl; rewrite ?Hw, ?app_nil_r; auto.
Qed.

Lemma set_done_strays (b : bool) : frame keeps_instances (modify (set_done b)).
Proof. apply modify_strays. now intros e. Qed.

Lemma set_last_pov_strays (f : Frame) :
  frame keeps_instances (modify (set_last_pov f)).
Proof. apply modify_strays. now intros e. Qed.

Lemma set_had_to_clean_strays (b : bool) :
  frame keeps_instances (modify (set_had_to_clean b)).
Proof. apply modify_strays. now intros e. Qed.

Lemma set_client_socket_strays (s : option Sock) :
  frame keeps_instances (modify (set_client_socket s)).
Proof. apply modify_strays. now intros e. Qed.

Lemma next_reset_strays :
  frame keeps_instances (modify (fun e => set_resets (resets e + 1) e)).
Proof. apply modify_strays. now intros e. Qed.

(** Cleaning the connection kills the instance it replaces. *)
Lemma clean_connection_strays : frame keeps_instances _clean_connection.
Proof.
  intros e Hinv. destruct (had_to_clean e) eqn:Hc.
  - destruct (clean_connection_second e Hc) as (w' & Hrun & Htr & _).
    rewrite Hrun.
    assert (Hold : forall i, i ∈ launch_handles (trace w') ->
              (launch_succeeds 3 (launches (world e)) = true /\
               i = relaunch_handle 3 (fresh_instance (world e))
                     (launches (world e))) \/
              i ∈ killed (trace w')).
    { intros i. rewrite Htr, !launch_handles_app, !killed_app. simpl.
      rewrite !elem_of_app, elem_of_cons.
      intros [Hin|[Hin|Hin]].
      - destruct (Hinv i Hin) as [->|Hk]; auto.
      - destruct (client_socket e); simpl in Hin;
          now apply elem_of_nil in Hin.
      - apply relaunch_events_strays in Hin as [Hin|Hin]; auto. }
    destruct (launch_succeeds 3 (launches (world e))); intros i Hin;
      simpl in Hin; destruct (Hold i Hin) as [[Hok Hi]|Hk];
      try discriminate Hok; [left; exact Hi|right; exact Hk|right; exact Hk].
  - destruct (clean_connection_first e Hc) as (w' & Hrun & Htr & _).
    rewrite Hrun.
    apply (stray_extend e _ (close_events (client_socket e)));
      [reflexivity | exact Htr | now destruct (client_socket e) | exact Hinv].
Qed.

#[global] Hint Resolve send_message_strays recv_message_strays
  time_time_strays log_shows_bind_exception_strays connect_strays
  sleep_strays close_socket_strays set_done_strays set_last_pov_strays
  set_had_to_clean_strays set_client_socket_strays next_reset_strays
  clean_connection_strays : frames.

Ltac strays_auto :=
  repeat first
    [ match goal with |- PreOrder _ => apply _ end
    | solve [auto 3 with frames]
    | apply frame_ret
    | apply frame_raise
    | apply frame_lift
    | apply frame_gets
    | apply frame_bind; [.. | intros ?]
    | match goal with
      | |- frame _ (match ?x with _ => _ end) => destruct x
      end ].

Lemma init_mission_loop_strays (remaining : nat) :
  frame keeps_instances (init_mission_loop remaining).
Proof. induction remaining as [|remaining IH]; simpl; strays_auto. Qed.

#[global] Hint Resolve init_mission_loop_strays : frames.

Section StrayMethods.
Context `{Platform}.

Lemma decode_strays (b : string) : frame keeps_instances (decode b).
Proof. unfold decode. strays_auto. Qed.

Lemma process_observation_strays (pov info : option string) :
  frame keeps_instances (_process_observation pov info).
Proof. unfold _process_observation. strays_auto. Qed.

Hint Resolve decode_strays process_observation_strays : frames.

Lemma quit_episode_strays : frame keeps_instances _quit_episode.
Proof. unfold _quit_episode. strays_auto. Qed.

Lemma peek_obs_strays : frame keeps_instances _peek_obs.
Proof. unfold _peek_obs. strays_auto. Qed.

Hint Resolve peek_obs_strays : frames.

Lemma start_up_once_strays : frame keeps_instances start_up_once.
Proof.
  unfold start_up_once, _init_mission, _hello. strays_auto.
  apply frame_try_except; [apply _ | strays_auto |].
  intros x h. destruct (is_socket_exn x); [intros [= <-]; strays_auto|].
  destruct (is_RuntimeError x); [intros [= <-]; strays_auto|discriminate].
Qed.

Lemma step_strays (action : list (string * pyval)) :
  frame keeps_instances (step action).
Proof.
  unfold step, step_recover, step_exchange, sample. strays_auto.
  apply frame_try_except; [apply _ | strays_auto |].
  intros x h. destruct (is_socket_exn x); [|discriminate].
  intros [= <-]. strays_auto.
Qed.

End StrayMethods.

(** ** Invariants of sequences of calls *)

Section CallInvariants.
Context `{Platform}.
Variable Inv : Env -> Prop.
Hypothesis Inv_same : forall e e',
  client_socket e' = client_socket e -> instance e' = instance e ->
  world e' = world e -> Inv e -> Inv e'.
Hypothesis Inv_quit : forall e, Inv e -> Inv (_quit_episode e).2.
Hypothesis Inv_sleep : forall e, Inv e -> Inv (sleep 1 e).2.
Hypothesis Inv_start : forall e, Inv e -> Inv (start_up_once e).2.
Hypothesis Inv_step : forall action e, Inv e -> Inv (step action e).2.
Hypothesis Inv_close : forall running self,
  Inv (env self) -> Inv (env (close running self)).

Lemma quit_loop_invariant (fuel : nat) (e e' : Env) (r : res unit) :
  Inv e -> quit_loop fuel e = Some (r, e') -> Inv e'.
Proof.
  revert e. induction fuel as [|fuel IH]; intros e Hi; simpl.
  - destruct (done e); [|discriminate]. now intros [= _ <-].
  - destruct (done e); [now intros [= _ <-]|].
    pose proof (Inv_quit e Hi) as Hq.
    destruct (_quit_episode e) as [[ok|x] e1]; simpl in *.
    + destruct ok; simpl; apply IH.
      * revert Hq. now apply Inv_same.
      * refine (Inv_sleep (set_done false e1) _).
        revert Hq. now apply Inv_same.
    + now intros [= _ <-].
Qed.

Lemma retry_loop_invariant {A : Type} (f : M A) (more : nat) (e : Env) :
  (forall e, Inv e -> Inv (f e).2) -> Inv e -> Inv (retry_loop more f e).2.
Proof.
  intros Hf. revert e. induction more as [|more IH]; intros e Hi; simpl.
  - specialize (Hf e Hi). now destruct (f e) as [[a|x] e1].
  - specialize (Hf e Hi). destruct (f e) as [[a|x] e1]; [exact Hf|].
    now apply IH.
Qed.

Lemma reset_invariant (fuel : nat) (e e' : Env) (r : res ObsDict) :
  Inv e -> reset fuel e = Some (r, e') -> Inv e'.
Proof.
  intros Hi. unfold reset.
  destruct (reset_body fuel e) as [[r1 e1]|] eqn:Hbody; [|discriminate].
  intros [= _ <-]. apply (Inv_same e1); try reflexivity.
  unfold reset_body in Hbody.
  assert (Hinit : exists e0, Inv e0 /\
            (if has_init e then (Ok tt, e) else init e).2 = e0)
    by (destruct (has_init e); unfold init;
        [|destruct (xml_file e)]; eexists; (split; [|reflexivity]);
        simpl; try exact Hi; revert Hi; now apply Inv_same).
  destruct Hinit as (e0 & Hi0 & He0).
  destruct (if has_init e then (Ok tt, e) else init e) as [[[]|x] e0'];
    simpl in He0; subst e0'.
  - destruct (quit_loop fuel e0) as [[[[]|x] e2]|] eqn:Hquit;
      try discriminate.
    + apply (quit_loop_invariant _ _ _ _ Hi0) in Hquit.
      injection Hbody as Hstart. unfold _start_up, retry in Hstart.
      pose proof (retry_loop_invariant start_up_once (pred retry_attempts)
                    e2 Inv_start Hquit) as Hr.
      now rewrite Hstart in Hr.
    + apply (quit_loop_invariant _ _ _ _ Hi0) in Hquit.
      now injection Hbody as _ <-.
  - now injection Hbody as _ <-.
Qed.

Lemma call_invariant (c : api_call) (self self' : MineRLEnv) :
  Inv (env self) -> call c self = Some self' -> Inv (env self').
Proof.
  intros Hi. destruct c as [v|fuel|action|running]; simpl.
  - intros [= <-]. simpl. revert Hi. apply Inv_same;
      unfold seed; now destruct v as [[]|].
  - destruct (reset fuel (env self)) as [[r e']|] eqn:Hreset; [|discriminate].
    intros [= <-]. simpl. now apply (reset_invariant fuel (env self) e' r).
  - intros [= <-]. simpl. now apply Inv_step.
  - intros [= <-]. now apply Inv_close.
Qed.

Lemma calls_invariant (cs : list api_call) (self self' : MineRLEnv) :
  Inv (env self) -> calls cs self = Some self' -> Inv (env self').
Proof.
  revert self. induction cs as [|c cs IH]; intros self Hi; simpl.
  - now intros [= <-].
  - destruct (call c self) as [self1|] eqn:Hcall; [|discriminate].
    apply IH. now apply (call_invariant c self).
Qed.

End CallInvariants.

(** ** From the constructor on *)

Lemma relaunch_events_quiet (tries : nat) (i : Instance) (l : list bool) :
  Forall (quiet None) (relaunch_events tries i l).
Proof.
  revert i l. induction tries as [|tries IH]; intros i l; simpl;
    [constructor|].
  destruct l as [|[|] l]; repeat constructor. apply IH.
Qed.

Lemma close_strays (running : bool) (self : MineRLEnv) :
  no_stray_instance (env self) -> no_stray_instance (env (close running self)).
Proof.
  destruct self as [e v c]. unfold close. simpl. intros Hinv.
  assert (Hclosed : no_stray_instance
            match client_socket e with
            | Some s => set_client_socket None (snd (emit (EvClose s) e))
            | None => e
            end).
  { destruct (client_socket e) as [s|]; [|exact Hinv].
    now apply (stray_extend e _ [EvClose s]). }
  destruct v, c; simpl; try exact Hinv.
  all: destruct running; [|exact Hclosed].
  all: refine (emit_strays (EvKill _) eq_refl _ Hclosed).
Qed.

Section FromTheConstructor.
Context `{Platform}.

(** A new environment, in a world whose log is empty, has the discipline
    of the socket and no instance left behind. *)
Lemma new_environment_invariants (xml : res Mission)
    (observation_space : ObsSpace) (action_space : list (string * Space))
    (obs_handlers : option (list (string * Handler))) (w w' : World)
    (self : MineRLEnv) :
  trace w = [] ->
  __init__ xml observation_space action_space obs_handlers w = (Ok self, w') ->
  tidy (env self) /\ no_stray_instance (env self).
Proof.
  intros Hempty. unfold __init__.
  set (self0 := Build_Env _ _ _ _ _ _ _ _ _ _ _ _ _ _ _ _ _ _ _ _ _).
  unfold _robust_launch_new_instance.
  destruct (robust_launch_loop_spec 3 self0) as (w1 & Hrun & Htr & _).
  rewrite Hrun.
  change (launches (world self0)) with (launches w) in *.
  change (fresh_instance (world self0)) with (fresh_instance w) in *.
  change (trace (world self0)) with (trace w) in *.
  rewrite Hempty, app_nil_l in Htr.
  destruct (launch_succeeds 3 (launches w)) eqn:Hok; [|discriminate].
  intros [= <- _]. cbn [env].
  destruct (sends_open_quiet None [] _
              (relaunch_events_quiet 3 (fresh_instance w) (launches w)))
    as [Hopen Hnone]; [discriminate|].
  assert (Hstrays : forall i, i ∈ launch_handles (trace w1) ->
            i = relaunch_handle 3 (fresh_instance w) (launches w) \/
            i ∈ killed (trace w1)).
  { intros i. rewrite Htr. intros Hin.
    apply relaunch_events_strays in Hin as [[_ ->]|Hin]; auto. }
  rewrite <- Htr in Hopen, Hnone. clear Htr.
  split.
  - split; [|split]; simpl.
    + exact Hopen.
    + intros s. rewrite Hnone. intros Hin. now apply elem_of_nil in Hin.
    + discriminate.
  - intros i. simpl. apply Hstrays.
Qed.

(** X28: no sequence of calls ever sends on a socket it has closed. From
    a new environment in a world whose log is empty, whatever calls to
    [seed], [reset], [step] and [close] follow, with whatever arguments
    and outcomes, every message in the log went out on a socket that had
    not been closed before. *)
Theorem calls_never_send_on_closed_socket (xml : res Mission)
    (observation_space : ObsSpace) (action_space : list (string * Space))
    (obs_handlers : option (list (string * Handler))) (w w' : World)
    (self self' : MineRLEnv) (cs : list api_call) :
  trace w = [] ->
  __init__ xml observation_space action_space obs_handlers w = (Ok self, w') ->
  calls cs self = Some self' ->
  sends_open [] (trace (world (env self'))) = true.
Proof.
  intros Hempty Hnew Hcalls.
  destruct (new_environment_invariants _ _ _ _ _ _ _ Hempty Hnew) as [Ht _].
  assert (Ht' : tidy (env self')); [|apply Ht'].
  revert Hcalls. apply calls_invariant; try assumption.
  - intros e e' Hs _ Hw. now apply tidy_same.
  - apply keeps_any. intros sock. apply quit_episode_keeps.
  - apply keeps_any. intros sock. apply sleep_keeps.
  - apply start_up_once_tidy.
  - intros action. apply step_tidy.
  - apply close_tidy.
Qed.

(** X29: no sequence of calls leaves an instance behind. From a new
    environment in a world whose log is empty, whatever calls to [seed],
    [reset], [step] and [close] follow, every instance that was ever
    launched is the current one or was killed. *)
Theorem calls_leave_no_stray_instance (xml : res Mission)
    (observation_space : ObsSpace) (action_space : list (string * Space))
    (obs_handlers : option (list (string * Handler))) (w w' : World)
    (self self' : MineRLEnv) (cs : list api_call) (i : Instance) :
  trace w = [] ->
  __init__ xml observation_space action_space obs_handlers w = (Ok self, w') ->
  calls cs self = Some self' ->
  i ∈ launch_handles (trace (world (env self'))) ->
  i = instance (env self') \/ i ∈ killed (trace (world (env self'))).
Proof.
  intros Hempty Hnew Hcalls.
  destruct (new_environment_invariants _ _ _ _ _ _ _ Hempty Hnew) as [_ Hi].
  assert (Hi' : no_stray_instance (env self')); [|apply Hi'].
  revert Hcalls. apply calls_invariant; try assumption.
  - intros e e' _ Hinst Hw Hinv j. rewrite Hw, Hinst. apply Hinv.
  - apply quit_episode_strays.
  - apply sleep_strays.
  - apply start_up_once_strays.
  - intros action. apply step_strays.
  - apply close_strays.
Qed.

End FromTheConstructor.

(** ** A sample session *)

Lemma calls_never_send_on_closed_socket_witness :
  let w := sample_world [Msg (ack 1); Msg "abcdef"; Msg "{}"; Msg flag_unset;
                         Msg "abcdef"; Msg step_reply; Msg "{}"] [] [] in
  let cs := [CallSeed (Some (PyInt 7)); CallReset 1; CallStep sample_action;
             CallStep sample_action; CallReset 1; CallClose true] in
  exists self w' self',
    __init__ (H := sample_platform) (Ok sample_mission) sample_obs_space
      sample_action_space None w = (Ok self, w') /\
    calls (H := sample_platform) cs self = Some self' /\
    sends_open [] (trace (world (env self'))) = true.
Proof.
  intros w cs.
  destruct (__init__ (H := sample_platform) (Ok sample_mission)
              sample_obs_space sample_action_space None w)
    as [[self|x] w'] eqn:Hnew; [|vm_compute in Hnew; discriminate].
  pose proof Hnew as Hself. vm_compute in Hself. injection Hself as <- <-.
  match type of Hnew with
  | _ = (Ok ?s, _) =>
      destruct (calls (H := sample_platform) cs s) as [self'|] eqn:Hcalls;
        [|vm_compute in Hcalls; discriminate]
  end.
  eexists _, _, self'. split; [exact Hnew|]. split; [exact Hcalls|].
  exact (calls_never_send_on_closed_socket (H := sample_platform) _ _ _ _ w _
           _ self' cs eq_refl Hnew Hcalls).
Defined.

Lemma calls_leave_no_stray_instance_witness :
  let w := sample_world [Msg (ack 1); Msg "abcdef"; Msg "{}"; Msg flag_unset;
                         Msg "abcdef"; Msg step_reply; Msg "{}"] [] [] in
  let cs := [CallReset 1; CallStep sample_action; CallStep sample_action;
             CallReset 1; CallReset 1] in
  exists self w' self',
    __init__ (H := sample_platform) (Ok sample_mission) sample_obs_space
      sample_action_space None w = (Ok self, w') /\
    calls (H := sample_platform) cs self = Some self' /\
    forall i, i ∈ launch_handles (trace (world (env self'))) ->
              i = instance (env self') \/
              i ∈ killed (trace (world (env self'))).
Proof.
  intros w cs.
  destruct (__init__ (H := sample_platform) (Ok sample_mission)
              sample_obs_space sample_action_space None w)
    as [[self|x] w'] eqn:Hnew; [|vm_compute in Hnew; discriminate].
  pose proof Hnew as Hself. vm_compute in Hself. injection Hself as <- <-.
  match type of Hnew with
  | _ = (Ok ?s, _) =>
      destruct (calls (H := sample_platform) cs s) as [self'|] eqn:Hcalls;
        [|vm_compute in Hcalls; discriminate]
  end.
  eexists _, _, self'. split; [exact Hnew|]. split; [exact Hcalls|].
  intros i.
  exact (calls_leave_no_stray_instance (H := sample_platform) _ _ _ _ w _
           _ self' cs i eq_refl Hnew Hcalls).
Defined.
